(** * apiGateway: the request pipeline and its stateful controllers

    A shallow embedding of the parts of the gateway that its specification
    makes claims about, one module per source file:

    - [CircuitBreaker]: src/circuit-breaker/circuitBreaker.js
    - [RateLimiter]:    src/middleware/rateLimiter.js (unnamed/part_001)
    - [ApiGateway]:     src/apiGateway.js, the assembled middleware stack
    - [Cache]:          src/cache/cacheManager.js (unnamed/part_004),
      src/cache/cacheUtils.js

    JavaScript objects that are mutated in place (the circuit table, the
    quota table, the cache tiers, the response under construction) are
    threaded explicitly; the breaker, whose methods call one another and
    can throw, runs in a small state-and-exception monad.  Counters that
    start at 0 and are only incremented or reset are [N]; timestamps and
    configured numbers are [Z]; the error rate, which the source computes
    by a floating-point division, is an exact rational [Q].  An [await]
    is taken to run to completion before the next request is looked at.

    The embedding comes first, then the statements and sample inputs the
    theorems need, then the theorems. *)

From stdpp Require Import gmap strings list sorting.
From Stdlib Require Import Ascii String ZArith QArith Lia.

Local Open Scope Z_scope.

(** ** JavaScript idioms shared by the modules *)

Module Js.

(** [x || d] on a possibly-undefined number: [undefined] and [0] are falsy. *)
Definition or_default (x : option Z) (d : Z) : Z :=
  match x with
  | Some v => if v =? 0 then d else v
  | None => d
  end.

Definition or_defaultQ (x : option Q) (d : Q) : Q :=
  match x with
  | Some v => if Qeq_bool v 0 then d else v
  | None => d
  end.

(** [x !== false] on a possibly-undefined boolean. *)
Definition not_false (x : option bool) : bool :=
  match x with
  | Some false => false
  | _ => true
  end.

(** [Math.ceil (x / 1000)] on an integer [x]. *)
Definition ceil_div (x d : Z) : Z := - ((- x) / d).

(** [s.split(c)] *)
Fixpoint split_go (c : ascii) (s : string) (cur : string) : list string :=
  match s with
  | EmptyString => [String.rev cur]
  | String a s' =>
      if Ascii.eqb a c then String.rev cur :: split_go c s' EmptyString
      else split_go c s' (String a cur)
  end.

Definition split (c : ascii) (s : string) : list string :=
  split_go c s EmptyString.

(** truthiness of a string: only the empty string is falsy *)
Definition truthy (s : string) : bool :=
  match s with EmptyString => false | _ => true end.

(** [headers[name]] read for truthiness: an absent header and an empty
    one are both falsy. *)
Definition header_truthy (hs : gmap string string) (name : string) : bool :=
  match hs !! name with
  | Some v => truthy v
  | None => false
  end.

(** [s.includes(pat)] *)
Fixpoint includes (pat s : string) : bool :=
  String.prefix pat s
  || match s with
     | EmptyString => false
     | String _ s' => includes pat s'
     end.

End Js.

(** ** src/circuit-breaker/circuitBreaker.js *)

Module CircuitBreaker.

Inductive State := CLOSED | OPEN | HALF_OPEN.

(** Per-service overrides as they appear in [config.services[name]]. *)
Record ServiceOverrides := {
  so_timeout : option Z;
  so_errorThreshold : option Q;
  so_errorCount : option Z;
  so_resetTimeout : option Z;
  so_halfOpenRequests : option Z
}.

Definition no_overrides : ServiceOverrides :=
  {| so_timeout := None; so_errorThreshold := None; so_errorCount := None;
     so_resetTimeout := None; so_halfOpenRequests := None |}.

(** The object handed to the constructor; every field may be missing. *)
Record RawConfig := {
  raw_enabled : option bool;
  raw_timeout : option Z;
  raw_errorThreshold : option Q;
  raw_errorCount : option Z;
  raw_resetTimeout : option Z;
  raw_halfOpenRequests : option Z;
  raw_monitoringWindow : option Z;
  raw_services : option (gmap string ServiceOverrides)
}.

(** [this.config] *)
Record Config := {
  enabled : bool;
  timeout : Z;
  errorThreshold : Q;
  errorCount : Z;
  resetTimeout : Z;
  halfOpenRequests : Z;
  monitoringWindow : Z;
  services : gmap string ServiceOverrides
}.

(** [circuit.config] *)
Record CircuitConfig := {
  c_timeout : Z;
  c_errorThreshold : Q;
  c_errorCount : Z;
  c_resetTimeout : Z;
  c_halfOpenRequests : Z
}.

Record Circuit := {
  state : State;
  failures : N;
  successes : N;
  lastFailureTime : option Z;
  lastStateChange : Z;
  probes : N;                       (* circuit.halfOpenRequests *)
  config : CircuitConfig
}.

Record StateChange := {
  from : State;
  to : State;
  timestamp : Z
}.

Record Stats := {
  totalRequests : N;
  totalFailures : N;
  totalSuccesses : N;
  totalTimeouts : N;
  stateChanges : list StateChange;
  lastError : option (string * Z)
}.

(** The breaker object, together with the number of clock readings taken
    so far (see [Date_now]). *)
Record Breaker := {
  cfg : Config;
  circuits : gmap string Circuit;
  stats : gmap string Stats;
  reads : nat
}.

(** The parts of the request the breaker reads. *)
Record Request := {
  path : string;
  headers : gmap string string;
  requestId : string
}.

(** The body of the 503 sent by [rejectRequest]. *)
Record Rejection := {
  status : Z;
  error : string;
  message : string;
  retryAfter : Z;
  rej_requestId : string
}.

(** [req.circuitBreakerContext] *)
Record Context := {
  ctx_serviceName : string;
  startTime : Z
}.

(** What the middleware did with the request: called [next()], with the
    context it attached if any, or sent a response. *)
Inductive MwResult :=
| Next (ctx : option Context)
| Sent (r : Rejection).

(** What the wrapped upstream call does within the timeout. *)
Inductive FnOutcome (V : Type) :=
| Resolves (v : V)
| Rejects (message : string)
| StillPending.
Arguments Resolves {V} v.
Arguments Rejects {V} message.
Arguments StillPending {V}.

(** What a JavaScript call ends in. *)
Inductive Error :=
| TypeError
| CircuitBreakerError (message : string) (serviceName : string)
| UpstreamError (message : string).

Inductive Outcome (A : Type) :=
| Ok (a : A)
| Throw (e : Error).
Arguments Ok {A} a.
Arguments Throw {A} e.

(** Mutations made before an exception stay in place, so the state is
    returned in both cases. *)
Definition M (A : Type) : Type := Breaker -> Outcome A * Breaker.

Definition ret {A} (a : A) : M A := fun b => (Ok a, b).

Definition bind {A B} (m : M A) (k : A -> M B) : M B :=
  fun b =>
    match m b with
    | (Ok a, b') => k a b'
    | (Throw e, b') => (Throw e, b')
    end.

Definition throw {A} (e : Error) : M A := fun b => (Throw e, b).

Definition try_catch {A} (m : M A) (handler : Error -> M A) : M A :=
  fun b =>
    match m b with
    | (Ok a, b') => (Ok a, b')
    | (Throw e, b') => handler e b'
    end.

Definition gets {A} (f : Breaker -> A) : M A := fun b => (Ok (f b), b).

Definition modify (f : Breaker -> Breaker) : M unit := fun b => (Ok tt, f b).

Declare Scope cb_scope.
Delimit Scope cb_scope with cb.
Notation "'let*' x ':=' m 'in' k" := (bind m (fun x => k))
  (at level 10, x name, m at level 100, k at level 200) : cb_scope.
Notation "m ';;' k" := (bind m (fun _ => k))
  (at level 100, k at level 200, right associativity) : cb_scope.
Local Open Scope cb_scope.

Definition set_circuits (f : gmap string Circuit -> gmap string Circuit)
    (b : Breaker) : Breaker :=
  {| cfg := cfg b; circuits := f (circuits b); stats := stats b; reads := reads b |}.

Definition set_stats (f : gmap string Stats -> gmap string Stats)
    (b : Breaker) : Breaker :=
  {| cfg := cfg b; circuits := circuits b; stats := f (stats b); reads := reads b |}.

Section WithClock.

(** [clock k] is what the [k]-th reading of the system clock returns. *)
Variable clock : nat -> Z.

(** [Date.now()]; [new Date()] reads the same clock. *)
Definition Date_now : M Z :=
  fun b =>
    (Ok (clock (reads b)),
     {| cfg := cfg b; circuits := circuits b; stats := stats b;
        reads := S (reads b) |}).

(** [constructor(config = {})] *)
Definition constructor (raw : RawConfig) : Outcome Breaker :=
  Ok {| cfg := {| enabled := Js.not_false (raw_enabled raw);
                  timeout := Js.or_default (raw_timeout raw) 5000;
                  errorThreshold := Js.or_defaultQ (raw_errorThreshold raw) 50;
                  errorCount := Js.or_default (raw_errorCount raw) 5;
                  resetTimeout := Js.or_default (raw_resetTimeout raw) 60000;
                  halfOpenRequests := Js.or_default (raw_halfOpenRequests raw) 3;
                  monitoringWindow := Js.or_default (raw_monitoringWindow raw) 10000;
                  services := default ∅ (raw_services raw) |};
        circuits := ∅;
        stats := ∅;
        reads := 0 |}.

Definition new_circuit (c : Config) (so : ServiceOverrides) (now : Z) : Circuit :=
  {| state := CLOSED;
     failures := 0;
     successes := 0;
     lastFailureTime := None;
     lastStateChange := now;
     probes := 0;
     config := {| c_timeout := Js.or_default (so_timeout so) (timeout c);
                  c_errorThreshold :=
                    Js.or_defaultQ (so_errorThreshold so) (errorThreshold c);
                  c_errorCount := Js.or_default (so_errorCount so) (errorCount c);
                  c_resetTimeout := Js.or_default (so_resetTimeout so) (resetTimeout c);
                  c_halfOpenRequests :=
                    Js.or_default (so_halfOpenRequests so) (halfOpenRequests c) |} |}.

Definition new_stats : Stats :=
  {| totalRequests := 0; totalFailures := 0; totalSuccesses := 0;
     totalTimeouts := 0; stateChanges := []; lastError := None |}.

(** [getCircuit(serviceName)]: creates the circuit and its statistics on
    first use and returns the circuit as it is now. *)
Definition getCircuit (serviceName : string) : M Circuit :=
  let* known := gets (fun b => circuits b !! serviceName) in
  match known with
  | Some c => ret c
  | None =>
      let* serviceConfig :=
        gets (fun b => default no_overrides (services (cfg b) !! serviceName)) in
      let* now := Date_now in
      let* c := gets (fun b => new_circuit (cfg b) serviceConfig now) in
      modify (set_circuits (insert serviceName c)) ;;
      modify (set_stats (insert serviceName new_stats)) ;;
      ret c
  end.

(** [this.stats.get(serviceName)]; using an absent entry is a TypeError. *)
Definition getStats (serviceName : string) : M Stats :=
  let* known := gets (fun b => stats b !! serviceName) in
  match known with
  | Some s => ret s
  | None => throw TypeError
  end.

(** A field assignment through the [circuit] alias. *)
Definition update_circuit (serviceName : string) (f : Circuit -> Circuit) : M unit :=
  modify (set_circuits (alter f serviceName)).

(** A field assignment through the [stats] alias. *)
Definition update_stats (serviceName : string) (f : Stats -> Stats) : M unit :=
  getStats serviceName ;;
  modify (set_stats (alter f serviceName)).

Definition with_state (s : State) (now : Z) (c : Circuit) : Circuit :=
  {| state := s; failures := failures c; successes := successes c;
     lastFailureTime := lastFailureTime c; lastStateChange := now;
     probes := 0; config := config c |}.

Definition reset_counts (c : Circuit) : Circuit :=
  {| state := state c; failures := 0; successes := 0;
     lastFailureTime := lastFailureTime c; lastStateChange := lastStateChange c;
     probes := probes c; config := config c |}.

Definition push_change (sc : StateChange) (s : Stats) : Stats :=
  {| totalRequests := totalRequests s; totalFailures := totalFailures s;
     totalSuccesses := totalSuccesses s; totalTimeouts := totalTimeouts s;
     stateChanges := stateChanges s ++ [sc]; lastError := lastError s |}.

(** [transitionToOpen(serviceName)]: the state is overwritten first and
    the log entry reads [circuit.state] afterwards. *)
Definition transitionToOpen (serviceName : string) : M unit :=
  getCircuit serviceName ;;
  let* now := Date_now in
  update_circuit serviceName (with_state OPEN now) ;;
  let* circuit := getCircuit serviceName in
  getStats serviceName ;;
  let* stamp := Date_now in
  update_stats serviceName
    (push_change {| from := state circuit; to := OPEN; timestamp := stamp |}).

(** [transitionToHalfOpen(serviceName)] *)
Definition transitionToHalfOpen (serviceName : string) : M unit :=
  let* circuit := getCircuit serviceName in
  let previousState := state circuit in
  let* now := Date_now in
  update_circuit serviceName (fun c => reset_counts (with_state HALF_OPEN now c)) ;;
  getStats serviceName ;;
  let* stamp := Date_now in
  update_stats serviceName
    (push_change {| from := previousState; to := HALF_OPEN; timestamp := stamp |}).

(** [transitionToClosed(serviceName)] *)
Definition transitionToClosed (serviceName : string) : M unit :=
  let* circuit := getCircuit serviceName in
  let previousState := state circuit in
  let* now := Date_now in
  update_circuit serviceName (fun c => reset_counts (with_state CLOSED now c)) ;;
  getStats serviceName ;;
  let* stamp := Date_now in
  update_stats serviceName
    (push_change {| from := previousState; to := CLOSED; timestamp := stamp |}).

Definition bump_successes (c : Circuit) : Circuit :=
  {| state := state c; failures := failures c; successes := successes c + 1;
     lastFailureTime := lastFailureTime c; lastStateChange := lastStateChange c;
     probes := probes c; config := config c |}.

Definition bump_failures (c : Circuit) : Circuit :=
  {| state := state c; failures := failures c + 1; successes := successes c;
     lastFailureTime := lastFailureTime c; lastStateChange := lastStateChange c;
     probes := probes c; config := config c |}.

Definition bump_probes (c : Circuit) : Circuit :=
  {| state := state c; failures := failures c; successes := successes c;
     lastFailureTime := lastFailureTime c; lastStateChange := lastStateChange c;
     probes := probes c + 1; config := config c |}.

Definition clear_failures (c : Circuit) : Circuit :=
  {| state := state c; failures := 0; successes := successes c;
     lastFailureTime := lastFailureTime c; lastStateChange := lastStateChange c;
     probes := probes c; config := config c |}.

Definition set_lastFailureTime (now : Z) (c : Circuit) : Circuit :=
  {| state := state c; failures := failures c; successes := successes c;
     lastFailureTime := Some now; lastStateChange := lastStateChange c;
     probes := probes c; config := config c |}.

Definition bump_totalRequests (s : Stats) : Stats :=
  {| totalRequests := totalRequests s + 1; totalFailures := totalFailures s;
     totalSuccesses := totalSuccesses s; totalTimeouts := totalTimeouts s;
     stateChanges := stateChanges s; lastError := lastError s |}.

Definition bump_totalSuccesses (s : Stats) : Stats :=
  {| totalRequests := totalRequests s; totalFailures := totalFailures s;
     totalSuccesses := totalSuccesses s + 1; totalTimeouts := totalTimeouts s;
     stateChanges := stateChanges s; lastError := lastError s |}.

Definition bump_totalTimeouts (s : Stats) : Stats :=
  {| totalRequests := totalRequests s; totalFailures := totalFailures s;
     totalSuccesses := totalSuccesses s; totalTimeouts := totalTimeouts s + 1;
     stateChanges := stateChanges s; lastError := lastError s |}.

Definition note_failure (message : string) (stamp : Z) (s : Stats) : Stats :=
  {| totalRequests := totalRequests s; totalFailures := totalFailures s + 1;
     totalSuccesses := totalSuccesses s; totalTimeouts := totalTimeouts s;
     stateChanges := stateChanges s; lastError := Some (message, stamp) |}.

(** [recordSuccess(serviceName)] *)
Definition recordSuccess (serviceName : string) : M unit :=
  getCircuit serviceName ;;
  update_circuit serviceName bump_successes ;;
  update_stats serviceName bump_totalSuccesses ;;
  let* circuit := getCircuit serviceName in
  match state circuit with
  | HALF_OPEN =>
      if (Z.of_N (successes circuit) >=? c_halfOpenRequests (config circuit))%Z
      then transitionToClosed serviceName
      else ret tt
  | _ => ret tt
  end ;;
  let* circuit := getCircuit serviceName in
  match state circuit with
  | CLOSED => update_circuit serviceName clear_failures
  | _ => ret tt
  end.

(** [(circuit.failures / (circuit.failures + circuit.successes)) * 100] *)
Definition errorRate (c : Circuit) : Q :=
  (inject_Z (Z.of_N (failures c))
   / inject_Z (Z.of_N (failures c + successes c))) * 100.

(** The test that guards [transitionToOpen] in the CLOSED branch. *)
Definition should_open (c : Circuit) : bool :=
  (Z.of_N (failures c) >=? c_errorCount (config c))%Z
  && Qle_bool (c_errorThreshold (config c)) (errorRate c).

(** [recordFailure(serviceName, error)]; only [error.message] is used. *)
Definition recordFailure (serviceName : string) (message : string) : M unit :=
  getCircuit serviceName ;;
  update_circuit serviceName bump_failures ;;
  let* stamp := (getStats serviceName ;; Date_now) in
  update_stats serviceName (note_failure message stamp) ;;
  let* now := Date_now in
  update_circuit serviceName (set_lastFailureTime now) ;;
  (if Js.includes "timeout" message
   then update_stats serviceName bump_totalTimeouts
   else ret tt) ;;
  let* circuit := getCircuit serviceName in
  match state circuit with
  | CLOSED =>
      if should_open circuit then transitionToOpen serviceName else ret tt
  | HALF_OPEN => transitionToOpen serviceName
  | OPEN => ret tt
  end.

(** [getServiceName(req)] *)
Definition getServiceName (req : Request) : option string :=
  let pathSegments := filter (fun s => Js.truthy s = true) (Js.split "/" (path req)) in
  match pathSegments with
  | first :: second :: _ =>
      if String.eqb first "api" then Some second
      else if Js.header_truthy (headers req) "x-service-name"
           then headers req !! "x-service-name" else None
  | _ =>
      if Js.header_truthy (headers req) "x-service-name"
      then headers req !! "x-service-name" else None
  end.

(** [rejectRequest(req, res, serviceName)]: the 503 it sends. *)
Definition rejectRequest (req : Request) (serviceName : string) : M Rejection :=
  let* circuit := getCircuit serviceName in
  let* now := Date_now in
  ret {| status := 503;
         error := "Service Unavailable";
         message := "Service " ++ serviceName ++ " is currently unavailable";
         retryAfter :=
           Js.ceil_div
             (c_resetTimeout (config circuit) - (now - lastStateChange circuit)) 1000;
         rej_requestId := requestId req |}.

(** The check of the OPEN state in [middleware()]: [Some r] when the request
    is answered with [r], [None] when it goes on. *)
Definition middleware_open_check (req : Request) (serviceName : string)
    (circuit : Circuit) : M (option Rejection) :=
  match state circuit with
  | OPEN =>
      let* now := Date_now in
      if (now - lastStateChange circuit >=? c_resetTimeout (config circuit))%Z
      then transitionToHalfOpen serviceName ;; ret None
      else let* r := rejectRequest req serviceName in ret (Some r)
  | _ => ret None
  end.

(** [middleware()] applied to one request. *)
Definition middleware (req : Request) : M MwResult :=
  let* on := gets (fun b => enabled (cfg b)) in
  if negb on then ret (Next None)
  else
    match getServiceName req with
    | None => ret (Next None)
    | Some serviceName =>
        let* circuit := getCircuit serviceName in
        let* rejected := middleware_open_check req serviceName circuit in
        match rejected with
        | Some r => ret (Sent r)
        | None =>
            let* start := Date_now in
            ret (Next (Some {| ctx_serviceName := serviceName; startTime := start |}))
        end
    end.

Definition error_message (e : Error) : string :=
  match e with
  | TypeError => "Cannot read properties of undefined"
  | CircuitBreakerError m _ => m
  | UpstreamError m => m
  end.

(** [executeWithTimeout(fn, timeout)]: the timer wins when the call is still
    pending after [timeout]. *)
Definition executeWithTimeout {V} (fn : FnOutcome V) : M V :=
  match fn with
  | Resolves v => ret v
  | Rejects m => throw (UpstreamError m)
  | StillPending => throw (UpstreamError "Circuit breaker timeout")
  end.

Definition or_fallback {V} (fallback : option V) (e : Error) : M V :=
  match fallback with
  | Some v => ret v
  | None => throw e
  end.

(** The check of the OPEN state in [execute]: [Some v] when [execute]
    returns the fallback's [v] at once, an exception when there is no
    fallback, [None] when the call goes on. *)
Definition execute_open_check {V} (serviceName : string) (fallback : option V)
    (circuit : Circuit) : M (option V) :=
  match state circuit with
  | OPEN =>
      let* now := Date_now in
      if (now - lastStateChange circuit >=? c_resetTimeout (config circuit))%Z
      then transitionToHalfOpen serviceName ;; ret None
      else
        let* v := or_fallback fallback
                    (CircuitBreakerError "Circuit breaker is OPEN" serviceName) in
        ret (Some v)
  | _ => ret None
  end.

(** [execute(serviceName, fn, fallback = null)] *)
Definition execute {V} (serviceName : string) (fn : FnOutcome V)
    (fallback : option V) : M V :=
  let* circuit := getCircuit serviceName in
  let* early := execute_open_check serviceName fallback circuit in
  match early with
  | Some v => ret v
  | None =>
      let* circuit := getCircuit serviceName in
      let* early :=
        match state circuit with
        | HALF_OPEN =>
            if (Z.of_N (probes circuit) >=? c_halfOpenRequests (config circuit))%Z
            then
              let* v := or_fallback fallback
                          (CircuitBreakerError
                             "Circuit breaker is HALF_OPEN - max requests reached"
                             serviceName) in
              ret (Some v)
            else update_circuit serviceName bump_probes ;; ret None
        | _ => ret None
        end in
      match early with
      | Some v => ret v
      | None =>
          try_catch
            (update_stats serviceName bump_totalRequests ;;
             let* result := executeWithTimeout fn in
             recordSuccess serviceName ;;
             ret result)
            (fun e =>
               recordFailure serviceName (error_message e) ;;
               or_fallback fallback e)
      end
  end.

End WithClock.

End CircuitBreaker.


(** ** src/middleware/rateLimiter.js *)

Module RateLimiter.

Record QuotaConfig := {
  windowMs : Z;
  maxRequests : Z
}.

Record GlobalConfig := {
  g_windowMs : Z;
  g_maxRequests : Z;
  g_message : string
}.

(** [this.config]; the slow-down block only parameterises the external
    limiter and is left out. *)
Record Config := {
  enabled : bool;
  global : GlobalConfig;
  perUser : QuotaConfig;
  perApiKey : QuotaConfig
}.

(** The compiled defaults of the constructor. *)
Definition default_config : Config :=
  {| enabled := true;
     global := {| g_windowMs := 15 * 60 * 1000; g_maxRequests := 1000;
                  g_message := "Too many requests from this IP" |};
     perUser := {| windowMs := 15 * 60 * 1000; maxRequests := 500 |};
     perApiKey := {| windowMs := 15 * 60 * 1000; maxRequests := 2000 |} |}.

(** [apiKey.rateLimit.window] is a number, a string or something else. *)
Inductive JsWindow :=
| WNumber (n : Z)
| WString (s : string)
| WOther.

Record KeyRateLimit := {
  rl_window : JsWindow;
  rl_requests : option Z
}.

Record ApiKey := {
  key : string;
  rateLimit : option KeyRateLimit
}.

(** [req.user] *)
Record User := {
  id : string;
  authMethod : string;
  apiKey : option ApiKey
}.

Record Request := {
  user : option User;
  requestId : string
}.

(** A number that may be NaN. *)
Inductive Num :=
| Finite (z : Z)
| NaN.

(** [a !== b] on numbers: NaN differs from everything, itself included. *)
Definition num_differs (a b : Num) : bool :=
  match a, b with
  | Finite x, Finite y => negb (x =? y)
  | _, _ => true
  end.

Definition num_add (a : Num) (z : Z) : Num :=
  match a with
  | Finite x => Finite (x + z)
  | NaN => NaN
  end.

(** An entry of [this.quotas]. *)
Record Quota := {
  requests : Z;
  windowStart : Num;
  resetTime : Num;
  limit : Z
}.

(** The [quota] object of the result of [checkQuota]. *)
Record QuotaInfo := {
  q_limit : Z;
  q_remaining : Z;
  q_reset : Num;
  q_window : Z
}.

Record QuotaResult := {
  allowed : bool;
  quota : option QuotaInfo;
  message : option string
}.

(** What [parseTimeWindow] returns: a number, [null], or NaN. *)
Inductive Parsed :=
| PNumber (n : Z)
| PNull
| PNaN.

(** [parseTimeWindow(window)].  The pattern is written [/(\\d+)([smhd]?)/]
    in the source: it asks for a backslash followed by the letter d, so the
    first group, when there is a match, starts with a backslash, [parseInt]
    of it is NaN and so is every product computed from it. *)
Definition parseTimeWindow (window : JsWindow) : Parsed :=
  match window with
  | WNumber n => PNumber n
  | WOther => PNull
  | WString s => if Js.includes "\d" s then PNaN else PNull
  end.

(** [parseTimeWindow(w) || d] *)
Definition parsed_or (p : Parsed) (d : Z) : Z :=
  match p with
  | PNumber n => if n =? 0 then d else n
  | PNull => d
  | PNaN => d
  end.

(** The key under which the request is counted; [None] when
    [req.user.apiKey.key] dereferences [undefined]. *)
Definition quotaKey (u : User) : option string :=
  if String.eqb (authMethod u) "apikey"
  then match apiKey u with
       | Some k => Some ("apikey:" ++ key k)%string
       | None => None
       end
  else Some ("user:" ++ id u)%string.

Definition quotaConfig (cfg : Config) (u : User) : QuotaConfig :=
  if String.eqb (authMethod u) "apikey"
  then match apiKey u with
       | Some {| rateLimit := Some rl |} =>
           {| windowMs :=
                parsed_or (parseTimeWindow (rl_window rl)) (windowMs (perApiKey cfg));
              maxRequests :=
                Js.or_default (rl_requests rl) (maxRequests (perApiKey cfg)) |}
       | _ => perUser cfg
       end
  else perUser cfg.

(** [Math.floor(now / windowMs) * windowMs]; with [windowMs = 0] the
    quotient is infinite or NaN and the product is NaN. *)
Definition windowStartOf (windowMs : Z) (now : Z) : Num :=
  if windowMs =? 0 then NaN else Finite (now / windowMs * windowMs).

Definition fresh_quota (qc : QuotaConfig) (ws : Num) : Quota :=
  {| requests := 0;
     windowStart := ws;
     resetTime := num_add ws (windowMs qc);
     limit := maxRequests qc |}.

Definition count_request (q : Quota) : Quota :=
  {| requests := requests q + 1; windowStart := windowStart q;
     resetTime := resetTime q; limit := limit q |}.

(** [checkQuota(req)] at time [now] on the table [quotas]: the result, or
    [None] for the TypeError of the key computation, and the table after
    the call. *)
Definition checkQuota (cfg : Config) (req : Request) (now : Z)
    (quotas : gmap string Quota) : option QuotaResult * gmap string Quota :=
  match user req with
  | None => (Some {| allowed := true; quota := None; message := None |}, quotas)
  | Some u =>
      match quotaKey u with
      | None => (None, quotas)
      | Some k =>
          let qc := quotaConfig cfg u in
          let ws := windowStartOf (windowMs qc) now in
          let q :=
            match quotas !! k with
            | Some q => if num_differs (windowStart q) ws then fresh_quota qc ws else q
            | None => fresh_quota qc ws
            end in
          let q := count_request q in
          let ok := requests q <=? limit q in
          (Some {| allowed := ok;
                   quota := Some {| q_limit := limit q;
                                    q_remaining := Z.max 0 (limit q - requests q);
                                    q_reset := resetTime q;
                                    q_window := windowMs qc |};
                   message := Some (if ok then "Request allowed" else "Quota exceeded")%string |},
           <[k := q]> quotas)
      end
  end.

(** A header value. *)
Inductive HeaderValue :=
| HNum (n : Num)
| HStr (s : string).

(** The JSON body of the 429 sent on a quota denial. *)
Record DenyBody := {
  d_error : string;
  d_message : option string;
  d_quota : option QuotaInfo;
  d_requestId : string
}.

(** The response under construction. *)
Record Response := {
  statusCode : Z;
  headers : gmap string HeaderValue;
  body : option DenyBody
}.

Definition setHeader (name : string) (v : HeaderValue) (res : Response) : Response :=
  {| statusCode := statusCode res; headers := <[name := v]> (headers res);
     body := body res |}.

Definition send_json (code : Z) (b : DenyBody) (res : Response) : Response :=
  {| statusCode := code; headers := headers res; body := Some b |}.

(** What one of the two library limiters (express-rate-limit,
    express-slow-down) does with the request: it calls back without an
    error, calls back with an error, or answers the request itself and
    never calls back. *)
Inductive LimiterOutcome :=
| Passed (res : Response)
| Failed (res : Response)
| Answered (res : Response).

(** What the middleware does with the request. *)
Inductive MwResult :=
| Next (res : Response)
| Sent (res : Response).

(** [middleware()] applied to one request. *)
Definition middleware (cfg : Config)
    (globalLimiter slowDownLimiter : Response -> LimiterOutcome)
    (req : Request) (res : Response) (now : Z) (quotas : gmap string Quota)
    : MwResult * gmap string Quota :=
  if negb (enabled cfg) then (Next res, quotas)
  else
    match globalLimiter res with
    | Answered res => (Sent res, quotas)
    | Failed res => (Next res, quotas)
    | Passed res =>
        match slowDownLimiter res with
        | Answered res => (Sent res, quotas)
        | Failed res => (Next res, quotas)
        | Passed res =>
            match checkQuota cfg req now quotas with
            | (None, quotas) => (Next res, quotas)
            | (Some quotaResult, quotas) =>
                if negb (allowed quotaResult)
                then (Sent (send_json 429
                              {| d_error := "Quota Exceeded";
                                 d_message := message quotaResult;
                                 d_quota := quota quotaResult;
                                 d_requestId := requestId req |} res),
                      quotas)
                else
                  match quota quotaResult with
                  | Some q =>
                      (Next (setHeader "X-RateLimit-Reset" (HNum (q_reset q))
                               (setHeader "X-RateLimit-Remaining" (HNum (Finite (q_remaining q)))
                                  (setHeader "X-RateLimit-Limit" (HNum (Finite (q_limit q)))
                                     res))),
                       quotas)
                  | None => (Next res, quotas)
                  end
            end
        end
    end.

End RateLimiter.


(** ** src/apiGateway.js: the assembled middleware stack *)

Module ApiGateway.

(** Every function handed to [app.use] or [app.get]. *)
Inductive Stage :=
| Helmet
| Cors
| Compression
| CookieParser
| JsonBody
| UrlencodedBody
| RequestLogging
| RateLimit              (* this.rateLimiter.middleware() *)
| Security               (* this.securityManager.middleware() *)
| RequestTransform       (* this.requestTransformer.middleware() *)
| HealthHandler
| RequireAdmin           (* this.authManager.requireAdmin() *)
| MetricsHandler
| ServicesHandler
| RoutesHandler
| CacheAdminRoutes
| SwaggerServe
| SwaggerSetup
| AuthRoutes             (* this.authManager.getAuthRoutes() *)
| Authenticate           (* this.authManager.authenticate() *)
| CacheLookup            (* this.cacheService.middleware() *)
| CacheInvalidation      (* this.cacheService.invalidationMiddleware() *)
| CircuitBreakerGate     (* this.circuitBreaker.middleware() *)
| RouterMw               (* this.router.middleware() *)
| ResponseTransform      (* this.responseTransformer.middleware() *)
| NotFound
| ResponseLogging.

Definition Stage_eq_dec (a b : Stage) : {a = b} + {a <> b}.
Proof. decide equality. Defined.

Definition Stage_eqb (a b : Stage) : bool :=
  if Stage_eq_dec a b then true else false.

(** Where a layer is mounted. *)
Inductive Mount :=
| Everywhere                       (* app.use(fn) and app.use('*', fn) *)
| Under (prefix : list string)     (* app.use('/a/b', fn) *)
| Get (route : list string).       (* app.get('/a/b', fn) *)

Record Layer := {
  mount : Mount;
  stage : Stage
}.

(** The two switches of the configuration that shape the stack. *)
Record Config := {
  rateLimit_enabled : bool;
  documentation_enabled : bool
}.

Definition use (fns : list Stage) : list Layer :=
  map (fun s => {| mount := Everywhere; stage := s |}) fns.

Definition use_at (prefix : list string) (fns : list Stage) : list Layer :=
  map (fun s => {| mount := Under prefix; stage := s |}) fns.

Definition get (route : list string) (fns : list Stage) : list Layer :=
  map (fun s => {| mount := Get route; stage := s |}) fns.

(** [setupMiddleware()] *)
Definition setupMiddleware (config : Config) : list Layer :=
  use [Helmet]
  ++ use [Cors]
  ++ use [Compression]
  ++ use [CookieParser]
  ++ use [JsonBody]
  ++ use [UrlencodedBody]
  ++ use [RequestLogging]
  ++ (if rateLimit_enabled config then use [RateLimit] else [])
  ++ use [Security]
  ++ use [RequestTransform].

(** [setupRoutes()] *)
Definition setupRoutes (config : Config) : list Layer :=
  get ["health"] [HealthHandler]
  ++ get ["metrics"] [RequireAdmin; MetricsHandler]
  ++ get ["admin"; "services"] [RequireAdmin; ServicesHandler]
  ++ get ["admin"; "routes"] [RequireAdmin; RoutesHandler]
  ++ use_at ["admin"; "cache"] [RequireAdmin; CacheAdminRoutes]
  ++ (if documentation_enabled config
      then use_at ["docs"] [SwaggerServe; SwaggerSetup] else [])
  ++ use_at ["auth"] [AuthRoutes]
  ++ use_at ["api"]
       [Authenticate; CacheLookup; CacheInvalidation; CircuitBreakerGate;
        RouterMw; ResponseTransform]
  ++ use [NotFound].

(** The regular middleware of [setupErrorHandling()]; the four-argument
    error handler registered after it only runs on an error. *)
Definition setupErrorHandling (config : Config) : list Layer :=
  use [ResponseLogging].

(** The stack in the order the constructor builds it. *)
Definition app (config : Config) : list Layer :=
  setupMiddleware config ++ setupRoutes config ++ setupErrorHandling config.

Record RequestLine := {
  method : string;
  path : string
}.

Definition lower_ascii (a : ascii) : ascii :=
  let n := nat_of_ascii a in
  if ((65 <=? n) && (n <=? 90))%nat then ascii_of_nat (n + 32) else a.

Fixpoint lower (s : string) : string :=
  match s with
  | EmptyString => EmptyString
  | String a s' => String (lower_ascii a) (lower s')
  end.

(** The segments of the path that follow the mount point, if the path
    starts with it; routing ignores case. *)
Fixpoint strip_prefix (pat segs : list string) : option (list string) :=
  match pat, segs with
  | [], _ => Some segs
  | p :: pat', s :: segs' =>
      if String.eqb p (lower s) then strip_prefix pat' segs' else None
  | _ :: _, [] => None
  end.

Definition matches (m : Mount) (r : RequestLine) : bool :=
  match m with
  | Everywhere => true
  | Under prefix =>
      match Js.split "/" (path r) with
      | EmptyString :: segs => bool_decide (is_Some (strip_prefix prefix segs))
      | _ => false
      end
  | Get route =>
      (String.eqb (method r) "GET" || String.eqb (method r) "HEAD")
      && match Js.split "/" (path r) with
         | EmptyString :: segs =>
             match strip_prefix route segs with
             | Some [] | Some [EmptyString] => true
             | _ => false
             end
         | _ => false
         end
  end.

Section Dispatch.

(** The mutable request object: [req.user] and everything else. *)
Variable Props : Type.

Record Ctx := {
  user : option RateLimiter.User;
  props : Props
}.

(** A middleware either calls [next()], leaving the request as [ctx], or
    ends the request (it answers, or hands an error to the error handler):
    no later regular middleware runs. *)
Inductive Outcome :=
| Continue (ctx : Ctx)
| Stop.

(** The stages that run for a request, in order, each with the request
    object it received. *)
Fixpoint dispatch (h : Stage -> Ctx -> Outcome) (r : RequestLine)
    (ls : list Layer) (ctx : Ctx) : list (Stage * Ctx) :=
  match ls with
  | [] => []
  | l :: ls' =>
      if matches (mount l) r
      then (stage l, ctx)
           :: match h (stage l) ctx with
              | Continue ctx' => dispatch h r ls' ctx'
              | Stop => []
              end
      else dispatch h r ls' ctx
  end.

(** [handle]: one request through the assembled application. *)
Definition handle (config : Config) (h : Stage -> Ctx -> Outcome)
    (r : RequestLine) (ctx : Ctx) : list (Stage * Ctx) :=
  dispatch h r (app config) ctx.

Definition stages_run (config : Config) (h : Stage -> Ctx -> Outcome)
    (r : RequestLine) (ctx : Ctx) : list Stage :=
  map fst (handle config h r ctx).

End Dispatch.

Arguments user {Props} _.
Arguments props {Props} _.
Arguments Continue {Props} ctx.
Arguments Stop {Props}.
Arguments dispatch {Props} h r ls ctx.
Arguments handle {Props} config h r ctx.
Arguments stages_run {Props} config h r ctx.

(** [a] runs before [b]: once [b] has run, [a] does not run any more. *)
Definition runs_before (a b : Stage) (tr : list Stage) : Prop :=
  forall before after : list Stage, tr = before ++ b :: after -> a ∉ after.

(** The stages of [order] run in that order. *)
Definition in_order (order : list Stage) (tr : list Stage) : Prop :=
  forall (i j : nat) (a b : Stage),
    order !! i = Some a -> order !! j = Some b -> (i < j)%nat -> runs_before a b tr.

(** The order the specification gives. *)
Definition specified_order : list Stage :=
  [Security; RateLimit; RequestTransform; Authenticate; CacheLookup;
   CircuitBreakerGate; RouterMw].

(** The stages the pipeline order speaks of. *)
Definition is_pipeline_stage (s : Stage) : bool :=
  match s with
  | RateLimit | Security | RequestTransform | Authenticate | CacheLookup
  | CircuitBreakerGate | RouterMw => true
  | _ => false
  end.

(** The order in which the stack runs them. *)
Definition pipeline_order (config : Config) : list Stage :=
  (if rateLimit_enabled config then [RateLimit] else [])
  ++ [Security; RequestTransform; Authenticate; CacheLookup;
      CircuitBreakerGate; RouterMw].

(** The layer is mounted where the request goes. *)
Definition matched (r : RequestLine) (l : Layer) : bool := matches (mount l) r.

(** [runs_before], decided. *)
Fixpoint runs_beforeb (a b : Stage) (tr : list Stage) : bool :=
  match tr with
  | [] => true
  | s :: tr' =>
      (if Stage_eqb s b then negb (existsb (Stage_eqb a) tr') else true)
      && runs_beforeb a b tr'
  end.

(** [in_order], decided. *)
Fixpoint in_orderb (order tr : list Stage) : bool :=
  match order with
  | [] => true
  | a :: order' => forallb (fun b => runs_beforeb a b tr) order' && in_orderb order' tr
  end.

(** The stages registered before the rate limiter. *)
Definition before_rate_limiter : list Stage :=
  [Helmet; Cors; Compression; CookieParser; JsonBody; UrlencodedBody; RequestLogging].

End ApiGateway.


(** ** Encodings used by the cache keys *)

Module Encoding.

Definition hex_digit (n : nat) : ascii :=
  nth n (list_ascii_of_string "0123456789ABCDEF") "0"%char.

(** One byte under the application/x-www-form-urlencoded serializer that
    [URLSearchParams.prototype.toString] applies. *)
Definition form_byte (a : ascii) : string :=
  let n := nat_of_ascii a in
  if ((48 <=? n) && (n <=? 57) || (65 <=? n) && (n <=? 90)
      || (97 <=? n) && (n <=? 122)
      || (n =? 42) || (n =? 45) || (n =? 46) || (n =? 95))%nat
  then String a EmptyString
  else if (n =? 32)%nat then "+"%string
  else String "%" (String (hex_digit (n / 16)) (String (hex_digit (n mod 16)) EmptyString)).

Fixpoint form_encode (s : string) : string :=
  match s with
  | EmptyString => EmptyString
  | String a s' => (form_byte a ++ form_encode s')%string
  end.

(** [new URLSearchParams(obj).toString()] for an object whose properties,
    in enumeration order, are [q]. *)
Fixpoint URLSearchParams_toString (q : list (string * string)) : string :=
  match q with
  | [] => EmptyString
  | [(k, v)] => (form_encode k ++ "=" ++ form_encode v)%string
  | (k, v) :: q' =>
      (form_encode k ++ "=" ++ form_encode v ++ "&" ++ URLSearchParams_toString q')%string
  end.

Definition base64_digit (n : nat) : ascii :=
  nth n
    (list_ascii_of_string
       "ABCDEFGHIJKLMNOPQRSTUVWXYZabcdefghijklmnopqrstuvwxyz0123456789+/")
    "="%char.

Fixpoint base64_bytes (bs : list nat) : string :=
  match bs with
  | [] => EmptyString
  | [a] =>
      String (base64_digit (a / 4))
        (String (base64_digit (a mod 4 * 16)) "==")
  | [a; b] =>
      String (base64_digit (a / 4))
        (String (base64_digit (a mod 4 * 16 + b / 16))
           (String (base64_digit (b mod 16 * 4)) "="))
  | a :: b :: c :: rest =>
      String (base64_digit (a / 4))
        (String (base64_digit (a mod 4 * 16 + b / 16))
           (String (base64_digit (b mod 16 * 4 + c / 64))
              (String (base64_digit (c mod 64)) (base64_bytes rest))))
  end%nat.

(** [Buffer.from(s).toString('base64')] *)
Definition base64 (s : string) : string :=
  base64_bytes (map nat_of_ascii (list_ascii_of_string s)).

End Encoding.


(** ** src/cache/cacheManager.js and src/cache/cacheUtils.js *)

Module Cache.

Record Strategy := {
  ttl : option Z;
  invalidateOn : list string
}.

(** [this.config]; [strategies] in the enumeration order of the object. *)
Record Config := {
  enabled : bool;
  defaultTTL : Z;
  keyPrefix : string;
  strategies : list (string * Strategy);
  cacheableStatusCodes : list Z;
  cacheableMethods : list string
}.

(** The compiled defaults of the constructor. *)
Definition default_config : Config :=
  {| enabled := true;
     defaultTTL := 300;
     keyPrefix := "gateway:";
     strategies :=
       [("/api/users"%string,
         {| ttl := Some 600; invalidateOn := ["POST"; "PUT"; "DELETE"]%string |});
        ("/api/products"%string,
         {| ttl := Some 1800; invalidateOn := ["POST"; "PUT"; "DELETE"]%string |})];
     cacheableStatusCodes := [200; 201; 203; 300; 301; 302; 304];
     cacheableMethods := ["GET"; "HEAD"]%string |}.

(** The request as the cache reads it; [query] lists the properties of
    [req.query] in enumeration order, header names are lower case. *)
Record Request := {
  method : string;
  path : string;
  query : list (string * string);
  headers : gmap string string;
  requestId : string
}.

(** The response at the time it is sent. *)
Record Response := {
  statusCode : Z;
  res_headers : gmap string string
}.

(** The value stored under a key. *)
Record CacheData := {
  cd_status : Z;
  cd_headers : list (string * string);
  cd_body : string;
  cd_timestamp : Z;
  cd_path : string;
  cd_method : string
}.

Record CacheStats := {
  hits : N;
  misses : N;
  sets : N;
  deletes : N;
  errors : N
}.

(** The manager: the external store (each value with the time at which it
    expires), whether it is connected and whether its next command
    succeeds, and the in-process fallback with its own expiry index. *)
Record Manager := {
  config : Config;
  isConnected : bool;
  redis_ok : bool;
  redis : gmap string (CacheData * Z);
  memoryCache : gmap string CacheData;
  memoryTTL : gmap string Z;
  cacheStats : CacheStats
}.

Definition with_redis (f : gmap string (CacheData * Z) -> gmap string (CacheData * Z))
    (m : Manager) : Manager :=
  {| config := config m; isConnected := isConnected m; redis_ok := redis_ok m;
     redis := f (redis m); memoryCache := memoryCache m; memoryTTL := memoryTTL m;
     cacheStats := cacheStats m |}.

Definition with_memory (f : gmap string CacheData -> gmap string CacheData)
    (g : gmap string Z -> gmap string Z) (m : Manager) : Manager :=
  {| config := config m; isConnected := isConnected m; redis_ok := redis_ok m;
     redis := redis m; memoryCache := f (memoryCache m); memoryTTL := g (memoryTTL m);
     cacheStats := cacheStats m |}.

Definition with_stats (f : CacheStats -> CacheStats) (m : Manager) : Manager :=
  {| config := config m; isConnected := isConnected m; redis_ok := redis_ok m;
     redis := redis m; memoryCache := memoryCache m; memoryTTL := memoryTTL m;
     cacheStats := f (cacheStats m) |}.

Definition count_hit (s : CacheStats) : CacheStats :=
  {| hits := hits s + 1; misses := misses s; sets := sets s;
     deletes := deletes s; errors := errors s |}.

Definition count_miss (s : CacheStats) : CacheStats :=
  {| hits := hits s; misses := misses s + 1; sets := sets s;
     deletes := deletes s; errors := errors s |}.

Definition count_set (s : CacheStats) : CacheStats :=
  {| hits := hits s; misses := misses s; sets := sets s + 1;
     deletes := deletes s; errors := errors s |}.

Definition count_error (s : CacheStats) : CacheStats :=
  {| hits := hits s; misses := misses s; sets := sets s;
     deletes := deletes s; errors := errors s + 1 |}.

(** [arr.includes(x)] *)
Definition includes_str (x : string) (l : list string) : bool :=
  existsb (String.eqb x) l.

Definition includes_Z (x : Z) (l : list Z) : bool :=
  existsb (Z.eqb x) l.

Definition sensitiveHeaders : list string :=
  ["authorization"; "cookie"; "x-api-key"]%string.

(** [isCacheable(req)] *)
Definition isCacheable (cfg : Config) (req : Request) : bool :=
  if negb (includes_str (method req) (cacheableMethods cfg)) then false
  else if existsb (Js.header_truthy (headers req)) sensitiveHeaders then false
  else true.

(** [generateCacheKey(req)] *)
Definition generateCacheKey (cfg : Config) (req : Request) : string :=
  let baseKey := (method req ++ ":" ++ path req)%string in
  let queryString :=
    match query req with
    | [] => EmptyString
    | _ => ("?" ++ Encoding.URLSearchParams_toString (query req))%string
    end in
  (keyPrefix cfg ++ Encoding.base64 (baseKey ++ queryString))%string.

(** [getCacheStrategy(path)] *)
Definition getCacheStrategy (cfg : Config) (path : string) : option Strategy :=
  snd <$> List.find (fun e => String.prefix (fst e) path) (strategies cfg).

Definition headersToCache : list string :=
  ["content-type"; "content-length"; "etag"; "last-modified"; "cache-control"]%string.

(** [getResponseHeaders(res)] *)
Definition getResponseHeaders (res : Response) : list (string * string) :=
  omap (fun h =>
          match res_headers res !! h with
          | Some v => if Js.truthy v then Some (h, v) else None
          | None => None
          end) headersToCache.

(** [getFromMemory(key)] *)
Definition getFromMemory (key : string) (now : Z) (m : Manager)
    : option CacheData * Manager :=
  match memoryTTL m !! key with
  | Some t =>
      if negb (t =? 0) && (t <? now)
      then (None, with_memory (delete key) (delete key) m)
      else (memoryCache m !! key, m)
  | None => (memoryCache m !! key, m)
  end.

(** [get(key)] *)
Definition get (key : string) (now : Z) (m : Manager) : option CacheData * Manager :=
  if isConnected m
  then if redis_ok m
       then match redis m !! key with
            | Some (v, expires) => if now <? expires then (Some v, m) else (None, m)
            | None => (None, m)
            end
       else (None, with_stats count_error m)
  else getFromMemory key now m.

(** [setInMemory(key, value, ttl)] *)
Definition setInMemory (key : string) (value : CacheData) (ttl : Z) (now : Z)
    (m : Manager) : Manager :=
  with_memory (insert key value) (insert key (now + ttl * 1000)) m.

(** [set(key, value, ttl = null)] *)
Definition set (key : string) (value : CacheData) (ttl : option Z) (now : Z)
    (m : Manager) : Manager :=
  let timeToLive := Js.or_default ttl (defaultTTL (config m)) in
  if isConnected m
  then if redis_ok m
       then with_redis (insert key (value, now + timeToLive * 1000)) m
       else with_stats count_error m
  else setInMemory key value timeToLive now m.

(** [cacheResponse(req, res, body, cacheKey)] *)
Definition cacheResponse (req : Request) (res : Response) (body : string)
    (cacheKey : string) (now : Z) (m : Manager) : Manager :=
  if negb (includes_Z (statusCode res) (cacheableStatusCodes (config m))) then m
  else
    let strategy := getCacheStrategy (config m) (path req) in
    let ttl := Js.or_default (strategy ≫= ttl) (defaultTTL (config m)) in
    let cacheData :=
      {| cd_status := statusCode res;
         cd_headers := getResponseHeaders res;
         cd_body := body;
         cd_timestamp := now;
         cd_path := path req;
         cd_method := method req |} in
    with_stats count_set (set cacheKey cacheData (Some ttl) now m).

(** What [middleware()] does with a request: it passes it on untouched,
    answers it from the cache, or passes it on with [res.send] and
    [res.json] replaced so that the response is offered to
    [cacheResponse] under [cacheKey]. *)
Inductive MwResult :=
| Bypass
| Hit (cacheKey : string) (cached : CacheData)
| Miss (cacheKey : string).

(** [middleware()] applied to one request. *)
Definition middleware (req : Request) (now : Z) (m : Manager) : MwResult * Manager :=
  if negb (enabled (config m)) || negb (isCacheable (config m) req) then (Bypass, m)
  else
    let cacheKey := generateCacheKey (config m) req in
    match get cacheKey now m with
    | (Some cached, m) => (Hit cacheKey cached, with_stats count_hit m)
    | (None, m) => (Miss cacheKey, with_stats count_miss m)
    end.

(** The response [res] with [body] leaves through [res.send]: it is offered
    to [cacheResponse] exactly when the middleware replaced [res.send]. *)
Definition send (mw : MwResult) (req : Request) (res : Response) (body : string)
    (now : Z) (m : Manager) : Manager :=
  match mw with
  | Miss cacheKey => cacheResponse req res body cacheKey now m
  | Bypass | Hit _ _ => m
  end.

(** A request through the cache middleware at [t0] whose response [res],
    produced downstream, is sent at [t1]. *)
Definition serve (req : Request) (res : Response) (body : string) (t0 t1 : Z)
    (m : Manager) : Manager :=
  let '(mw, m) := middleware req t0 m in
  send mw req res body t1 m.

(** The value found under [key] in the tier in use, expiry aside. *)
Definition stored (key : string) (m : Manager) : option CacheData :=
  if isConnected m then fst <$> redis m !! key else memoryCache m !! key.

Section CacheUtils.

(** [crypto.createHash('md5').update(s).digest('hex')] *)
Variable md5 : string -> string.

(** The order of [Array.prototype.sort] on strings. *)
Definition key_le (a b : string) : Prop := String.leb a b = true.

#[global] Instance key_le_dec : RelDecision key_le.
Proof. intros a b. unfold key_le. apply _. Defined.

(** [Object.keys(query).sort()] *)
Definition sorted_keys (q : list (string * string)) : list string :=
  merge_sort key_le (map fst q).

(** [query[key]] *)
Definition prop (q : list (string * string)) (key : string) : string :=
  default EmptyString (snd <$> List.find (fun e => String.eqb (fst e) key) q).

Definition relevantHeaders : list string :=
  ["accept"; "accept-language"; "accept-encoding"]%string.

(** [arr.join(sep)] *)
Fixpoint join (sep : string) (l : list string) : string :=
  match l with
  | [] => EmptyString
  | [x] => x
  | x :: l' => (x ++ sep ++ join sep l')%string
  end.

(** [CacheUtils.generateKey(prefix, method, path, query, headers)] *)
Definition generateKey (prefix method path : string)
    (query : list (string * string)) (headers : gmap string string) : string :=
  let baseKey := (method ++ ":" ++ path)%string in
  let sortedQuery := map (fun k => (k, prop query k)) (sorted_keys query) in
  let queryString :=
    match sortedQuery with
    | [] => EmptyString
    | _ => ("?" ++ Encoding.URLSearchParams_toString sortedQuery)%string
    end in
  let headerString :=
    join "|"
      (map (fun h => (h ++ ":" ++ default EmptyString (headers !! h))%string)
         (List.filter (Js.header_truthy headers) relevantHeaders)) in
  let fullKey :=
    (baseKey ++ queryString
     ++ (if Js.truthy headerString then "|" ++ headerString else EmptyString))%string in
  (prefix ++ md5 fullKey)%string.

End CacheUtils.

(** [CacheUtils.isResponseCacheable(response, headers)] *)
Definition isResponseCacheable (headers : gmap string string) : bool :=
  let cacheControl := default EmptyString (headers !! "cache-control"%string) in
  if Js.includes "no-cache" cacheControl
     || Js.includes "no-store" cacheControl
     || Js.includes "private" cacheControl
  then false
  else
    let vary := ApiGateway.lower (default EmptyString (headers !! "vary"%string)) in
    if existsb (fun h => Js.includes h vary) ["cookie"; "authorization"; "user-agent"]%string
    then false
    else true.

End Cache.


(** * Statements and sample inputs *)

(** ** Runs of the quota accountant *)

Module QuotaRuns.

Import RateLimiter.

(** A sequence of calls of [checkQuota], each at its own time, on the one
    table: every request with the result it got. *)
Fixpoint run (cfg : Config) (rs : list (Request * Z)) (quotas : gmap string Quota)
    : list (Request * option QuotaResult) :=
  match rs with
  | [] => []
  | (req, now) :: rs' =>
      let '(result, quotas') := checkQuota cfg req now quotas in
      (req, result) :: run cfg rs' quotas'
  end.

(** The quota key of a request, if it has one. *)
Definition key_of (req : Request) : option string :=
  user req ≫= quotaKey.

(** The request was counted under [k] and reported as allowed. *)
Definition allowed_under (k : string) (e : Request * option QuotaResult) : bool :=
  bool_decide (key_of (fst e) = Some k)
  && match snd e with
     | Some result => allowed result
     | None => false
     end.

Definition allowed_count (k : string) (log : list (Request * option QuotaResult)) : Z :=
  Z.of_nat (List.length (List.filter (allowed_under k) log)).

(** The window [ws] of key [k] is open in the table. *)
Definition window_open (k : string) (ws : Z) (quotas : gmap string Quota) : bool :=
  match quotas !! k with
  | Some q => negb (num_differs (windowStart q) (Finite ws))
  | None => false
  end.

(** What is left of the limit of key [k] in window [ws]. *)
Definition room (k : string) (ws : Z) (qc : QuotaConfig) (quotas : gmap string Quota) : Z :=
  match quotas !! k with
  | Some q =>
      if num_differs (windowStart q) (Finite ws) then maxRequests qc
      else limit q - requests q
  | None => maxRequests qc
  end.

End QuotaRuns.

(** ** What the rate limiter sends *)

Module QuotaDenial.

Import RateLimiter.

(** The headers the middleware adds when it lets a request pass. *)
Definition allow_headers (q : QuotaInfo) : list (string * HeaderValue) :=
  [("X-RateLimit-Limit"%string, HNum (Finite (q_limit q)));
   ("X-RateLimit-Remaining"%string, HNum (Finite (q_remaining q)));
   ("X-RateLimit-Reset"%string, HNum (q_reset q))].

Definition carries (res : Response) (hs : list (string * HeaderValue)) : Prop :=
  forall name v, (name, v) ∈ hs -> headers res !! name = Some v.

(** The response names the three headers, whatever their values. *)
Definition names_rate_limit_headers (res : Response) : Prop :=
  forall name v, (name, v) ∈ allow_headers {| q_limit := 0; q_remaining := 0;
                                             q_reset := NaN; q_window := 0 |} ->
    is_Some (headers res !! name).

(** What the specification says of a denial: a 429 that carries the
    headers of the allow path and a textual reason. *)
Definition denial_as_specified (result : QuotaResult) (out : MwResult) : Prop :=
  exists res,
    out = Sent res
    /\ statusCode res = 429
    /\ (forall q, quota result = Some q -> carries res (allow_headers q))
    /\ (exists b reason, body res = Some b /\ d_message b = Some reason).

Definition plain_response : Response :=
  {| statusCode := 200; headers := ∅; body := None |}.

(** The response as express-rate-limit decorates it for the global limit
    of 1000 requests, 3 of them used. *)
Definition decorated_response : Response :=
  {| statusCode := 200;
     headers := {[ "X-RateLimit-Limit"%string := HNum (Finite 1000);
                   "X-RateLimit-Remaining"%string := HNum (Finite 997);
                   "X-RateLimit-Reset"%string := HNum (Finite 1700000900) ]};
     body := None |}.

Definition alice : User :=
  {| id := "42"; authMethod := "jwt"; apiKey := None |}.

Definition alice_request : Request :=
  {| user := Some alice; requestId := "r-1" |}.

(** A time in the window that starts at 1 699 999 200 000. *)
Definition denial_time : Z := 1699999260000.

(** The bucket of alice with the 500 requests of the default limit used. *)
Definition exhausted : gmap string Quota :=
  {[ "user:42"%string :=
       {| requests := 500; windowStart := Finite 1699999200000;
          resetTime := Finite 1700000100000; limit := 500 |} ]}.

End QuotaDenial.

(** ** Sample inputs *)

Module Samples.

Import CircuitBreaker.

(** A clock that starts at 1 000 000 ms and advances 10 ms per reading. *)
Definition sample_clock (k : nat) : Z := 1000000 + 10 * Z.of_nat k.

Definition sample_circuit_config : CircuitConfig :=
  {| c_timeout := 5000; c_errorThreshold := 50; c_errorCount := 3;
     c_resetTimeout := 1000; c_halfOpenRequests := 3 |}.

Definition sample_config : Config :=
  {| enabled := true; timeout := 5000; errorThreshold := 50; errorCount := 3;
     resetTimeout := 1000; halfOpenRequests := 3; monitoringWindow := 10000;
     services := ∅ |}.

Definition circuit_in (st : State) (f s : N) (changed : Z) : Circuit :=
  {| state := st; failures := f; successes := s; lastFailureTime := None;
     lastStateChange := changed; probes := 0; config := sample_circuit_config |}.

Definition breaker_with (c : Circuit) : Breaker :=
  {| cfg := sample_config;
     circuits := {[ "users"%string := c ]};
     stats := {[ "users"%string := new_stats ]};
     reads := 0 |}.

Definition users_request : Request :=
  {| path := "/api/users/42"; headers := ∅; requestId := "r-1" |}.

(** The constructor's argument with [halfOpenRequests: 0] and nothing else. *)
Definition zero_half_open : RawConfig :=
  {| raw_enabled := None; raw_timeout := None; raw_errorThreshold := None;
     raw_errorCount := None; raw_resetTimeout := None;
     raw_halfOpenRequests := Some 0; raw_monitoringWindow := None;
     raw_services := None |}.

(** The configuration is refused when the breaker is built. *)
Definition rejected_at_load (raw : RawConfig) : Prop :=
  exists e, constructor raw = Throw e.

End Samples.

Module Scenarios.

Import CircuitBreaker Samples.

(** S3: [errorCount = 3], [errorThreshold = 50], [resetTimeout = 1000]. *)
Definition s3_config : RawConfig :=
  {| raw_enabled := None; raw_timeout := None; raw_errorThreshold := Some 50%Q;
     raw_errorCount := Some 3; raw_resetTimeout := Some 1000;
     raw_halfOpenRequests := None; raw_monitoringWindow := None;
     raw_services := None |}.

(** The breaker after the calls [outs] were made through [execute], one
    after the other, starting from [b]. *)
Fixpoint after_calls (clock : nat -> Z) (svc : string) (outs : list (FnOutcome unit))
    (b : Breaker) : Breaker :=
  match outs with
  | [] => b
  | out :: outs' => after_calls clock svc outs' (snd (execute clock svc out None b))
  end.

(** The breaker built from [raw], as it is after [outs]. *)
Definition built_then (clock : nat -> Z) (raw : RawConfig) (svc : string)
    (outs : list (FnOutcome unit)) : option Breaker :=
  match constructor raw with
  | Ok b => Some (after_calls clock svc outs b)
  | Throw _ => None
  end.

(** 10 ms per reading for the first eleven readings, then a pause of 2 s. *)
Definition s3_clock (k : nat) : Z :=
  if (k <? 11)%nat then 1000000 + 10 * Z.of_nat k else 1002000 + 10 * Z.of_nat k.

Definition state_of (svc : string) (b : option Breaker) : option State :=
  b ≫= fun b => state <$> circuits b !! svc.

(** The breaker of S3 after the three failures, a request that is turned
    away and, after the pause, one that is let through. *)
Definition s3_after_pause : option Breaker :=
  (fun b => snd (middleware s3_clock users_request
              (snd (middleware s3_clock users_request b))))
    <$> built_then s3_clock s3_config "users" [Rejects "500"; Rejects "500"; Rejects "500"].

End Scenarios.

Module GatewaySamples.

Import ApiGateway.

Definition both_enabled : Config :=
  {| rateLimit_enabled := true; documentation_enabled := true |}.

Definition get_user_42 : RequestLine :=
  {| method := "GET"; path := "/api/users/42" |}.

Definition bob : RateLimiter.User :=
  {| RateLimiter.id := "7"; RateLimiter.authMethod := "jwt";
     RateLimiter.apiKey := None |}.

(** Every stage calls [next()], [authenticate()] after setting [req.user];
    the router proxies the request and answers it. *)
Definition proxying (s : Stage) (c : Ctx unit) : Outcome unit :=
  match s with
  | RouterMw => Stop
  | Authenticate => Continue {| user := Some bob; props := props c |}
  | _ => Continue c
  end.

Definition anonymous : Ctx unit := {| user := None; props := tt |}.

End GatewaySamples.

Module QuotaSamples.

Import RateLimiter.

(** S4 of the specification, on the per-user quota: two requests per
    minute. *)
Definition two_per_minute : Config :=
  {| enabled := true;
     global := global default_config;
     perUser := {| windowMs := 60000; maxRequests := 2 |};
     perApiKey := perApiKey default_config |}.

(** Three requests of alice within the minute that starts at 1 699 999 980 000. *)
Definition three_in_a_minute : list (Request * Z) :=
  [(QuotaDenial.alice_request, 1699999981000);
   (QuotaDenial.alice_request, 1699999982000);
   (QuotaDenial.alice_request, 1699999983000)].

End QuotaSamples.

Module CacheSamples.

Import Cache.

Definition get_ab : Request :=
  {| method := "GET"; path := "/api/users";
     query := [("a", "1"); ("b", "2")]%string;
     headers := {[ "accept"%string := "application/json"%string ]};
     requestId := "r-1" |}.

Definition get_ba : Request :=
  {| method := "GET"; path := "/api/users";
     query := [("b", "2"); ("a", "1")]%string;
     headers := {[ "accept"%string := "application/json"%string ]};
     requestId := "r-2" |}.

Definition get_products : Request :=
  {| method := "GET"; path := "/api/products";
     query := [];
     headers := {[ "accept"%string := "application/json"%string ]};
     requestId := "r-3" |}.

Definition no_store_response : Response :=
  {| statusCode := 200;
     res_headers := {[ "content-type"%string := "application/json"%string;
                       "cache-control"%string := "no-store"%string ]} |}.

(** A manager with the default configuration, the external store not
    connected and nothing cached. *)
Definition empty_manager : Manager :=
  {| config := default_config;
     isConnected := false;
     redis_ok := false;
     redis := ∅;
     memoryCache := ∅;
     memoryTTL := ∅;
     cacheStats := {| hits := 0; misses := 0; sets := 0; deletes := 0; errors := 0 |} |}.

End CacheSamples.


(** * Further parts of the gateway *)

(** ** src/circuit-breaker/circuitBreaker.js: status, reset, sequences of calls *)

Module BreakerOps.

Import CircuitBreaker.

Local Open Scope cb_scope.



(** [reset(serviceName)] *)
Definition reset (serviceName : string) : M unit :=
  let* known := gets (fun b => circuits b !! serviceName) in
  match known with
  | Some _ =>
      modify (set_circuits (delete serviceName)) ;;
      modify (set_stats (delete serviceName))
  | None => ret tt
  end.

(** [cleanup()] *)
Definition cleanup : M unit :=
  modify (set_circuits (fun _ => ∅)) ;;
  modify (set_stats (fun _ => ∅)).

(** A call made on the breaker object from outside. *)
Inductive Call :=
| CallMiddleware (req : Request)
| CallExecute (serviceName : string) (fn : FnOutcome unit) (fallback : option unit)
| CallRecordSuccess (serviceName : string)
| CallRecordFailure (serviceName : string) (message : string)
| CallGetCircuit (serviceName : string)
| CallReset (serviceName : string)
| CallCleanup.

(** The call goes through [middleware] or [execute], or resets. *)
Definition through_the_gate (c : Call) : bool :=
  match c with
  | CallMiddleware _ | CallExecute _ _ _ | CallGetCircuit _ | CallReset _
  | CallCleanup => true
  | CallRecordSuccess _ | CallRecordFailure _ _ => false
  end.

Section WithClock.

Variable clock : nat -> Z.

(** The call, its result dropped. *)
Definition perform (c : Call) : M unit :=
  match c with
  | CallMiddleware req => middleware clock req ;; ret tt
  | CallExecute serviceName fn fallback => execute clock serviceName fn fallback
  | CallRecordSuccess serviceName => recordSuccess clock serviceName
  | CallRecordFailure serviceName message => recordFailure clock serviceName message
  | CallGetCircuit serviceName => getCircuit clock serviceName ;; ret tt
  | CallReset serviceName => reset serviceName
  | CallCleanup => cleanup
  end.

(** The calls one after the other, an exception of one not keeping the
    next from being made: how each ended, and the breaker at the end. *)
Fixpoint perform_all (cs : list Call) (b : Breaker) : list (Outcome unit) * Breaker :=
  match cs with
  | [] => ([], b)
  | c :: cs' =>
      let '(o, b') := perform c b in
      let '(os, b'') := perform_all cs' b' in
      (o :: os, b'')
  end.

(** The requests one after the other through [middleware]. *)
Fixpoint serve_all (reqs : list Request) (b : Breaker) : list (Outcome MwResult) * Breaker :=
  match reqs with
  | [] => ([], b)
  | req :: reqs' =>
      let '(o, b') := middleware clock req b in
      let '(os, b'') := serve_all reqs' b' in
      (o :: os, b'')
  end.

End WithClock.

(** The request was passed on. *)
Definition passed_on (o : Outcome MwResult) : Prop := exists ctx, o = Ok (Next ctx).

(** [m], started in a state that satisfies [P], ends in a state that
    satisfies [Q] when it returns and [E] when it throws. *)
Definition triple {A} (P : Breaker -> Prop) (m : M A)
    (Q : A -> Breaker -> Prop) (E : Error -> Breaker -> Prop) : Prop :=
  forall b, P b ->
    match m b with
    | (Ok a, b') => Q a b'
    | (Throw e, b') => E e b'
    end.

(** Every circuit has its statistics and the other way round. *)
Definition paired (b : Breaker) : Prop :=
  dom (circuits b) = dom (stats b).


Section Invariants.

(** A property [J d] of the statistics of a service, [d] telling how far
    a call in progress has got. *)
Variable J : Z -> Stats -> Prop.

(** The tables are paired and every service satisfies [J 0]. *)
Definition Inv0 (b : Breaker) : Prop :=
  paired b /\ forall svc s, stats b !! svc = Some s -> J 0 s.

(** The same with a call in progress on [svc], which has a circuit. *)
Definition Inv (svc : string) (d : Z) (b : Breaker) : Prop :=
  paired b
  /\ is_Some (circuits b !! svc)
  /\ forall svc' s, stats b !! svc' = Some s ->
       J (if decide (svc' = svc) then d else 0) s.

(** What [execute] may throw: the upstream's error or the breaker's own. *)
Definition thrown (e : Error) (b : Breaker) : Prop := e <> TypeError /\ Inv0 b.

End Invariants.

(** The call did not end in a TypeError. *)
Definition sound_outcome (o : Outcome unit) : Prop := o <> Throw TypeError.

(** Every circuit is CLOSED. *)
Definition all_closed (b : Breaker) : Prop :=
  forall svc c, circuits b !! svc = Some c -> state c = CLOSED.

(** The message of the error [execute] catches when the call fails. *)
Definition failure_of {V} (fn : FnOutcome V) : option string :=
  match fn with
  | Resolves _ => None
  | Rejects m => Some m
  | StillPending => Some "Circuit breaker timeout"%string
  end.

Definition N_of_bool (x : bool) : N := if x then 1%N else 0%N.


End BreakerOps.

(** ** src/middleware/rateLimiter.js: the window parser in detail *)

Module LimiterOps.

Import RateLimiter.

(** The longest run of the letter d at the head of [s], and the rest. *)
Fixpoint span_d (s : string) : string * string :=
  match s with
  | String "d" s' => let '(ds, rest) := span_d s' in (String "d" ds, rest)
  | _ => (EmptyString, s)
  end.

Definition is_unit (a : ascii) : bool :=
  (Ascii.eqb a "s" || Ascii.eqb a "m" || Ascii.eqb a "h" || Ascii.eqb a "d")%bool.

(** A match of [/(\\d+)([smhd]?)/] that starts at the head of [s]: a
    backslash, one or more letters d, and a unit letter if one follows;
    the two groups. *)
Definition match_here (s : string) : option (string * string) :=
  match s with
  | String "\" s' =>
      match span_d s' with
      | (EmptyString, _) => None
      | (ds, rest) =>
          Some (String "\" ds,
                match rest with
                | String a _ => if is_unit a then String a EmptyString else EmptyString
                | EmptyString => EmptyString
                end)
      end
  | _ => None
  end.

(** [window.match(/(\\d+)([smhd]?)/)]: the leftmost match. *)
Fixpoint regex_match (s : string) : option (string * string) :=
  match match_here s with
  | Some groups => Some groups
  | None =>
      match s with
      | EmptyString => None
      | String _ s' => regex_match s'
      end
  end.

Definition is_space (a : ascii) : bool :=
  (Ascii.eqb a " " || (9 <=? Z.of_nat (nat_of_ascii a)) && (Z.of_nat (nat_of_ascii a) <=? 13))%bool.

Definition digit_of (a : ascii) : option Z :=
  let n := Z.of_nat (nat_of_ascii a) in
  if (48 <=? n) && (n <=? 57) then Some (n - 48) else None.

Fixpoint skip_spaces (s : string) : string :=
  match s with
  | String a s' => if is_space a then skip_spaces s' else s
  | EmptyString => s
  end.

(** The value of the digits at the head of [s], continuing [acc]. *)
Fixpoint digits_value (acc : Z) (s : string) : Z :=
  match s with
  | String a s' =>
      match digit_of a with
      | Some d => digits_value (acc * 10 + d) s'
      | None => acc
      end
  | EmptyString => acc
  end.

Definition starts_with_digit (s : string) : bool :=
  match s with
  | String a _ => bool_decide (is_Some (digit_of a))
  | EmptyString => false
  end.

(** [parseInt(s)] in base 10 (a "0x" prefix does not occur here): leading
    white space, a sign, then digits; NaN when there is no digit. *)
Definition parseInt (s : string) : Num :=
  let s := skip_spaces s in
  let '(sign, s) :=
    match s with
    | String "-" s' => (-1, s')
    | String "+" s' => (1, s')
    | _ => (1, s)
    end in
  if starts_with_digit s then Finite (sign * digits_value 0 s) else NaN.

Definition unit_factor (unit : string) : Z :=
  match unit with
  | String "s" EmptyString => 1000
  | String "m" EmptyString => 60 * 1000
  | String "h" EmptyString => 60 * 60 * 1000
  | String "d" EmptyString => 24 * 60 * 60 * 1000
  | _ => 1000
  end.

(** [parseTimeWindow(window)], statement by statement. *)
Definition parseTimeWindow_steps (window : JsWindow) : Parsed :=
  match window with
  | WNumber n => PNumber n
  | WOther => PNull
  | WString s =>
      match regex_match s with
      | None => PNull
      | Some (digits, unit) =>
          match parseInt digits with
          | Finite value => PNumber (value * unit_factor unit)
          | NaN => PNaN
          end
      end
  end.

(** An API key with the limits [rl]. *)
Definition api_user (name : string) (k : string) (rl : KeyRateLimit) : User :=
  {| id := name; authMethod := "apikey";
     apiKey := Some {| key := k; rateLimit := Some rl |} |}.

(** The request is counted under [k]. *)
Definition counted_under (k : string) (req : Request) : bool :=
  bool_decide (QuotaRuns.key_of req = Some k).

(** The requests the bucket of [k] has counted in the window [ws]. *)
Definition used (k : string) (ws : Z) (quotas : gmap string Quota) : Z :=
  match quotas !! k with
  | Some q => if num_differs (windowStart q) (Finite ws) then 0 else requests q
  | None => 0
  end.

(** The open bucket of [k], if any, has the limit of [qc]. *)
Definition limit_of (k : string) (ws : Z) (qc : QuotaConfig)
    (quotas : gmap string Quota) : Prop :=
  forall q, quotas !! k = Some q -> num_differs (windowStart q) (Finite ws) = false ->
    limit q = maxRequests qc.

End LimiterOps.

(** ** src/cache/cacheManager.js: invalidation and expiry *)

Module CacheOps.

Import Cache.

(** [key.includes(pattern)] fails. *)
Definition spared (pattern : string) (key : string) : bool :=
  negb (Js.includes pattern key).

(** [invalidate(pattern)].  With the external store the candidates are
    the keys that start with [keyPrefix] (a prefix without the wildcard
    characters of the store's patterns); in the fallback the keys of
    [memoryCache] are walked and each match is deleted from both maps.  An
    error of the store is logged and nothing else. *)
Definition invalidate (pattern : string) (m : Manager) : Manager :=
  if isConnected m
  then if redis_ok m
       then with_redis
              (filter (fun kv => String.prefix (keyPrefix (config m)) kv.1
                                 && negb (spared pattern kv.1) = false)) m
       else m
  else with_memory
         (filter (fun kv => spared pattern kv.1 = true))
         (filter (fun kv => negb (spared pattern kv.1)
                            && bool_decide (is_Some (memoryCache m !! kv.1)) = false))
         m.

(** [now > expiry] for the entry of [key] in [memoryTTL]. *)
Definition overdue (now : Z) (m : Manager) (key : string) : bool :=
  match memoryTTL m !! key with
  | Some expiry => expiry <? now
  | None => false
  end.

(** One run of the timer of [startMemoryCacheCleanup] at time [now]:
    every entry of [memoryTTL] with [now > expiry] is deleted from both
    maps. *)
Definition sweep (now : Z) (m : Manager) : Manager :=
  with_memory
    (filter (fun kv => overdue now m kv.1 = false))
    (filter (fun kv => (kv.2 <? now) = false))
    m.

(** The request as [handleInvalidation] reads it. *)
Definition handleInvalidation (req : Request) (m : Manager) : Manager :=
  match getCacheStrategy (config m) (path req) with
  | Some strategy =>
      if includes_str (method req) (invalidateOn strategy)
      then invalidate (path req) m
      else m
  | None => m
  end.

(** The time to live [cacheResponse] gives the responses to [path]. *)
Definition ttl_for (cfg : Config) (path : string) : Z :=
  Js.or_default (getCacheStrategy cfg path ≫= ttl) (defaultTTL cfg).

(** The entry [cacheResponse] writes for the response. *)
Definition entry_of (req : Request) (res : Response) (body : string) (now : Z)
    : CacheData :=
  {| cd_status := statusCode res;
     cd_headers := getResponseHeaders res;
     cd_body := body;
     cd_timestamp := now;
     cd_path := path req;
     cd_method := method req |}.

(** Every character of [s] is in the ASCII range. *)
Definition ascii_text (s : string) : Prop :=
  Forall (fun a => (nat_of_ascii a < 128)%nat) (list_ascii_of_string s).

(** The character [a] does not occur in [s]. *)
Fixpoint lacks (a : ascii) (s : string) : bool :=
  match s with
  | EmptyString => true
  | String b s' => negb (Ascii.eqb a b) && lacks a s'
  end.

(** The characters a group of four base64 digits can have at each place
    when the three bytes it encodes are below 128. *)
Definition digit_among (indices : list nat) (a : ascii) : bool :=
  existsb (fun i => Ascii.eqb (Encoding.base64_digit i) a) indices.

Definition first_digit (a : ascii) : bool :=
  digit_among (seq 0 32) a.

Definition second_digit (a : ascii) : bool :=
  digit_among (List.filter (fun i => i mod 16 <? 8)%nat (seq 0 64)) a.

Definition third_digit (a : ascii) : bool :=
  digit_among (List.filter (fun i => i mod 4 <? 2)%nat (seq 0 64)) a || Ascii.eqb a "=".

(** Text made of such groups. *)
Inductive grouped : string -> Prop :=
| grouped_nil : grouped EmptyString
| grouped_cons a b c d s :
    first_digit a = true -> second_digit b = true -> third_digit c = true ->
    grouped s ->
    grouped (String a (String b (String c (String d s)))).

End CacheOps.

(** ** src/auth/authManager.js *)

Module Auth.

(** [this.config], the parts the middleware reads. *)
Record Config := {
  apiKeyHeader : string;
  enableApiKeys : bool;
  enableJWT : bool;
  enableBasicAuth : bool
}.

(** The compiled defaults of the constructor. *)
Definition default_config : Config :=
  {| apiKeyHeader := "x-api-key"; enableApiKeys := true; enableJWT := true;
     enableBasicAuth := false |}.

(** An entry of [this.users]. *)
Record UserRecord := {
  id : string;
  username : string;
  password : string;
  role : string;
  permissions : list string;
  lastLogin : option Z;
  isActive : bool
}.

(** An entry of [this.apiKeys]. *)
Record KeyData := {
  key : string;
  userId : string;
  k_permissions : list string;
  lastUsed : option Z;
  k_isActive : bool;
  usage_requests : N
}.

(** [req.user]: the user's record without the password, with the fields
    the method adds or replaces. *)
Record Principal := {
  record : UserRecord;
  authMethod : string;
  apiKey : option KeyData;
  p_permissions : list string;
  token : option string
}.

(** The stores; [users] in the insertion order of the Map. *)
Record Store := {
  users : list (string * UserRecord);
  apiKeys : gmap string KeyData;
  blacklistedTokens : gset string
}.

(** [this.users.get(id)] *)
Definition users_get (st : Store) (uid : string) : option UserRecord :=
  snd <$> List.find (fun e => String.eqb (fst e) uid) (users st).

(** An assignment to a field of a user's record. *)
Definition users_update (uid : string) (f : UserRecord -> UserRecord) (st : Store) : Store :=
  {| users := map (fun e => if String.eqb (fst e) uid then (fst e, f (snd e)) else e)
                (users st);
     apiKeys := apiKeys st;
     blacklistedTokens := blacklistedTokens st |}.

Definition with_apiKeys (f : gmap string KeyData -> gmap string KeyData) (st : Store) : Store :=
  {| users := users st; apiKeys := f (apiKeys st);
     blacklistedTokens := blacklistedTokens st |}.

(** [{...user, password: undefined}] *)
Definition without_password (u : UserRecord) : UserRecord :=
  {| id := id u; username := username u; password := EmptyString; role := role u;
     permissions := permissions u; lastLogin := lastLogin u; isActive := isActive u |}.

Definition set_lastLogin (now : Z) (u : UserRecord) : UserRecord :=
  {| id := id u; username := username u; password := password u; role := role u;
     permissions := permissions u; lastLogin := Some now; isActive := isActive u |}.

Definition note_use (now : Z) (k : KeyData) : KeyData :=
  {| key := key k; userId := userId k; k_permissions := k_permissions k;
     lastUsed := Some now; k_isActive := k_isActive k;
     usage_requests := usage_requests k + 1 |}.

Definition deactivate (k : KeyData) : KeyData :=
  {| key := key k; userId := userId k; k_permissions := k_permissions k;
     lastUsed := lastUsed k; k_isActive := false;
     usage_requests := usage_requests k |}.

(** What one of the three methods comes to: [null], a principal, or an
    exception. *)
Inductive Tried :=
| Absent
| Found (p : Principal)
| Failed (message : string).

(** [headers[name]] when it is truthy. *)
Definition header (hs : gmap string string) (name : string) : option string :=
  match hs !! name with
  | Some v => if Js.truthy v then Some v else None
  | None => None
  end.

(** [s.substring(n)] *)
Fixpoint substring_from (n : nat) (s : string) : string :=
  match n, s with
  | O, _ => s
  | S n', String _ s' => substring_from n' s'
  | S _, EmptyString => EmptyString
  end.

Section WithLibraries.

(** [jwt.verify(token, secret)]: the [userId] of the payload, or the
    message of the error the method rethrows. *)
Variable jwt_verify : string -> string + string.

(** [Buffer.from(s, 'base64').toString()] *)
Variable base64_decode : string -> string.

(** [bcrypt.compare(password, hash)] *)
Variable bcrypt_compare : string -> string -> bool.

(** [authenticateApiKey(req)] at time [now] *)
Definition authenticateApiKey (cfg : Config) (hs : gmap string string) (now : Z)
    (st : Store) : Tried * Store :=
  match header hs (apiKeyHeader cfg) with
  | None => (Absent, st)
  | Some apiKey =>
      match apiKeys st !! apiKey with
      | None => (Failed "Invalid API key", st)
      | Some keyData =>
          if negb (k_isActive keyData) then (Failed "Invalid API key", st)
          else
            let st := with_apiKeys (<[apiKey := note_use now keyData]>) st in
            match users_get st (userId keyData) with
            | None => (Failed "Associated user not found or inactive", st)
            | Some user =>
                if negb (isActive user)
                then (Failed "Associated user not found or inactive", st)
                else (Found {| record := without_password user; authMethod := "apikey";
                               apiKey := Some (note_use now keyData);
                               p_permissions := k_permissions keyData;
                               token := None |}, st)
            end
      end
  end.

(** [authenticateJWT(req)] at time [now] *)
Definition authenticateJWT (hs : gmap string string) (now : Z) (st : Store)
    : Tried * Store :=
  match header hs "authorization" with
  | None => (Absent, st)
  | Some authHeader =>
      if negb (String.prefix "Bearer " authHeader) then (Absent, st)
      else
        let tok := substring_from 7 authHeader in
        if bool_decide (tok ∈ blacklistedTokens st)
        then (Failed "Token has been blacklisted", st)
        else
          match jwt_verify tok with
          | inr message => (Failed message, st)
          | inl uid =>
              match users_get st uid with
              | None => (Failed "User not found or inactive", st)
              | Some user =>
                  if negb (isActive user) then (Failed "User not found or inactive", st)
                  else (Found {| record := without_password (set_lastLogin now user);
                                 authMethod := "jwt";
                                 apiKey := None;
                                 p_permissions := permissions user;
                                 token := Some tok |},
                        users_update uid (set_lastLogin now) st)
              end
          end
  end.

(** [credentials.split(':')], the first two parts; a missing second part
    is [undefined]. *)
Definition credentials_of (s : string) : string * option string :=
  match Js.split ":" s with
  | u :: p :: _ => (u, Some p)
  | u :: [] => (u, None)
  | [] => (EmptyString, None)
  end.

(** [authenticateBasic(req)] at time [now] *)
Definition authenticateBasic (hs : gmap string string) (now : Z) (st : Store)
    : Tried * Store :=
  match header hs "authorization" with
  | None => (Absent, st)
  | Some authHeader =>
      if negb (String.prefix "Basic " authHeader) then (Absent, st)
      else
        let '(name, pass) := credentials_of (base64_decode (substring_from 6 authHeader)) in
        match List.find (fun e => String.eqb (username (snd e)) name) (users st) with
        | None => (Failed "User not found or inactive", st)
        | Some (uid, user) =>
            if negb (isActive user) then (Failed "User not found or inactive", st)
            else
              match pass with
              | None => (Failed "Illegal arguments", st)
              | Some pass =>
                  if negb (bcrypt_compare pass (password user))
                  then (Failed "Invalid password", st)
                  else (Found {| record := without_password (set_lastLogin now user);
                                 authMethod := "basic";
                                 apiKey := None;
                                 p_permissions := permissions user;
                                 token := None |},
                        users_update uid (set_lastLogin now) st)
              end
        end
  end.

(** What the middleware does: it sets [req.user] and calls [next()], or
    answers with the status. *)
Inductive Verdict :=
| Accepted (p : Principal)
| Rejected (status : Z) (error : string).

(** [authenticate()] applied to one request at time [now]. *)
Definition authenticate (cfg : Config) (hs : gmap string string) (now : Z) (st : Store)
    : Verdict * Store :=
  let finish (t : Tried) (st : Store) (otherwise : Store -> Verdict * Store) :=
    match t with
    | Found p => (Accepted p, st)
    | Failed _ => (Rejected 401 "Authentication Error", st)
    | Absent => otherwise st
    end in
  let unauthorized st := (Rejected 401 "Unauthorized", st) in
  let basic st :=
    if enableBasicAuth cfg
    then let '(t, st) := authenticateBasic hs now st in finish t st unauthorized
    else unauthorized st in
  let jwt st :=
    if enableJWT cfg
    then let '(t, st) := authenticateJWT hs now st in finish t st basic
    else basic st in
  if enableApiKeys cfg
  then let '(t, st) := authenticateApiKey cfg hs now st in finish t st jwt
  else jwt st.

End WithLibraries.

(** What the authorization middleware does. *)
Inductive Grant :=
| Granted
| Denied (status : Z).

(** [authorize(requiredPermissions)] applied to a request whose
    [req.user] has the permissions [perms], if it has a user. *)
Definition authorize (requiredPermissions : list string)
    (perms : option (list string)) : Grant :=
  match perms with
  | None => Denied 401
  | Some userPermissions =>
      if forallb (fun permission =>
                    Cache.includes_str permission userPermissions
                    || Cache.includes_str "admin" userPermissions)
           requiredPermissions
      then Granted
      else Denied 403
  end.

(** [requireAdmin()] *)
Definition requireAdmin : option (list string) -> Grant := authorize ["admin"%string].

(** [revokeApiKey(key)] *)
Definition revokeApiKey (k : string) (st : Store) : bool * Store :=
  match apiKeys st !! k with
  | Some keyData => (true, with_apiKeys (<[k := deactivate keyData]>) st)
  | None => (false, st)
  end.

(** [blacklistToken(token)] *)
Definition blacklistToken (tok : string) (st : Store) : Store :=
  {| users := users st; apiKeys := apiKeys st;
     blacklistedTokens := {[ tok ]} ∪ blacklistedTokens st |}.

End Auth.

(** ** src/apiGateway.js: what the handlers of the stack do *)

Module GatewayOps.

Import ApiGateway.

Definition Mount_eq_dec (a b : Mount) : {a = b} + {a <> b}.
Proof. decide equality; apply (decide (_ = _)). Defined.

Definition Mount_eqb (a b : Mount) : bool :=
  if Mount_eq_dec a b then true else false.

Definition has_stage (s : Stage) (ls : list Layer) : bool :=
  existsb (fun l => Stage_eqb (stage l) s) ls.

Section Wiring.

Context {Props : Type}.

(** The permissions of [req.user]. *)
Variable perms : RateLimiter.User -> list string.

(** The handlers of the stack with [requireAdmin()] and the catch-all as
    the source has them: the first answers 401 or 403 unless
    [authorize(['admin'])] grants the request, and then calls [next()]
    with the request as it is; the second answers 404 in every case. *)
Definition wired (h : Stage -> Ctx Props -> Outcome Props)
    (s : Stage) (c : Ctx Props) : Outcome Props :=
  match s with
  | RequireAdmin =>
      match Auth.requireAdmin (perms <$> user c) with
      | Auth.Granted => Continue c
      | Auth.Denied _ => Stop
      end
  | NotFound => Stop
  | _ => h s c
  end.

(** The request object after the layers [ls], when all that matched
    called [next()]. *)
Fixpoint through (h : Stage -> Ctx Props -> Outcome Props) (r : RequestLine)
    (ls : list Layer) (ctx : Ctx Props) : option (Ctx Props) :=
  match ls with
  | [] => Some ctx
  | l :: ls' =>
      if matches (mount l) r
      then match h (stage l) ctx with
           | Continue ctx' => through h r ls' ctx'
           | Stop => None
           end
      else through h r ls' ctx
  end.

End Wiring.

(** Every layer of [x] in [ls] comes right after a layer of
    [requireAdmin()] on the same mount point, and none comes after
    [authenticate()]. *)
Fixpoint guardedb (x : Stage) (ls : list Layer) : bool :=
  match ls with
  | [] => true
  | l :: ls' =>
      if Stage_eqb (stage l) x then false
      else if Stage_eqb (stage l) Authenticate then negb (has_stage x ls')
      else if Stage_eqb (stage l) RequireAdmin then
        match ls' with
        | l2 :: ls'' =>
            if Stage_eqb (stage l2) x
            then Mount_eqb (mount l) (mount l2) && guardedb x ls''
            else guardedb x ls'
        | [] => true
        end
      else guardedb x ls'
  end.

(** No layer of [s] is at or after the first layer of [b]. *)
Fixpoint never_after (b s : Stage) (ls : list Layer) : bool :=
  match ls with
  | [] => true
  | l :: ls' =>
      if Stage_eqb (stage l) b then negb (has_stage s (l :: ls'))
      else never_after b s ls'
  end.

(** A catch-all layer comes before every layer of [x]. *)
Fixpoint cut_off (x : Stage) (ls : list Layer) : bool :=
  match ls with
  | [] => true
  | l :: ls' =>
      if Stage_eqb (stage l) x then false
      else if Stage_eqb (stage l) NotFound && Mount_eqb (mount l) Everywhere then true
      else cut_off x ls'
  end.

(** The stack has a catch-all layer. *)
Definition catch_all (ls : list Layer) : bool :=
  existsb (fun l => Stage_eqb (stage l) NotFound && Mount_eqb (mount l) Everywhere) ls.

(** The stages between [authenticate()] and the router. *)
Definition behind_authenticate : list Stage :=
  [CacheLookup; CacheInvalidation; CircuitBreakerGate].

(** After a layer of [authenticate()] on [m]: the router is on [m] too
    and only the stages of [behind_authenticate] come before it. *)
Fixpoint router_behind (m : Mount) (ls : list Layer) : bool :=
  match ls with
  | [] => true
  | l :: ls' =>
      if Stage_eqb (stage l) RouterMw
      then Mount_eqb (mount l) m && negb (has_stage RouterMw ls')
      else existsb (Stage_eqb (stage l)) behind_authenticate && router_behind m ls'
  end.

(** The only layer of the router comes after the layer of
    [authenticate()], on its mount point. *)
Fixpoint router_guarded (ls : list Layer) : bool :=
  match ls with
  | [] => true
  | l :: ls' =>
      if Stage_eqb (stage l) RouterMw then false
      else if Stage_eqb (stage l) Authenticate then router_behind (mount l) ls'
      else router_guarded ls'
  end.

(** The handlers behind [requireAdmin()]. *)
Definition admin_handlers : list Stage :=
  [MetricsHandler; ServicesHandler; RoutesHandler; CacheAdminRoutes].

End GatewayOps.

(** ** src/routing/router.js: the registry, instance selection, health *)

Module Router.

(** An entry of [service.instances]; [port] as the template literals
    print it. *)
Record Instance := {
  host : string;
  port : string;
  weight : option Z
}.

(** [`${instance.host}:${instance.port}`] *)
Definition instanceKey (i : Instance) : string :=
  (host i ++ ":" ++ port i)%string.

(** An entry of [this.serviceHealth]. *)
Record Health := {
  isHealthy : bool;
  lastCheck : option Z;
  consecutiveFailures : N
}.

(** The fields of a service that routing and selection read. *)
Record Service := {
  name : string;
  instances : list Instance;
  pathPrefix : string;
  loadBalancing : string
}.

(** The router: [routes] in the insertion order of the Map. *)
Record State := {
  routes : list (string * Service);
  roundRobinIndex : gmap string N;
  connectionCounts : gmap string N;
  serviceHealth : gmap string Health
}.

Definition with_routes (f : list (string * Service) -> list (string * Service))
    (st : State) : State :=
  {| routes := f (routes st); roundRobinIndex := roundRobinIndex st;
     connectionCounts := connectionCounts st; serviceHealth := serviceHealth st |}.

Definition with_index (f : gmap string N -> gmap string N) (st : State) : State :=
  {| routes := routes st; roundRobinIndex := f (roundRobinIndex st);
     connectionCounts := connectionCounts st; serviceHealth := serviceHealth st |}.

Definition with_connections (f : gmap string N -> gmap string N) (st : State) : State :=
  {| routes := routes st; roundRobinIndex := roundRobinIndex st;
     connectionCounts := f (connectionCounts st); serviceHealth := serviceHealth st |}.

Definition with_health (f : gmap string Health -> gmap string Health) (st : State) : State :=
  {| routes := routes st; roundRobinIndex := roundRobinIndex st;
     connectionCounts := connectionCounts st; serviceHealth := f (serviceHealth st) |}.

(** [map.set(key, value)] on a Map kept in insertion order. *)
Fixpoint map_set {A} (key : string) (value : A) (m : list (string * A))
    : list (string * A) :=
  match m with
  | [] => [(key, value)]
  | (k, v) :: m' =>
      if String.eqb k key then (k, value) :: m' else (k, v) :: map_set key value m'
  end.

(** [s.endsWith('*')] *)
Fixpoint ends_with_star (s : string) : bool :=
  match s with
  | EmptyString => false
  | String a EmptyString => Ascii.eqb a "*"
  | String _ s' => ends_with_star s'
  end.

(** [s.replace('/*', '')]: the first occurrence is removed. *)
Fixpoint remove_slash_star (s : string) : string :=
  match s with
  | String "/" (String "*" s') => s'
  | String a s' => String a (remove_slash_star s')
  | EmptyString => EmptyString
  end.

Definition fresh_health : Health :=
  {| isHealthy := true; lastCheck := None; consecutiveFailures := 0 |}.

(** [registerService(name, serviceConfig)], as far as selection and
    routing read it, [service] being the object the method builds from
    [serviceConfig] and the defaults: the index of the service starts at
    0, every instance is healthy, and the route is set. *)
Definition registerService (service : Service) (st : State) : State :=
  let st := with_index (<[name service := 0%N]>) st in
  let st :=
    with_health
      (fun hm => foldl (fun hm i => <[instanceKey i := fresh_health]> hm) hm
                   (instances service)) st in
  let routePath :=
    if ends_with_star (pathPrefix service) then pathPrefix service
    else (pathPrefix service ++ "/*")%string in
  with_routes (map_set routePath service) st.

(** [findMatchingService(path)] *)
Definition findMatchingService (path : string) (st : State) : option Service :=
  snd <$> List.find (fun e => String.prefix (remove_slash_star (fst e)) path) (routes st).

(** [health && health.isHealthy] for the instance. *)
Definition healthy (st : State) (i : Instance) : bool :=
  match serviceHealth st !! instanceKey i with
  | Some h => isHealthy h
  | None => false
  end.

(** [roundRobinSelection(serviceName, instances)] *)
Definition roundRobinSelection (serviceName : string) (candidates : list Instance)
    (st : State) : option Instance * State :=
  let index := default 0%N (roundRobinIndex st !! serviceName) in
  (candidates !! (N.to_nat index mod List.length candidates)%nat,
   with_index (<[serviceName := (index + 1)%N]>) st).

(** [leastConnectionsSelection(instances)]: the first instance with the
    fewest connections; [best] is the choice so far with its count. *)
Fixpoint least_go (st : State) (candidates : list Instance)
    (best : option (Instance * N)) : option Instance :=
  match candidates with
  | [] => fst <$> best
  | i :: rest =>
      let connections := default 0%N (connectionCounts st !! instanceKey i) in
      match best with
      | Some (_, minConnections) =>
          if (connections <? minConnections)%N
          then least_go st rest (Some (i, connections))
          else least_go st rest best
      | None => least_go st rest (Some (i, connections))
      end
  end.

Definition leastConnectionsSelection (candidates : list Instance) (st : State)
    : option Instance :=
  least_go st candidates None.

(** [instance.weight || 1] copies of the instance, for a weight that is
    an integer; none for a negative one. *)
Definition copies (i : Instance) : list Instance :=
  replicate (Z.to_nat (Js.or_default (weight i) 1)) i.

(** [weightedRoundRobinSelection(serviceName, instances)] *)
Definition weightedRoundRobinSelection (serviceName : string)
    (candidates : list Instance) (st : State) : option Instance * State :=
  let weightedInstances := List.concat (map copies candidates) in
  match weightedInstances with
  | [] => (head candidates, st)
  | _ =>
      let index := default 0%N (roundRobinIndex st !! serviceName) in
      (weightedInstances !! (N.to_nat index mod List.length weightedInstances)%nat,
       with_index (<[serviceName := (index + 1)%N]>) st)
  end.

(** What the request and the environment give to the selection: the
    index [Math.floor(Math.random() * n)] comes to for [n] candidates, and
    the number read from the hash of the client address, if the request
    has one. *)
Record Draw := {
  random_index : nat -> nat;
  ip_hash : option N
}.

(** What [selectInstance] comes to: an instance, [null] or [undefined],
    or the TypeError of hashing a missing address. *)
Inductive Selection :=
| Selected (i : Instance)
| NoInstance
| Raised.

Definition selection_of (o : option Instance) : Selection :=
  match o with
  | Some i => Selected i
  | None => NoInstance
  end.

(** [selectInstance(service, req)] *)
Definition selectInstance (service : Service) (draw : Draw) (st : State)
    : Selection * State :=
  let healthyInstances := List.filter (healthy st) (instances service) in
  match healthyInstances with
  | [] => (NoInstance, st)
  | _ =>
      if String.eqb (loadBalancing service) "leastConnections"
      then (selection_of (leastConnectionsSelection healthyInstances st), st)
      else if String.eqb (loadBalancing service) "random"
      then (selection_of
              (healthyInstances !! random_index draw (List.length healthyInstances)), st)
      else if String.eqb (loadBalancing service) "ipHash"
      then match ip_hash draw with
           | Some n =>
               (selection_of
                  (healthyInstances !! (N.to_nat n mod List.length healthyInstances)%nat),
                st)
           | None => (Raised, st)
           end
      else if String.eqb (loadBalancing service) "weightedRoundRobin"
      then let '(o, st) := weightedRoundRobinSelection (name service) healthyInstances st in
           (selection_of o, st)
      else let '(o, st) := roundRobinSelection (name service) healthyInstances st in
           (selection_of o, st)
  end.

(** [incrementConnection(instanceKey)] *)
Definition incrementConnection (key : string) (st : State) : State :=
  with_connections
    (<[key := (default 0%N (connectionCounts st !! key) + 1)%N]>) st.

(** [decrementConnection(instanceKey)] *)
Definition decrementConnection (key : string) (st : State) : State :=
  with_connections
    (<[key := (default 0%N (connectionCounts st !! key) - 1)%N]>) st.

Definition note_failure (h : Health) : Health :=
  {| isHealthy := if (3 <=? consecutiveFailures h + 1)%N then false else isHealthy h;
     lastCheck := lastCheck h;
     consecutiveFailures := (consecutiveFailures h + 1)%N |}.

(** [recordInstanceFailure(instanceKey)] *)
Definition recordInstanceFailure (key : string) (st : State) : State :=
  with_health (alter note_failure key) st.

Definition check_passed (now : Z) (h : Health) : Health :=
  {| isHealthy := true; lastCheck := Some now; consecutiveFailures := 0 |}.

Definition check_failed (now : Z) (h : Health) : Health :=
  {| isHealthy := if (3 <=? consecutiveFailures h + 1)%N then false else isHealthy h;
     lastCheck := Some now;
     consecutiveFailures := (consecutiveFailures h + 1)%N |}.

(** [checkInstanceHealth(service, instance)] at time [now], the probe
    having answered below 500 ([ok]) or not. *)
Definition checkInstanceHealth (i : Instance) (ok : bool) (now : Z) (st : State) : State :=
  with_health (alter (if ok then check_passed now else check_failed now) (instanceKey i)) st.

(** What happens to the health of instances between two requests. *)
Inductive HealthEvent :=
| ProxyError (key : string)
| Probe (i : Instance) (ok : bool) (now : Z).

Definition apply_event (e : HealthEvent) (st : State) : State :=
  match e with
  | ProxyError key => recordInstanceFailure key st
  | Probe i ok now => checkInstanceHealth i ok now st
  end.

(** An instance that is marked healthy has fewer than three failures in
    a row on record. *)
Definition health_consistent (st : State) : Prop :=
  forall key h, serviceHealth st !! key = Some h ->
    isHealthy h = true -> (consecutiveFailures h < 3)%N.

(** The router as the constructor leaves it without configured
    services. *)
Definition empty : State :=
  {| routes := []; roundRobinIndex := ∅; connectionCounts := ∅; serviceHealth := ∅ |}.

(** What is done to the router. *)
Inductive Op :=
| Register (service : Service)
| Happens (e : HealthEvent)
| Select (service : Service) (draw : Draw)
| Connect (key : string)
| Disconnect (key : string).

Definition apply_op (st : State) (op : Op) : State :=
  match op with
  | Register service => registerService service st
  | Happens e => apply_event e st
  | Select service draw => snd (selectInstance service draw st)
  | Connect key => incrementConnection key st
  | Disconnect key => decrementConnection key st
  end.

(** The router after [ops], from the empty one. *)
Definition after (ops : list Op) : State := foldl apply_op empty ops.

(** The selections of [n] requests in a row for [service]. *)
Fixpoint select_n (service : Service) (draw : Draw) (n : nat) (st : State)
    : list Selection :=
  match n with
  | O => []
  | S n' =>
      let '(s, st') := selectInstance service draw st in
      s :: select_n service draw n' st'
  end.

(** The policy is plain round robin, named or by default. *)
Definition round_robin (service : Service) : bool :=
  negb (String.eqb (loadBalancing service) "leastConnections")
  && negb (String.eqb (loadBalancing service) "random")
  && negb (String.eqb (loadBalancing service) "ipHash")
  && negb (String.eqb (loadBalancing service) "weightedRoundRobin").

End Router.

(** ** src/security/securityManager.js: addresses and violations *)

Module Security.

Record Violation := {
  type : string;
  timestamp : Z
}.

(** The manager: the blacklist of [this.config], which grows at run
    time, the violations per address, and the number of clock readings
    taken so far. *)
Record State := {
  whitelistedIPs : list string;
  blacklistedIPs : list string;
  securityViolations : gmap string (list Violation);
  reads : nat
}.

(** The request as [getClientIP] reads it. *)
Record Request := {
  headers : gmap string string;
  connection_remoteAddress : option string;
  socket_remoteAddress : option string;
  ip : option string
}.

(** [a || b] on possibly-undefined strings. *)
Definition or_else (a b : option string) : option string :=
  match a with
  | Some v => if Js.truthy v then Some v else b
  | None => b
  end.

(** [getClientIP(req)] *)
Definition getClientIP (req : Request) : option string :=
  or_else (headers req !! "x-forwarded-for"%string)
    (or_else (headers req !! "x-real-ip"%string)
       (or_else (connection_remoteAddress req)
          (or_else (socket_remoteAddress req) (ip req)))).

Section WithClock.

(** [clock k] is what the [k]-th reading of the system clock returns. *)
Variable clock : nat -> Z.

(** [violations.filter(v => Date.now() - v.timestamp < 3600000)], the
    clock read once for every element, from reading [k] on. *)
Fixpoint recent (k : nat) (violations : list Violation) : list Violation :=
  match violations with
  | [] => []
  | v :: rest =>
      if clock k - timestamp v <? 3600000
      then v :: recent (S k) rest
      else recent (S k) rest
  end.

(** [recordViolation(ip, type)] *)
Definition recordViolation (address : string) (kind : string) (st : State) : State :=
  let violations := default [] (securityViolations st !! address) in
  let violations := violations ++ [{| type := kind; timestamp := clock (reads st) |}] in
  let violations :=
    if (100 <? List.length violations)%nat then tail violations else violations in
  let recentViolations := recent (S (reads st)) violations in
  {| whitelistedIPs := whitelistedIPs st;
     blacklistedIPs :=
       if (10 <? List.length recentViolations)%nat
          && negb (Cache.includes_str address (blacklistedIPs st))
       then blacklistedIPs st ++ [address]
       else blacklistedIPs st;
     securityViolations := <[address := violations]> (securityViolations st);
     reads := (S (reads st) + List.length violations)%nat |}.

(** [checkIPAccess(req)] *)
Definition checkIPAccess (req : Request) (st : State) : bool * State :=
  let clientIP := getClientIP req in
  match whitelistedIPs st with
  | _ :: _ =>
      (match clientIP with
       | Some a => Cache.includes_str a (whitelistedIPs st)
       | None => false
       end, st)
  | [] =>
      match clientIP with
      | Some a =>
          if Cache.includes_str a (blacklistedIPs st)
          then (false, recordViolation a "IP_BLACKLISTED" st)
          else (true, st)
      | None => (true, st)
      end
  end.

(** What is done to the manager. *)
Inductive Op :=
| Check (req : Request)
| Violates (address : string) (kind : string).

Definition apply_op (st : State) (op : Op) : State :=
  match op with
  | Check req => snd (checkIPAccess req st)
  | Violates address kind => recordViolation address kind st
  end.

(** The violations [kinds] of [address], recorded one after the other. *)
Definition record_all (address : string) (kinds : list string) (st : State) : State :=
  foldl (fun st kind => recordViolation address kind st) st kinds.

End WithClock.

(** No address has more than 100 violations on record. *)
Definition capped (st : State) : Prop :=
  forall address vs, securityViolations st !! address = Some vs ->
    (List.length vs <= 100)%nat.

End Security.

(** ** More sample inputs *)

Module BreakerSamples.

Import CircuitBreaker BreakerOps Samples.

(** A breaker with the sample configuration that has seen no service. *)
Definition untouched : Breaker :=
  {| cfg := sample_config; circuits := ∅; stats := ∅; reads := 0 |}.

(** Calls of every kind, on a service that has a circuit and on one that
    has none. *)
Definition mixed_calls : list Call :=
  [CallMiddleware users_request;
   CallExecute "users" (Rejects "500") None;
   CallRecordFailure "orders" "connect ECONNREFUSED";
   CallRecordSuccess "users";
   CallReset "users";
   CallExecute "orders" StillPending (Some tt);
   CallCleanup;
   CallGetCircuit "users"].


End BreakerSamples.

Module CacheRunSamples.

Import Cache CacheOps CacheSamples.

(** The request for the products with a bearer token. *)
Definition get_products_as_bob : Request :=
  {| method := "GET"; path := "/api/products";
     query := [];
     headers := {[ "authorization"%string := "Bearer t-1"%string ]};
     requestId := "r-4" |}.

(** A write to the products. *)
Definition post_product : Request :=
  {| method := "POST"; path := "/api/products";
     query := [];
     headers := {[ "content-type"%string := "application/json"%string ]};
     requestId := "r-5" |}.

Definition products_response : Response :=
  {| statusCode := 200;
     res_headers := {[ "content-type"%string := "application/json"%string ]} |}.

(** The manager after the products were asked for at 1000 and answered
    at 1040. *)
Definition products_cached : Manager :=
  serve get_products products_response "[]" 1000 1040 empty_manager.

(** Two entries in the fallback cache, one to expire at 5000 and one at
    9000. *)
Definition two_entries : Manager :=
  setInMemory "gateway:b" (entry_of get_products products_response "[]" 0) 9 0
    (setInMemory "gateway:a" (entry_of get_products products_response "[]" 0) 5 0
       empty_manager).

End CacheRunSamples.

Module AuthSamples.

Import Auth.

Definition carol : UserRecord :=
  {| id := "7"; username := "carol"; password := "$2a$10$hash"; role := "user";
     permissions := ["read"%string]; lastLogin := None; isActive := true |}.

Definition carols_key : KeyData :=
  {| key := "k-123"; userId := "7"; k_permissions := ["read"%string];
     lastUsed := None; k_isActive := true; usage_requests := 0 |}.

Definition one_user : Store :=
  {| users := [("7"%string, carol)];
     apiKeys := {[ "k-123"%string := carols_key ]};
     blacklistedTokens := ∅ |}.

(** Libraries that accept no token and no password. *)
Definition no_token (tok : string) : string + string := inr "invalid token"%string.

Definition plain_decode (s : string) : string := s.

Definition no_password (given hash : string) : bool := false.

Definition with_key : gmap string string := {[ "x-api-key"%string := "k-123"%string ]}.

Definition with_token : gmap string string :=
  {[ "authorization"%string := "Bearer t-1"%string ]}.

(** What [authenticate] leaves of the store when carol's key is shown at
    time 1000. *)
Definition after_key : Store :=
  snd (authenticate no_token plain_decode no_password default_config with_key 1000 one_user).

End AuthSamples.

Module RouterSamples.

Import Router.

Definition users_a : Instance := {| host := "10.0.0.1"; port := "3001"; weight := None |}.

Definition users_b : Instance := {| host := "10.0.0.2"; port := "3001"; weight := None |}.

Definition users_service : Service :=
  {| name := "users"; instances := [users_a; users_b];
     pathPrefix := "/api/users"; loadBalancing := "roundRobin" |}.

(** A service registered for all of [/api]. *)
Definition api_service : Service :=
  {| name := "legacy"; instances := [users_a];
     pathPrefix := "/api"; loadBalancing := "roundRobin" |}.

Definition first_draw : Draw := {| random_index := fun _ => O; ip_hash := None |}.

(** Three proxy errors in a row on the first instance of the users. *)
Definition a_fails_thrice : list Op :=
  [Register users_service;
   Happens (ProxyError "10.0.0.1:3001");
   Happens (ProxyError "10.0.0.1:3001");
   Happens (ProxyError "10.0.0.1:3001")].

End RouterSamples.

Module SecuritySamples.

Import Security.

Definition nothing_recorded : State :=
  {| whitelistedIPs := []; blacklistedIPs := []; securityViolations := ∅; reads := 0 |}.

Definition one_blocked : State :=
  {| whitelistedIPs := []; blacklistedIPs := ["10.0.0.9"%string];
     securityViolations := ∅; reads := 0 |}.

Definition from_blocked : Request :=
  {| headers := ∅; connection_remoteAddress := Some "10.0.0.9"%string;
     socket_remoteAddress := None; ip := None |}.

End SecuritySamples.

Module GatewayRunSamples.

Import ApiGateway.

Definition get_metrics : RequestLine := {| method := "GET"; path := "/metrics" |}.

(** Every principal has the permission [read] and no other. *)
Definition read_only (u : RateLimiter.User) : list string := ["read"%string].

End GatewayRunSamples.


(** * Facts about the embedding *)

(** ** The circuit breaker *)

Section BreakerFacts.

Import CircuitBreaker.

Variable clock : nat -> Z.

Ltac unfold_cb :=
  unfold transitionToOpen, transitionToHalfOpen, transitionToClosed,
    update_circuit, update_stats, getCircuit, getStats, Date_now,
    bind, ret, throw, gets, modify, set_circuits, set_stats.

Ltac run_cb Hc Hs :=
  unfold_cb; cbn;
  repeat (rewrite ?lookup_alter_eq, ?lookup_insert_eq, ?Hc, ?Hs; cbn).

Lemma getCircuit_known svc b c :
  circuits b !! svc = Some c -> getCircuit clock svc b = (Ok c, b).
Proof. intros Hc. run_cb Hc Hc. reflexivity. Qed.

Lemma getStats_known svc b s :
  stats b !! svc = Some s -> getStats svc b = (Ok s, b).
Proof. intros Hs. run_cb Hs Hs. reflexivity. Qed.

Lemma transitionToOpen_known svc b c s :
  circuits b !! svc = Some c -> stats b !! svc = Some s ->
  transitionToOpen clock svc b =
    (Ok tt,
     {| cfg := cfg b;
        circuits := alter (with_state OPEN (clock (reads b))) svc (circuits b);
        stats := alter (push_change {| from := OPEN; to := OPEN;
                                       timestamp := clock (S (reads b)) |}) svc (stats b);
        reads := S (S (reads b)) |}).
Proof. intros Hc Hs. run_cb Hc Hs. reflexivity. Qed.

Lemma transitionToHalfOpen_known svc b c s :
  circuits b !! svc = Some c -> stats b !! svc = Some s ->
  transitionToHalfOpen clock svc b =
    (Ok tt,
     {| cfg := cfg b;
        circuits := alter (fun c => reset_counts (with_state HALF_OPEN (clock (reads b)) c))
                      svc (circuits b);
        stats := alter (push_change {| from := state c; to := HALF_OPEN;
                                       timestamp := clock (S (reads b)) |}) svc (stats b);
        reads := S (S (reads b)) |}).
Proof. intros Hc Hs. run_cb Hc Hs. reflexivity. Qed.

Lemma transitionToClosed_known svc b c s :
  circuits b !! svc = Some c -> stats b !! svc = Some s ->
  transitionToClosed clock svc b =
    (Ok tt,
     {| cfg := cfg b;
        circuits := alter (fun c => reset_counts (with_state CLOSED (clock (reads b)) c))
                      svc (circuits b);
        stats := alter (push_change {| from := state c; to := CLOSED;
                                       timestamp := clock (S (reads b)) |}) svc (stats b);
        reads := S (S (reads b)) |}).
Proof. intros Hc Hs. run_cb Hc Hs. reflexivity. Qed.

(** On first use the circuit and its statistics are created together. *)
Lemma getCircuit_fresh svc b :
  circuits b !! svc = None ->
  getCircuit clock svc b =
    (Ok (new_circuit (cfg b) (default no_overrides (services (cfg b) !! svc))
           (clock (reads b))),
     {| cfg := cfg b;
        circuits := <[svc := new_circuit (cfg b)
                               (default no_overrides (services (cfg b) !! svc))
                               (clock (reads b))]> (circuits b);
        stats := <[svc := new_stats]> (stats b);
        reads := S (reads b) |}).
Proof. intros Hc. run_cb Hc Hc. reflexivity. Qed.


(** C9. [transitionToOpen] logs the transition with [from] equal to the new
    state OPEN, whatever state the circuit was in before: the log entry is
    built from [circuit.state] after that field was overwritten. *)
Theorem transitionToOpen_logs_new_state_as_from svc b :
  (is_Some (circuits b !! svc) -> is_Some (stats b !! svc)) ->
  exists b' log stamp,
    transitionToOpen clock svc b = (Ok tt, b')
    /\ state <$> circuits b' !! svc = Some OPEN
    /\ stateChanges <$> stats b' !! svc
       = Some (log ++ [{| from := OPEN; to := OPEN; timestamp := stamp |}])
    /\ (forall c s, circuits b !! svc = Some c -> stats b !! svc = Some s ->
         log = stateChanges s).
Proof.
  intros Hwf. destruct (circuits b !! svc) as [c|] eqn:Hc.
  - destruct Hwf as [s Hs]; [eauto|].
    eexists _, (stateChanges s), _. split; [apply (transitionToOpen_known _ _ c s Hc Hs)|].
    cbn. rewrite !lookup_alter_eq, Hc, Hs. cbn.
    repeat split. intros c' s' _ [= <-]. reflexivity.
  - eexists _, [], _. split.
    + run_cb Hc Hc. reflexivity.
    + cbn. rewrite !lookup_alter_eq, !lookup_insert_eq. cbn.
      repeat split. intros c' s' [=].
Qed.


Ltac unfold_gate :=
  unfold middleware, middleware_open_check, execute, execute_open_check,
    rejectRequest, or_fallback.



(** Requests that complete while the circuit is OPEN only move its
    counters: the state and the time of the last change stay. *)
Lemma open_circuit_survives_completions svc b c s msg :
  circuits b !! svc = Some c ->
  stats b !! svc = Some s ->
  state c = OPEN ->
  (exists b' c',
     recordSuccess clock svc b = (Ok tt, b')
     /\ circuits b' !! svc = Some c'
     /\ state c' = OPEN /\ lastStateChange c' = lastStateChange c)
  /\ (exists b' c',
        recordFailure clock svc msg b = (Ok tt, b')
        /\ circuits b' !! svc = Some c'
        /\ state c' = OPEN /\ lastStateChange c' = lastStateChange c).
Proof.
  intros Hc Hs Hst. split.
  - unfold recordSuccess. run_cb Hc Hs. rewrite Hst. cbn.
    repeat (rewrite ?lookup_alter_eq, ?Hc, ?Hs; cbn). rewrite Hst. cbn.
    eexists _, _. split; [reflexivity|]. cbn.
    repeat (rewrite ?lookup_alter_eq, ?Hc, ?Hs; cbn). auto.
  - unfold recordFailure. run_cb Hc Hs.
    destruct (Js.includes "timeout" msg); cbn;
      repeat (rewrite ?lookup_alter_eq, ?Hc, ?Hs; cbn); rewrite Hst; cbn;
      eexists _, _; (split; [reflexivity|]); cbn;
      repeat (rewrite ?lookup_alter_eq, ?Hc, ?Hs; cbn); auto.
Qed.



End BreakerFacts.

Section BreakerConfigFacts.

Import CircuitBreaker Samples.

Variable clock : nat -> Z.

(** C8 fails on the code: the constructor takes [halfOpenRequests: 0] and
    builds a breaker whose limit is the default 3. *)
Lemma half_open_zero_is_not_rejected :
  raw_halfOpenRequests zero_half_open = Some 0
  /\ ~ rejected_at_load zero_half_open
  /\ exists b, constructor zero_half_open = Ok b /\ halfOpenRequests (cfg b) = 3.
Proof.
  split; [reflexivity|]. split.
  - intros [e He]. discriminate.
  - eexists. split; reflexivity.
Qed.

Lemma or_default_nonzero x d : d <> 0 -> Js.or_default x d <> 0.
Proof.
  unfold Js.or_default. intros Hd. destruct x as [v|]; [|exact Hd].
  destruct (v =? 0) eqn:Hv; [exact Hd|]. apply Z.eqb_neq. exact Hv.
Qed.

(** C8, as the code has it.  No configuration is refused: the constructor
    always builds a breaker, reading a [halfOpenRequests] of 0 like a
    missing one, as the default 3; and every circuit it then creates has
    a half-open limit other than 0 (a per-service 0 falls back to the
    breaker's value). *)
Theorem half_open_zero_falls_back_to_default raw svc :
  exists b c b',
    constructor raw = Ok b
    /\ halfOpenRequests (cfg b) = Js.or_default (raw_halfOpenRequests raw) 3
    /\ halfOpenRequests (cfg b) <> 0
    /\ getCircuit clock svc b = (Ok c, b')
    /\ c_halfOpenRequests (config c) <> 0.
Proof.
  eexists _, _, _. split; [reflexivity|]. cbn [cfg halfOpenRequests].
  split; [reflexivity|]. split; [apply or_default_nonzero; discriminate|].
  split.
  - unfold getCircuit, bind, gets, ret, modify, Date_now. cbn.
    rewrite lookup_empty. cbn. reflexivity.
  - cbn. apply or_default_nonzero, or_default_nonzero. discriminate.
Qed.

End BreakerConfigFacts.

Section BreakerWitnesses.

Import CircuitBreaker Samples.



(** A CLOSED circuit that opens is logged as going from OPEN to OPEN. *)
Lemma transitionToOpen_logs_new_state_as_from_witness :
  exists b' log stamp,
    transitionToOpen sample_clock "users" (breaker_with (circuit_in CLOSED 3 0 999500))
    = (Ok tt, b')
    /\ state <$> circuits b' !! "users"%string = Some OPEN
    /\ stateChanges <$> stats b' !! "users"%string
       = Some (log ++ [{| from := OPEN; to := OPEN; timestamp := stamp |}])
    /\ (forall c s,
          circuits (breaker_with (circuit_in CLOSED 3 0 999500)) !! "users"%string = Some c ->
          stats (breaker_with (circuit_in CLOSED 3 0 999500)) !! "users"%string = Some s ->
          log = stateChanges s).
Proof.
  apply (transitionToOpen_logs_new_state_as_from sample_clock "users"
           (breaker_with (circuit_in CLOSED 3 0 999500))).
  intros _. exists new_stats. vm_compute. reflexivity.
Defined.

End BreakerWitnesses.

(** Scenario S3 of the specification, run on the embedding. *)

Section ScenarioFacts.

Import CircuitBreaker Samples Scenarios.


(** Two failures leave the circuit CLOSED, the third opens it. *)
Example s3_three_failures_open_the_circuit :
  state_of "users"
    (built_then s3_clock s3_config "users" [Rejects "500"; Rejects "500"])
  = Some CLOSED
  /\ state_of "users"
       (built_then s3_clock s3_config "users" [Rejects "500"; Rejects "500"; Rejects "500"])
     = Some OPEN.
Proof. split; vm_compute; reflexivity. Qed.

(** The fourth request gets a 503 with [retryAfter] 1. *)
Example s3_fourth_request_is_rejected :
  (fun b => fst (middleware s3_clock users_request b))
    <$> built_then s3_clock s3_config "users" [Rejects "500"; Rejects "500"; Rejects "500"]
  = Some (Ok (Sent {| status := 503;
                      error := "Service Unavailable";
                      message := "Service users is currently unavailable";
                      retryAfter := 1;
                      rej_requestId := "r-1" |})).
Proof. vm_compute. reflexivity. Qed.

(** After the pause the circuit is HALF_OPEN; the third success closes it. *)
Example s3_half_open_then_closed :
  state_of "users" s3_after_pause = Some HALF_OPEN
  /\ state_of "users"
       (after_calls s3_clock "users" [Resolves tt; Resolves tt] <$> s3_after_pause)
     = Some HALF_OPEN
  /\ state_of "users"
       (after_calls s3_clock "users" [Resolves tt; Resolves tt; Resolves tt] <$> s3_after_pause)
     = Some CLOSED.
Proof. repeat split; vm_compute; reflexivity. Qed.
End ScenarioFacts.

(** ** The quota accountant *)

Section QuotaFacts.

Import RateLimiter QuotaRuns.

Lemma key_of_Some req k :
  key_of req = Some k <-> exists u, user req = Some u /\ quotaKey u = Some k.
Proof.
  unfold key_of. destruct (user req) as [u|]; cbn.
  - split; [eauto | intros (u' & [= <-] & H); exact H].
  - split; [discriminate | intros (u' & [=] & _)].
Qed.

Lemma num_differs_same ws : num_differs (Finite ws) (Finite ws) = false.
Proof. cbn. rewrite Z.eqb_refl. reflexivity. Qed.

Lemma num_differs_false a ws : num_differs a (Finite ws) = false -> a = Finite ws.
Proof.
  destruct a as [x|]; cbn; [|discriminate].
  intros H. apply negb_false_iff, Z.eqb_eq in H. congruence.
Qed.

(** For a window of positive length, [ws] is the computed window start of
    exactly the times from [ws] up to, not including, [ws + windowMs], and
    it is a multiple of the length. *)
Lemma windowStartOf_spec w now ws :
  0 < w ->
  windowStartOf w now = Finite ws <-> ws <= now < ws + w /\ ws mod w = 0.
Proof.
  intros Hw. unfold windowStartOf.
  destruct (w =? 0) eqn:H0; [apply Z.eqb_eq in H0; lia|].
  split.
  - intros [= <-]. split.
    + pose proof (Z.mul_div_le now w Hw). pose proof (Z.mod_pos_bound now w Hw).
      pose proof (Z.div_mod now w). nia.
    + apply Z_mod_mult.
  - intros [Hin Hmod]. f_equal.
    apply Z.mod_divide in Hmod; [|lia]. destruct Hmod as [q ->].
    f_equal. symmetry. apply Z.div_unique with (r := now - q * w); lia.
Qed.

(** Requests counted under other keys, anonymous requests and requests
    whose key computation fails leave the bucket of [k] alone. *)
Lemma checkQuota_other_key cfg req now quotas k :
  key_of req <> Some k ->
  snd (checkQuota cfg req now quotas) !! k = quotas !! k.
Proof.
  unfold checkQuota, key_of. intros Hk.
  destruct (user req) as [u|]; cbn in *; [|reflexivity].
  destruct (quotaKey u) as [k'|]; cbn in *; [|reflexivity].
  apply lookup_insert_ne. congruence.
Qed.

(** One counted request in the window uses up one unit of room and is
    allowed exactly when there was room. *)
Lemma checkQuota_same_key cfg req u now quotas k ws :
  user req = Some u ->
  quotaKey u = Some k ->
  windowStartOf (windowMs (quotaConfig cfg u)) now = Finite ws ->
  exists result quotas',
    checkQuota cfg req now quotas = (Some result, quotas')
    /\ allowed result = (1 <=? room k ws (quotaConfig cfg u) quotas)
    /\ room k ws (quotaConfig cfg u) quotas' = room k ws (quotaConfig cfg u) quotas - 1
    /\ window_open k ws quotas' = true.
Proof.
  intros Hu Hk Hws. unfold checkQuota, room, window_open. rewrite Hu, Hk, Hws.
  eexists _, _. split; [reflexivity|]. cbn [allowed]. rewrite !lookup_insert_eq.
  destruct (quotas !! k) as [q|] eqn:Hq;
    [destruct (num_differs (windowStart q) (Finite ws)) eqn:Hd|];
    cbn; rewrite ?Z.eqb_refl, ?Hd; cbn;
    (split; [apply eq_true_iff_eq; rewrite !Z.leb_le; lia|]);
    split; [lia | reflexivity | lia | reflexivity | lia | reflexivity].
Qed.

Lemma allowed_count_cons k e log :
  allowed_count k (e :: log)
  = (if allowed_under k e then 1 else 0) + allowed_count k log.
Proof.
  unfold allowed_count. cbn. destruct (allowed_under k e); cbn [List.length]; lia.
Qed.

(** Within a window the allowed requests of a key never outnumber the room
    the bucket has. *)
Lemma allowed_count_le_room cfg k qc ws rs : forall quotas,
  (forall req now u, (req, now) ∈ rs -> user req = Some u -> quotaKey u = Some k ->
     quotaConfig cfg u = qc /\ windowStartOf (windowMs qc) now = Finite ws) ->
  allowed_count k (run cfg rs quotas) <= Z.max 0 (room k ws qc quotas).
Proof.
  induction rs as [|[req now] rs IH]; intros quotas Hrs.
  - unfold allowed_count. cbn. lia.
  - cbn [run]. destruct (checkQuota cfg req now quotas) as [result quotas'] eqn:Hcq.
    rewrite allowed_count_cons.
    assert (Hrs' : forall req now u, (req, now) ∈ rs -> user req = Some u ->
              quotaKey u = Some k ->
              quotaConfig cfg u = qc /\ windowStartOf (windowMs qc) now = Finite ws)
      by (intros r n u Hin; apply Hrs; right; exact Hin).
    specialize (IH quotas' Hrs').
    destruct (decide (key_of req = Some k)) as [Hk|Hk].
    + apply key_of_Some in Hk as (u & Hu & Hk).
      destruct (Hrs req now u) as [Hqc Hws]; [left | exact Hu | exact Hk |].
      subst qc.
      destruct (checkQuota_same_key cfg req u now quotas k ws Hu Hk Hws)
        as (result' & quotas'' & Hrun & Hal & Hroom & _).
      rewrite Hcq in Hrun. injection Hrun as -> ->.
      unfold allowed_under. cbn [fst snd]. rewrite Hal.
      rewrite Hroom in IH.
      destruct (bool_decide _); cbn [andb];
        destruct (1 <=? room k ws (quotaConfig cfg u) quotas) eqn:Hle;
        try apply Z.leb_le in Hle; try apply Z.leb_gt in Hle; lia.
    + assert (Hsame : quotas' !! k = quotas !! k).
      { pose proof (checkQuota_other_key cfg req now quotas k Hk) as H.
        rewrite Hcq in H. exact H. }
      unfold allowed_under at 1. cbn [fst].
      rewrite bool_decide_eq_false_2 by exact Hk. cbn [andb].
      unfold room in *. rewrite Hsame in IH. lia.
Qed.

(** C4. Take any run of [checkQuota] calls in which every request counted
    under key [k] carries the quota configuration [qc] and computes the
    window start [ws], and whose first such request opens that window (the
    table holds no bucket for [k], or one of another window).  The number
    of those requests reported as allowed is at most [maxRequests qc] (and
    none is allowed when that limit is below 0); requests under other keys
    may be interleaved freely. *)
Theorem quota_never_exceeds_limit_within_window cfg k qc ws rs quotas :
  (forall req now u, (req, now) ∈ rs -> user req = Some u -> quotaKey u = Some k ->
     quotaConfig cfg u = qc /\ windowStartOf (windowMs qc) now = Finite ws) ->
  window_open k ws quotas = false ->
  allowed_count k (run cfg rs quotas) <= Z.max 0 (maxRequests qc).
Proof.
  intros Hrs Hfresh.
  pose proof (allowed_count_le_room cfg k qc ws rs quotas Hrs) as H.
  unfold room, window_open in *.
  destruct (quotas !! k) as [q|]; [|exact H].
  apply negb_false_iff in Hfresh. rewrite Hfresh in H. exact H.
Qed.

End QuotaFacts.

(** ** The rate limiter middleware *)

Section DenialFacts.

Import RateLimiter QuotaDenial.

(** C7 fails on the code: the quota of alice is used up, the request is
    denied with a 429, and the response has none of the three headers
    when the IP limiters left it undecorated, and the IP limiter's values
    rather than the quota's when they decorated it. *)
Lemma quota_denial_lacks_allow_headers :
  (exists result quotas',
     checkQuota default_config alice_request denial_time exhausted
     = (Some result, quotas')
     /\ allowed result = false
     /\ ~ denial_as_specified result
          (fst (middleware default_config Passed Passed alice_request
                  plain_response denial_time exhausted))
     /\ ~ denial_as_specified result
          (fst (middleware default_config (fun _ => Passed decorated_response) Passed
                  alice_request plain_response denial_time exhausted)))
  /\ (exists res,
       fst (middleware default_config Passed Passed alice_request
              plain_response denial_time exhausted) = Sent res
       /\ statusCode res = 429
       /\ ~ names_rate_limit_headers res).
Proof.
  split.
  - eexists _, _. split; [vm_compute; reflexivity|].
    split; [reflexivity|]. split.
    + intros (res & Hout & _ & Hcarry & _).
      vm_compute in Hout. injection Hout as <-.
      specialize (Hcarry _ eq_refl "X-RateLimit-Limit"%string _ ltac:(left)).
      vm_compute in Hcarry. discriminate.
    + intros (res & Hout & _ & Hcarry & _).
      vm_compute in Hout. injection Hout as <-.
      specialize (Hcarry _ eq_refl "X-RateLimit-Limit"%string _ ltac:(left)).
      vm_compute in Hcarry. discriminate.
  - eexists. split; [vm_compute; reflexivity|]. split; [reflexivity|].
    intros H. destruct (H "X-RateLimit-Limit"%string _ ltac:(left)) as [v Hv].
    vm_compute in Hv. discriminate.
Qed.

(** A denial comes with the bucket's record, no room left and the reason
    "Quota exceeded". *)
Lemma checkQuota_denied cfg req now quotas result quotas' :
  checkQuota cfg req now quotas = (Some result, quotas') ->
  allowed result = false ->
  exists q, quota result = Some q /\ q_remaining q = 0
            /\ message result = Some "Quota exceeded"%string.
Proof.
  unfold checkQuota. destruct (user req) as [u|]; [|intros [= <- _]; discriminate].
  destruct (quotaKey u); [|discriminate].
  intros [= <- _]. cbn. intros Hal. rewrite Hal. eexists. split; [reflexivity|].
  cbn. split; [|reflexivity]. apply Z.leb_gt in Hal. lia.
Qed.

(** C7, as the code has it.  When [checkQuota] denies the request the
    middleware answers 429 with a JSON body that carries the error
    "Quota Exceeded", the reason "Quota exceeded", the quota record (with
    nothing remaining) and the request id; it leaves the headers as the IP
    limiters left them.  The three X-RateLimit headers are set, from the
    quota record, when the request is allowed. *)
Theorem quota_denial_answers_429_with_quota_in_body
    cfg globalLimiter slowDownLimiter req res res1 res2 now quotas result quotas' :
  enabled cfg = true ->
  globalLimiter res = Passed res1 ->
  slowDownLimiter res1 = Passed res2 ->
  checkQuota cfg req now quotas = (Some result, quotas') ->
  (allowed result = false ->
     exists q,
       quota result = Some q /\ q_remaining q = 0
       /\ middleware cfg globalLimiter slowDownLimiter req res now quotas
          = (Sent {| statusCode := 429;
                     headers := headers res2;
                     body := Some {| d_error := "Quota Exceeded";
                                     d_message := Some "Quota exceeded"%string;
                                     d_quota := Some q;
                                     d_requestId := requestId req |} |},
             quotas'))
  /\ (allowed result = true ->
      forall q, quota result = Some q ->
        exists res',
          middleware cfg globalLimiter slowDownLimiter req res now quotas
          = (Next res', quotas')
          /\ carries res' (allow_headers q)
          /\ statusCode res' = statusCode res2 /\ body res' = body res2).
Proof.
  intros Hen Hg Hs Hcq. split.
  - intros Hal.
    destruct (checkQuota_denied _ _ _ _ _ _ Hcq Hal) as (q & Hq & Hrem & Hmsg).
    exists q. split; [exact Hq|]. split; [exact Hrem|].
    unfold middleware. rewrite Hen, Hg, Hs, Hcq. cbn. rewrite Hal. cbn.
    unfold send_json. rewrite Hq, Hmsg. reflexivity.
  - intros Hal q Hq. unfold middleware. rewrite Hen, Hg, Hs, Hcq. cbn.
    rewrite Hal, Hq. cbn. eexists. split; [reflexivity|].
    split; [|split; reflexivity].
    intros name v Hin. unfold allow_headers in Hin. cbn.
    apply elem_of_cons in Hin as [[= -> ->]|Hin].
    { rewrite !lookup_insert_ne by discriminate. apply lookup_insert_eq. }
    apply elem_of_cons in Hin as [[= -> ->]|Hin].
    { rewrite lookup_insert_ne by discriminate. apply lookup_insert_eq. }
    apply elem_of_cons in Hin as [[= -> ->]|Hin].
    { apply lookup_insert_eq. }
    inversion Hin.
Qed.

End DenialFacts.

Section QuotaWitnesses.

Import RateLimiter QuotaRuns QuotaDenial QuotaSamples.

Lemma quota_never_exceeds_limit_within_window_witness :
  window_open "user:42" 1699999980000 ∅ = false
  /\ map (fun e => allowed <$> snd e) (run two_per_minute three_in_a_minute ∅)
     = [Some true; Some true; Some false]
  /\ allowed_count "user:42" (run two_per_minute three_in_a_minute ∅) <= Z.max 0 2.
Proof.
  split; [reflexivity|]. split; [vm_compute; reflexivity|].
  apply (quota_never_exceeds_limit_within_window two_per_minute "user:42"
           {| windowMs := 60000; maxRequests := 2 |} 1699999980000
           three_in_a_minute ∅); [|reflexivity].
  intros req now u Hin Hu Hk.
  apply list_elem_of_In in Hin. cbn in Hin.
  destruct Hin as [[= <- <-]|[[= <- <-]|[[= <- <-]|[]]]];
    injection Hu as <-; split; vm_compute; reflexivity.
Defined.

Lemma quota_denial_answers_429_with_quota_in_body_witness :
  exists q,
    q_limit q = 500 /\ q_remaining q = 0
    /\ fst (middleware default_config Passed Passed alice_request plain_response
              denial_time exhausted)
       = Sent {| statusCode := 429;
                 headers := ∅;
                 body := Some {| d_error := "Quota Exceeded";
                                 d_message := Some "Quota exceeded"%string;
                                 d_quota := Some q;
                                 d_requestId := "r-1" |} |}.
Proof.
  destruct (proj1 (quota_denial_answers_429_with_quota_in_body default_config
                     Passed Passed alice_request plain_response plain_response
                     plain_response denial_time exhausted
                     _ _ eq_refl eq_refl eq_refl
                     ltac:(vm_compute; reflexivity)) eq_refl)
    as (q & Hq & Hrem & Hrun).
  exists q. split.
  - vm_compute in Hq. injection Hq as <-. reflexivity.
  - split; [exact Hrem|]. rewrite Hrun. reflexivity.
Defined.

End QuotaWitnesses.

(** ** The assembled stack *)

Section GatewayFacts.

Import ApiGateway.

Context {Props : Type}.

Implicit Types (h : Stage -> Ctx Props -> Outcome Props) (r : RequestLine)
  (ls : list Layer) (ctx : Ctx Props).

(** The stages that run are an initial part of the stages whose mount
    point matches the request, in the order of registration. *)
Lemma dispatch_prefix_of_matched h r ls : forall ctx,
  map fst (dispatch h r ls ctx) `prefix_of` map stage (List.filter (matched r) ls).
Proof.
  induction ls as [|l ls IH]; intros ctx; cbn.
  - reflexivity.
  - unfold matched at 1. destruct (matches (mount l) r); cbn.
    + apply prefix_cons. destruct (h (stage l) ctx); [apply IH | apply prefix_nil].
    + apply IH.
Qed.

Lemma filter_sublist {A} (P : A -> bool) (l : list A) : List.filter P l `sublist_of` l.
Proof.
  induction l as [|x l IH]; cbn; [constructor|].
  destruct (P x); [apply sublist_skip | apply sublist_cons]; exact IH.
Qed.

Lemma map_sublist {A B} (f : A -> B) (l k : list A) :
  l `sublist_of` k -> map f l `sublist_of` map f k.
Proof. induction 1; cbn; [constructor | apply sublist_skip | apply sublist_cons]; auto. Qed.

Lemma dispatch_sublist h r ls ctx :
  map fst (dispatch h r ls ctx) `sublist_of` map stage ls.
Proof.
  destruct (dispatch_prefix_of_matched h r ls ctx) as [k Hk].
  etrans; [|apply map_sublist, (filter_sublist (matched r))].
  rewrite Hk. apply sublist_inserts_r. reflexivity.
Qed.

Lemma Stage_eqb_eq a b : Stage_eqb a b = true <-> a = b.
Proof. unfold Stage_eqb. destruct (Stage_eq_dec a b); split; congruence. Qed.

Lemma runs_beforeb_sound a b tr : runs_beforeb a b tr = true -> runs_before a b tr.
Proof.
  unfold runs_before. induction tr as [|s tr IH]; cbn; intros H before after Heq.
  - destruct before; discriminate.
  - apply andb_true_iff in H as [Hhd Htl].
    destruct before as [|s' before]; cbn in Heq; injection Heq as -> ->.
    + intros Hin. destruct (Stage_eqb b b) eqn:Hb.
      * apply negb_true_iff in Hhd.
        assert (existsb (Stage_eqb a) after = true); [|congruence].
        apply existsb_exists. exists a. split.
        -- apply list_elem_of_In. exact Hin.
        -- apply Stage_eqb_eq. reflexivity.
      * assert (Stage_eqb b b = true) by (apply Stage_eqb_eq; reflexivity). congruence.
    + eapply IH; [exact Htl | reflexivity].
Qed.

Lemma runs_before_sublist a b tr tr' :
  tr `sublist_of` tr' -> runs_before a b tr' -> runs_before a b tr.
Proof.
  unfold runs_before. intros Hsub H before after -> Hin.
  apply sublist_app_l in Hsub as (k1 & k2 & -> & _ & Hsub).
  apply sublist_cons_l in Hsub as (k3 & k4 & -> & Hsub).
  apply (H (k1 ++ k3) k4); [rewrite <- app_assoc; reflexivity|].
  eapply elem_of_sublist; eassumption.
Qed.


Lemma in_orderb_sound order tr : in_orderb order tr = true -> in_order order tr.
Proof.
  unfold in_order. induction order as [|x order IH]; cbn; intros H i j a b Hi Hj Hlt.
  - destruct i; discriminate.
  - apply andb_true_iff in H as [Hx Hrest].
    destruct j as [|j]; [lia|]. cbn in Hj.
    destruct i as [|i]; cbn in Hi.
    + injection Hi as ->. apply runs_beforeb_sound.
      rewrite forallb_forall in Hx. apply Hx.
      apply list_elem_of_In, list_elem_of_lookup. eauto.
    + apply (IH Hrest i j); auto. lia.
Qed.

Lemma in_order_sublist order tr tr' :
  tr `sublist_of` tr' -> in_order order tr' -> in_order order tr.
Proof.
  unfold in_order. intros Hsub H i j a b Hi Hj Hlt.
  eapply runs_before_sublist; eauto.
Qed.

Lemma filter_map_filter (P : Stage -> bool) (Q : Layer -> bool) ls :
  List.filter P (map stage (List.filter Q ls))
  = map stage (List.filter (fun l => P (stage l) && Q l) ls).
Proof.
  induction ls as [|l ls IH]; cbn; [reflexivity|].
  destruct (Q l); cbn; destruct (P (stage l)); cbn; rewrite ?IH; reflexivity.
Qed.

Lemma filter_prefix {A} (P : A -> bool) (l k : list A) :
  l `prefix_of` k -> List.filter P l `prefix_of` List.filter P k.
Proof. intros [t ->]. rewrite List.filter_app. eexists. reflexivity. Qed.

(** The pipeline stages among the layers that match a request. *)
Lemma pipeline_stages_matched config r :
  List.filter is_pipeline_stage (map stage (List.filter (matched r) (app config)))
  = (if rateLimit_enabled config then [RateLimit] else [])
    ++ [Security; RequestTransform]
    ++ (if matches (Under ["api"%string]) r
        then [Authenticate; CacheLookup; CircuitBreakerGate; RouterMw] else []).
Proof.
  rewrite filter_map_filter. unfold matched.
  destruct config as [[] []]; cbn -[matches];
    change (matches Everywhere r) with true; cbn -[matches];
    destruct (matches (Under ["api"%string]) r); reflexivity.
Qed.

(** C1, as the stack has it.  For every request and whatever the stages
    do, the pipeline stages that run form an initial part of: the Rate
    Limiter (when it is enabled), the Security filter, the Request
    Transformer, Auth, the Cache lookup, the Circuit Breaker gate, Router
    instance selection; in particular they run in that order. *)
Theorem stages_run_in_registration_order config h r ctx :
  List.filter is_pipeline_stage (stages_run config h r ctx)
    `prefix_of` pipeline_order config
  /\ in_order (pipeline_order config) (stages_run config h r ctx).
Proof.
  split.
  - unfold stages_run, handle.
    etrans; [apply filter_prefix, dispatch_prefix_of_matched|].
    rewrite pipeline_stages_matched. unfold pipeline_order.
    apply prefix_app. destruct (matches _ r); cbn.
    + reflexivity.
    + eexists. reflexivity.
  - eapply in_order_sublist; [apply dispatch_sublist|].
    apply in_orderb_sound. destruct config as [[] []]; vm_compute; reflexivity.
Qed.


Lemma dispatch_stage_registered h r ls : forall ctx s c,
  (s, c) ∈ dispatch h r ls ctx -> s ∈ map stage ls.
Proof.
  induction ls as [|l ls IH]; intros ctx s c; cbn.
  - intros H. inversion H.
  - destruct (matches (mount l) r).
    + intros H. apply elem_of_cons in H as [[= -> ->]|H]; [left|].
      right. destruct (h (stage l) ctx); [eapply IH; eauto | inversion H].
    + intros H. right. eapply IH; eauto.
Qed.

(** A property of the request object that the stages registered before
    the only layer of [s0] preserve holds when [s0] runs. *)
Lemma dispatch_guard (P : Ctx Props -> Prop) h r s0 m post pre : forall ctx,
  (forall l c c', l ∈ pre -> P c -> h (stage l) c = Continue c' -> P c') ->
  s0 ∉ map stage pre ->
  s0 ∉ map stage post ->
  P ctx ->
  forall c, (s0, c) ∈ dispatch h r (pre ++ {| mount := m; stage := s0 |} :: post) ctx ->
  P c.
Proof.
  induction pre as [|l pre IH]; intros ctx Hpre Hnot Hpost HP c; cbn.
  - destruct (matches m r).
    + intros H. apply elem_of_cons in H as [[= ->]|H]; [exact HP|].
      destruct (h s0 ctx); [|inversion H].
      apply dispatch_stage_registered in H. contradiction.
    + intros H. apply dispatch_stage_registered in H. contradiction.
  - assert (Hnot' : s0 ∉ map stage pre) by (intros H; apply Hnot; right; exact H).
    assert (Hpre' : forall l c c', l ∈ pre -> P c -> h (stage l) c = Continue c' -> P c')
      by (intros l' c1 c2 Hin; apply Hpre; right; exact Hin).
    destruct (matches (mount l) r).
    + intros H. apply elem_of_cons in H as [[= Heq _]|H].
      { exfalso. apply Hnot. rewrite Heq. left. }
      destruct (h (stage l) ctx) as [ctx'|] eqn:Hh; [|inversion H].
      apply (IH ctx'); auto. eapply Hpre; eauto. left.
    + apply IH; auto.
Qed.

(** C10. Whenever the rate limiter runs in the assembled application the
    request carries no principal: [req.user] is absent on arrival and none
    of the stages registered before the rate limiter assigns it (only
    [authenticate()], registered after it, does).  For such a request
    [checkQuota] answers [allowed] without a quota record and leaves the
    quota table alone, and the middleware, once the two IP limiters have
    let the request pass, calls [next()] without touching the response. *)
Theorem rate_limiter_runs_before_any_principal config h r ctx :
  user ctx = None ->
  (forall s c c', s ∈ before_rate_limiter -> h s c = Continue c' -> user c' = user c) ->
  forall c, (RateLimit, c) ∈ handle config h r ctx ->
    user c = None
    /\ (forall cfg id now quotas,
          RateLimiter.checkQuota cfg
            {| RateLimiter.user := user c; RateLimiter.requestId := id |} now quotas
          = (Some {| RateLimiter.allowed := true; RateLimiter.quota := None;
                     RateLimiter.message := None |}, quotas))
    /\ (forall cfg id now quotas globalLimiter slowDownLimiter res res1 res2,
          RateLimiter.enabled cfg = true ->
          globalLimiter res = RateLimiter.Passed res1 ->
          slowDownLimiter res1 = RateLimiter.Passed res2 ->
          RateLimiter.middleware cfg globalLimiter slowDownLimiter
            {| RateLimiter.user := user c; RateLimiter.requestId := id |} res now quotas
          = (RateLimiter.Next res2, quotas)).
Proof.
  intros Hctx Hpre c Hin.
  assert (Hc : user c = None).
  { unfold handle in Hin. destruct config as [[] docs].
    - revert c Hin.
      apply (dispatch_guard (fun c => user c = None) h r RateLimit Everywhere
               (use [Security] ++ use [RequestTransform]
                ++ setupRoutes {| rateLimit_enabled := true; documentation_enabled := docs |}
                ++ setupErrorHandling
                     {| rateLimit_enabled := true; documentation_enabled := docs |})
               (use before_rate_limiter)).
      + intros l c c' Hl HP Hh. rewrite <- HP. apply (Hpre (stage l)); [|exact Hh].
        apply list_elem_of_In in Hl. apply list_elem_of_In.
        cbn in Hl. cbn. intuition (subst; cbn; auto).
      + intros H. apply list_elem_of_In in H. cbn in H. intuition discriminate.
      + intros H. apply list_elem_of_In in H. destruct docs; cbn in H; intuition discriminate.
      + exact Hctx.
    - apply dispatch_stage_registered in Hin. apply list_elem_of_In in Hin.
      destruct docs; cbn in Hin; intuition discriminate. }
  split; [exact Hc|]. rewrite Hc. split.
  - reflexivity.
  - intros cfg id now quotas gl sl res res1 res2 Hen Hg Hs.
    unfold RateLimiter.middleware. rewrite Hen, Hg, Hs. reflexivity.
Qed.

End GatewayFacts.

Section GatewayWitnesses.

Import ApiGateway GatewaySamples.

(** C1 fails on the code: for GET /api/users/42 the Rate Limiter runs
    eighth and the Security filter ninth, so the Security filter runs
    after the Rate Limiter, not before it. *)
Lemma specified_order_is_not_the_order_run :
  stages_run both_enabled proxying get_user_42 anonymous
  = [Helmet; Cors; Compression; CookieParser; JsonBody; UrlencodedBody;
     RequestLogging; RateLimit; Security; RequestTransform; Authenticate;
     CacheLookup; CacheInvalidation; CircuitBreakerGate; RouterMw]
  /\ ~ runs_before Security RateLimit
         (stages_run both_enabled proxying get_user_42 anonymous)
  /\ ~ in_order specified_order
         (stages_run both_enabled proxying get_user_42 anonymous).
Proof.
  assert (Hrun : stages_run both_enabled proxying get_user_42 anonymous
                 = [Helmet; Cors; Compression; CookieParser; JsonBody; UrlencodedBody;
                    RequestLogging]
                   ++ RateLimit
                      :: [Security; RequestTransform; Authenticate; CacheLookup;
                          CacheInvalidation; CircuitBreakerGate; RouterMw])
    by (vm_compute; reflexivity).
  assert (Hnot : ~ runs_before Security RateLimit
                     (stages_run both_enabled proxying get_user_42 anonymous)).
  { intros H. apply (H _ _ Hrun). left. }
  split; [exact Hrun|]. split; [exact Hnot|].
  intros H. apply Hnot. apply (H 0%nat 1%nat); [reflexivity | reflexivity | lia].
Qed.

Lemma rate_limiter_runs_before_any_principal_witness :
  user anonymous = None
  /\ (RateLimit, anonymous) ∈ handle both_enabled proxying get_user_42 anonymous
  /\ (forall cfg id now quotas,
        RateLimiter.checkQuota cfg
          {| RateLimiter.user := user anonymous; RateLimiter.requestId := id |} now quotas
        = (Some {| RateLimiter.allowed := true; RateLimiter.quota := None;
                   RateLimiter.message := None |}, quotas)).
Proof.
  assert (Hin : (RateLimit, anonymous)
                ∈ handle both_enabled proxying get_user_42 anonymous).
  { vm_compute. do 7 right. left. }
  split; [reflexivity|]. split; [exact Hin|].
  refine (proj1 (proj2 (rate_limiter_runs_before_any_principal both_enabled proxying
                          get_user_42 anonymous eq_refl _ anonymous Hin))).
  intros s c c' Hs. apply list_elem_of_In in Hs. cbn in Hs.
  destruct Hs as [<-|[<-|[<-|[<-|[<-|[<-|[<-|[]]]]]]]]; cbn; congruence.
Defined.

End GatewayWitnesses.

(** ** The response cache *)

Section CacheFacts.

Import Cache CacheSamples.

(** C5 on the code: GET /api/users?a=1&b=2 and GET /api/users?b=2&a=1,
    the same request but for the order of the query, get different keys
    from [generateCacheKey], which serializes the query in the order it
    came. *)
Theorem generateCacheKey_depends_on_query_order :
  method get_ab = method get_ba
  /\ path get_ab = path get_ba
  /\ headers get_ab = headers get_ba
  /\ query get_ab ≡ₚ query get_ba
  /\ generateCacheKey default_config get_ab
     = "gateway:R0VUOi9hcGkvdXNlcnM/YT0xJmI9Mg=="%string
  /\ generateCacheKey default_config get_ba
     = "gateway:R0VUOi9hcGkvdXNlcnM/Yj0yJmE9MQ=="%string
  /\ generateCacheKey default_config get_ab <> generateCacheKey default_config get_ba.
Proof.
  repeat split; try reflexivity.
  - apply Permutation_swap.
  - vm_compute. discriminate.
Qed.

(** The key does not look at the headers at all. *)
Lemma generateCacheKey_ignores_headers cfg req hs :
  generateCacheKey cfg
    {| method := method req; path := path req; query := query req;
       headers := hs; requestId := requestId req |}
  = generateCacheKey cfg req.
Proof. reflexivity. Qed.

Lemma get_keeps_settings key now m :
  config (snd (get key now m)) = config m
  /\ isConnected (snd (get key now m)) = isConnected m
  /\ redis_ok (snd (get key now m)) = redis_ok m.
Proof.
  unfold get, getFromMemory.
  destruct (isConnected m) eqn:Hcon.
  - destruct (redis_ok m) eqn:Hok; [|cbn; auto].
    destruct (redis m !! key) as [[v e]|]; [destruct (now <? e)|]; cbn; auto.
  - destruct (memoryTTL m !! key) as [t|]; [|cbn; auto].
    destruct (negb (t =? 0) && (t <? now)); cbn; auto.
Qed.

(** On a miss every response with a cacheable status is stored, whatever
    its headers say. *)
Lemma miss_is_cached_whatever_the_headers req res body t0 t1 m :
  enabled (config m) = true ->
  isCacheable (config m) req = true ->
  includes_Z (statusCode res) (cacheableStatusCodes (config m)) = true ->
  fst (get (generateCacheKey (config m) req) t0 m) = None ->
  (isConnected m = true -> redis_ok m = true) ->
  stored (generateCacheKey (config m) req) (serve req res body t0 t1 m)
  = Some {| cd_status := statusCode res;
            cd_headers := getResponseHeaders res;
            cd_body := body;
            cd_timestamp := t1;
            cd_path := path req;
            cd_method := method req |}.
Proof.
  intros Hen Hc Hst Hmiss Hok. unfold serve, middleware. rewrite Hen, Hc. cbn.
  destruct (get (generateCacheKey (config m) req) t0 m) as [[v|] m'] eqn:Hget;
    cbn in Hmiss; [discriminate|]. clear Hmiss.
  pose proof (get_keeps_settings (generateCacheKey (config m) req) t0 m) as Hm'.
  rewrite Hget in Hm'. cbn in Hm'.
  destruct Hm' as (Hcfg & Hconn & Hrok).
  unfold send, cacheResponse. cbn. rewrite Hcfg, Hst. cbn.
  unfold stored, set, setInMemory. cbn. rewrite Hconn, Hrok.
  destruct (isConnected m) eqn:Hcon; cbn.
  - rewrite (Hok eq_refl). cbn. rewrite Hconn, lookup_insert_eq. reflexivity.
  - rewrite Hconn. apply lookup_insert_eq.
Qed.

(** C6 on the code: a GET without sensitive headers is answered 200 with
    [Cache-Control: no-store]; [CacheUtils.isResponseCacheable] says the
    response must not be cached, and the write path stores it all the
    same. *)
Theorem no_store_response_is_cached :
  isCacheable default_config get_products = true
  /\ includes_Z (statusCode no_store_response) (cacheableStatusCodes default_config) = true
  /\ isResponseCacheable (res_headers no_store_response) = false
  /\ stored (generateCacheKey default_config get_products) empty_manager = None
  /\ stored (generateCacheKey default_config get_products)
       (serve get_products no_store_response "[]" 1000 1040 empty_manager)
     = Some {| cd_status := 200;
               cd_headers := [("content-type", "application/json");
                              ("cache-control", "no-store")]%string;
               cd_body := "[]";
               cd_timestamp := 1040;
               cd_path := "/api/products";
               cd_method := "GET" |}.
Proof. repeat split; vm_compute; reflexivity. Qed.

End CacheFacts.

(** ** The utility key *)

Section KeyOrder.

Import Cache.

Lemma string_leb_trans s1 : forall s2 s3,
  String.compare s1 s2 <> Gt -> String.compare s2 s3 <> Gt -> String.compare s1 s3 <> Gt.
Proof.
  induction s1 as [|a s1 IH]; intros [|b s2] [|d s3]; cbn [String.compare];
    try congruence.
  unfold Ascii.compare.
  destruct (N.compare_spec (N_of_ascii a) (N_of_ascii b)) as [Hab|Hab|Hab];
    destruct (N.compare_spec (N_of_ascii b) (N_of_ascii d)) as [Hbd|Hbd|Hbd];
    intros H1 H2; try congruence.
  - rewrite Hab, Hbd, N.compare_refl. eapply IH; eauto.
  - rewrite Hab. apply N.compare_lt_iff in Hbd. rewrite Hbd. discriminate.
  - rewrite <- Hbd. apply N.compare_lt_iff in Hab. rewrite Hab. discriminate.
  - assert (H : (N_of_ascii a ?= N_of_ascii d)%N = Lt)
      by (apply N.compare_lt_iff; lia). rewrite H. discriminate.
Qed.

#[local] Instance key_le_total : Total key_le.
Proof. intros a b. apply String.leb_total. Qed.

#[local] Instance key_le_antisym : AntiSymm (=) key_le.
Proof. intros a b. apply String.leb_antisym. Qed.

#[local] Instance key_le_trans : Transitive key_le.
Proof.
  intros a b c. unfold key_le, String.leb. intros Hab Hbc.
  pose proof (string_leb_trans a b c) as H.
  destruct (String.compare a b); [| |discriminate];
    destruct (String.compare b c); try discriminate;
    destruct (String.compare a c); try reflexivity;
    exfalso; apply H; congruence.
Qed.

(** Sorting forgets the order in which the keys came. *)
Lemma sorted_keys_Permutation (q1 q2 : list (string * string)) :
  q1 ≡ₚ q2 -> sorted_keys q1 = sorted_keys q2.
Proof.
  intros Hp. unfold sorted_keys.
  apply (Sorted_unique key_le); try apply Sorted_merge_sort; try apply _.
  rewrite !merge_sort_Permutation. apply Permutation_map. exact Hp.
Qed.

Lemma prop_unique (q : list (string * string)) k v :
  NoDup (map fst q) -> (k, v) ∈ q -> prop q k = v.
Proof.
  unfold prop. induction q as [|[k' v'] q IH]; cbn; intros Hnd Hin.
  - inversion Hin.
  - apply NoDup_cons in Hnd as [Hk' Hnd].
    apply elem_of_cons in Hin as [[= -> ->]|Hin].
    + rewrite String.eqb_refl. reflexivity.
    + destruct (String.eqb k' k) eqn:Heq.
      * apply String.eqb_eq in Heq. subst k'. exfalso. apply Hk'.
        apply list_elem_of_In, in_map_iff. exists (k, v). split; [reflexivity|].
        apply list_elem_of_In. exact Hin.
      * apply IH; assumption.
Qed.

(** X17. [CacheUtils.generateKey] gives one key to all orders of a query. *)
Lemma generateKey_forgets_query_order md5 prefix method path q1 q2 hs :
  NoDup (map fst q1) ->
  q1 ≡ₚ q2 ->
  generateKey md5 prefix method path q1 hs = generateKey md5 prefix method path q2 hs.
Proof.
  intros Hnd Hp. unfold generateKey.
  rewrite (sorted_keys_Permutation q1 q2 Hp).
  assert (Hnd2 : NoDup (map fst q2)).
  { assert (Hk : map fst q1 ≡ₚ map fst q2) by (apply Permutation_map; exact Hp).
    rewrite <- Hk. exact Hnd. }
  assert (Hmap : map (fun k => (k, prop q1 k)) (sorted_keys q2)
                 = map (fun k => (k, prop q2 k)) (sorted_keys q2)).
  { apply map_ext_in. intros k Hk. f_equal.
    assert (Hk2 : k ∈ map fst q2).
    { apply list_elem_of_In in Hk. unfold sorted_keys in Hk.
      rewrite merge_sort_Permutation in Hk. exact Hk. }
    apply list_elem_of_In, in_map_iff in Hk2 as ([k' v] & Hfst & Hin2).
    cbn in Hfst. subst k'. apply list_elem_of_In in Hin2.
    rewrite (prop_unique q2 k v Hnd2 Hin2).
    apply prop_unique; [exact Hnd|]. rewrite Hp. exact Hin2. }
  rewrite Hmap. reflexivity.
Qed.

End KeyOrder.


(** * Further facts *)

(** ** Strings *)

Section StringFacts.

Lemma string_prefix_nil s : String.prefix "" s = true.
Proof. destruct s; reflexivity. Qed.

Lemma string_prefix_cons a b s t :
  String.prefix (String a s) (String b t) = Ascii.eqb a b && String.prefix s t.
Proof.
  cbn. destruct (Ascii.ascii_dec a b) as [->|Hne].
  - rewrite Ascii.eqb_refl. reflexivity.
  - apply Ascii.eqb_neq in Hne. rewrite Hne. reflexivity.
Qed.

Lemma string_prefix_trans a : forall b c,
  String.prefix a b = true -> String.prefix b c = true -> String.prefix a c = true.
Proof.
  induction a as [|x a IH]; intros b c Hab Hbc; [destruct c; reflexivity|].
  destruct b as [|y b]; [discriminate|]. destruct c as [|z c]; [discriminate|].
  cbn in *. destruct (Ascii.ascii_dec x y) as [->|]; [|discriminate].
  destruct (Ascii.ascii_dec y z) as [->|]; [|discriminate].
  eapply IH; eauto.
Qed.

Lemma includes_str_elem x l : Cache.includes_str x l = true <-> x ∈ l.
Proof.
  unfold Cache.includes_str. rewrite existsb_exists. split.
  - intros (y & Hin & Heq). apply String.eqb_eq in Heq. subst y.
    apply list_elem_of_In, Hin.
  - intros Hin. exists x. split; [apply list_elem_of_In, Hin | apply String.eqb_refl].
Qed.

End StringFacts.

(** ** The circuit breaker: the other transitions and the book-keeping *)

Section BreakerLogic.

Import CircuitBreaker BreakerOps.

Lemma triple_ret {A} (a : A) (Q : A -> Breaker -> Prop) E :
  triple (Q a) (ret a) Q E.
Proof. intros b H. exact H. Qed.

Lemma triple_throw {A} e (Q : A -> Breaker -> Prop) (E : Error -> Breaker -> Prop) :
  triple (E e) (throw e) Q E.
Proof. intros b H. exact H. Qed.

Lemma triple_bind {A B} P (m : M A) (k : A -> M B) Q R E :
  triple P m Q E -> (forall a, triple (Q a) (k a) R E) -> triple P (bind m k) R E.
Proof.
  intros Hm Hk b HP. unfold bind. specialize (Hm b HP).
  destruct (m b) as [[a|e] b']; [apply (Hk a b' Hm) | exact Hm].
Qed.

Lemma triple_try_catch {A} P (m : M A) (h : Error -> M A) Q E E' :
  triple P m Q E' -> (forall e, triple (E' e) (h e) Q E) -> triple P (try_catch m h) Q E.
Proof.
  intros Hm Hh b HP. unfold try_catch. specialize (Hm b HP).
  destruct (m b) as [[a|e] b']; [exact Hm | apply (Hh e b' Hm)].
Qed.

Lemma triple_gets {A} (f : Breaker -> A) (Q : A -> Breaker -> Prop) E :
  triple (fun b => Q (f b) b) (gets f) Q E.
Proof. intros b H. exact H. Qed.

Lemma triple_modify f (Q : unit -> Breaker -> Prop) E :
  triple (fun b => Q tt (f b)) (modify f) Q E.
Proof. intros b H. exact H. Qed.

Lemma triple_weaken {A} (P P' : Breaker -> Prop) (m : M A)
    (Q Q' : A -> Breaker -> Prop) (E E' : Error -> Breaker -> Prop) :
  triple P' m Q' E' ->
  (forall b, P b -> P' b) ->
  (forall a b, Q' a b -> Q a b) ->
  (forall e b, E' e b -> E e b) ->
  triple P m Q E.
Proof.
  intros Hm HP HQ HE b Hb. specialize (Hm b (HP b Hb)).
  destruct (m b) as [[a|e] b']; auto.
Qed.


Section Invariant.

Variable clock : nat -> Z.

Variable J : Z -> Stats -> Prop.

Hypothesis J_new : J 0 new_stats.
Hypothesis J_change : forall d sc s, J d s -> J d (push_change sc s).
Hypothesis J_timeout : forall d s, J d s -> J d (bump_totalTimeouts s).
Hypothesis J_request : forall d s, J d s -> J (d + 1) (bump_totalRequests s).
Hypothesis J_success : forall d s, J d s -> J (d - 1) (bump_totalSuccesses s).
Hypothesis J_failure : forall d m t s, J d s -> J (d - 1) (note_failure m t s).

Local Notation "'Inv0'" := (BreakerOps.Inv0 J).
Local Notation "'Inv'" := (BreakerOps.Inv J).
Local Notation "'thrown'" := (BreakerOps.thrown J).

Lemma paired_lookup b svc :
  paired b -> is_Some (circuits b !! svc) -> is_Some (stats b !! svc).
Proof. unfold paired. intros Hp Hc. apply elem_of_dom. rewrite <- Hp. apply elem_of_dom, Hc. Qed.

Lemma Inv_Inv0 svc b : Inv svc 0 b -> Inv0 b.
Proof.
  intros (Hp & _ & HJ). split; [exact Hp|]. intros svc' s Hs.
  specialize (HJ svc' s Hs). destruct (decide (svc' = svc)); exact HJ.
Qed.

Lemma Inv0_Inv svc b : Inv0 b -> is_Some (circuits b !! svc) -> Inv svc 0 b.
Proof.
  intros (Hp & HJ) Hc. split; [exact Hp|]. split; [exact Hc|]. intros svc' s Hs.
  destruct (decide (svc' = svc)); apply (HJ svc' s Hs).
Qed.

Lemma Inv_tables svc d b b' :
  circuits b' = circuits b -> stats b' = stats b -> Inv svc d b -> Inv svc d b'.
Proof. unfold BreakerOps.Inv, paired. intros -> ->. auto. Qed.

Lemma triple_Date_now (Q : Z -> Breaker -> Prop) E :
  triple (fun b => forall b', circuits b' = circuits b -> stats b' = stats b ->
                             Q (clock (reads b)) b')
    (Date_now clock) Q E.
Proof. intros b H. apply H; reflexivity. Qed.

Lemma Date_now_Inv svc d E :
  triple (Inv svc d) (Date_now clock) (fun _ => Inv svc d) E.
Proof. intros b H. eapply Inv_tables; [| |exact H]; reflexivity. Qed.

Lemma getCircuit_Inv svc d E :
  triple (Inv svc d) (getCircuit clock svc)
    (fun c b => Inv svc d b /\ circuits b !! svc = Some c) E.
Proof.
  intros b H. unfold getCircuit, bind, gets. cbn.
  destruct H as (Hp & [c Hc] & HJ). rewrite Hc. cbn.
  split; [|exact Hc]. split; [exact Hp|]. split; [eauto | exact HJ].
Qed.

(** On first use the circuit comes with fresh statistics. *)
Lemma getCircuit_Inv0 svc E :
  triple Inv0 (getCircuit clock svc)
    (fun c b => Inv svc 0 b /\ circuits b !! svc = Some c) E.
Proof.
  intros b H. destruct (circuits b !! svc) as [c|] eqn:Hc.
  - apply (getCircuit_Inv svc 0 E b). apply Inv0_Inv; [exact H | rewrite Hc; eauto].
  - unfold getCircuit, bind, gets, modify, ret, Date_now. cbn. rewrite Hc. cbn.
    destruct H as (Hp & HJ). split; [|apply lookup_insert_eq].
    split; [|split].
    + unfold paired in *. cbn. rewrite !dom_insert_L, Hp. reflexivity.
    + cbn. rewrite lookup_insert_eq. eauto.
    + cbn. intros svc' s Hs. destruct (decide (svc' = svc)) as [->|Hne].
      * rewrite lookup_insert_eq in Hs. injection Hs as <-. exact J_new.
      * rewrite lookup_insert_ne in Hs by congruence. eauto.
Qed.

Lemma getStats_Inv svc d E :
  triple (Inv svc d) (getStats svc) (fun _ => Inv svc d) E.
Proof.
  intros b H. unfold getStats, bind, gets. cbn.
  destruct (paired_lookup b svc) as [s Hs]; [apply H | apply H |].
  rewrite Hs. exact H.
Qed.

Lemma update_circuit_Inv svc d f E :
  triple (Inv svc d) (update_circuit svc f) (fun _ => Inv svc d) E.
Proof.
  intros b (Hp & Hc & HJ). unfold update_circuit, modify, set_circuits. cbn.
  split; [|split].
  - unfold paired in *. cbn. rewrite dom_alter_L. exact Hp.
  - cbn. rewrite lookup_alter_eq. destruct Hc as [c ->]. cbn. eauto.
  - exact HJ.
Qed.

Lemma update_stats_Inv svc d d' f E :
  (forall s, J d s -> J d' (f s)) ->
  triple (Inv svc d) (update_stats svc f) (fun _ => Inv svc d') E.
Proof.
  intros Hf b H. unfold update_stats. 
  eapply (triple_bind _ _ _ (fun _ => Inv svc d)); [apply getStats_Inv | | exact H].
  clear b H. intros _ b (Hp & Hc & HJ). unfold modify, set_stats. cbn.
  split; [|split].
  - unfold paired in *. cbn. rewrite dom_alter_L. exact Hp.
  - exact Hc.
  - cbn. intros svc' s Hs. destruct (decide (svc' = svc)) as [->|Hne].
    + rewrite lookup_alter_eq in Hs. destruct (stats b !! svc) as [s0|] eqn:Hs0; [|discriminate].
      cbn in Hs. injection Hs as <-. apply Hf. specialize (HJ svc s0 Hs0).
      destruct (decide (svc = svc)); [exact HJ | congruence].
    + rewrite lookup_alter_ne in Hs by congruence. specialize (HJ svc' s Hs).
      destruct (decide (svc' = svc)); [congruence | exact HJ].
Qed.

Lemma triple_ret_of {A} (a : A) (P : Breaker -> Prop) (Q : A -> Breaker -> Prop) E :
  (forall b, P b -> Q a b) -> triple P (ret a) Q E.
Proof. intros H b Hb. apply H, Hb. Qed.

Ltac step H := eapply triple_bind; [apply H | intros ?].
Ltac stop := apply triple_ret_of; intros ? ?; assumption.

Lemma getCircuit_keeps svc d E :
  triple (Inv svc d) (getCircuit clock svc) (fun _ => Inv svc d) E.
Proof.
  eapply triple_weaken; [apply (getCircuit_Inv svc d E) | auto | intros ? ? [? _]; auto | auto].
Qed.

Lemma transitionToOpen_Inv svc d E :
  triple (Inv svc d) (transitionToOpen clock svc) (fun _ => Inv svc d) E.
Proof.
  unfold transitionToOpen.
  step getCircuit_keeps. step Date_now_Inv. step update_circuit_Inv.
  step getCircuit_keeps. step getStats_Inv. step Date_now_Inv.
  apply update_stats_Inv. intros s. apply J_change.
Qed.

Lemma transitionToHalfOpen_Inv svc d E :
  triple (Inv svc d) (transitionToHalfOpen clock svc) (fun _ => Inv svc d) E.
Proof.
  unfold transitionToHalfOpen.
  step getCircuit_keeps. step Date_now_Inv. step update_circuit_Inv.
  step getStats_Inv. step Date_now_Inv.
  apply update_stats_Inv. intros s. apply J_change.
Qed.

Lemma transitionToClosed_Inv svc d E :
  triple (Inv svc d) (transitionToClosed clock svc) (fun _ => Inv svc d) E.
Proof.
  unfold transitionToClosed.
  step getCircuit_keeps. step Date_now_Inv. step update_circuit_Inv.
  step getStats_Inv. step Date_now_Inv.
  apply update_stats_Inv. intros s. apply J_change.
Qed.

Lemma recordSuccess_from P svc d E :
  triple P (getCircuit clock svc) (fun _ => Inv svc d) E ->
  triple P (recordSuccess clock svc) (fun _ => Inv svc (d - 1)) E.
Proof.
  intros Hfirst. unfold recordSuccess.
  eapply triple_bind; [exact Hfirst | intros ?]. step update_circuit_Inv.
  eapply triple_bind; [apply (update_stats_Inv svc d (d - 1)); intros s; apply J_success | intros ?].
  eapply triple_bind; [apply getCircuit_keeps | intros circuit].
  eapply (triple_bind _ _ _ (fun _ => Inv svc (d - 1))).
  - destruct (state circuit); try stop.
    destruct (_ >=? _)%Z; [apply transitionToClosed_Inv | stop].
  - intros ?. eapply triple_bind; [apply getCircuit_keeps | intros circuit'].
    destruct (state circuit'); try stop. apply update_circuit_Inv.
Qed.

Lemma recordSuccess_Inv svc d E :
  triple (Inv svc d) (recordSuccess clock svc) (fun _ => Inv svc (d - 1)) E.
Proof. apply recordSuccess_from, getCircuit_keeps. Qed.

Lemma recordFailure_from P svc d msg E :
  triple P (getCircuit clock svc) (fun _ => Inv svc d) E ->
  triple P (recordFailure clock svc msg) (fun _ => Inv svc (d - 1)) E.
Proof.
  intros Hfirst. unfold recordFailure.
  eapply triple_bind; [exact Hfirst | intros ?]. step update_circuit_Inv.
  eapply (triple_bind _ _ _ (fun _ => Inv svc d)).
  { step getStats_Inv. apply Date_now_Inv. }
  intros stamp.
  eapply triple_bind; [apply (update_stats_Inv svc d (d - 1)); intros s; apply J_failure | intros ?].
  step Date_now_Inv. step update_circuit_Inv.
  eapply (triple_bind _ _ _ (fun _ => Inv svc (d - 1))).
  { destruct (Js.includes _ _); [|stop].
    apply update_stats_Inv. intros s. apply J_timeout. }
  intros ?. eapply triple_bind; [apply getCircuit_keeps | intros circuit].
  destruct (state circuit); try stop.
  - destruct (should_open circuit); [apply transitionToOpen_Inv | stop].
  - apply transitionToOpen_Inv.
Qed.

Lemma recordFailure_Inv svc d msg E :
  triple (Inv svc d) (recordFailure clock svc msg) (fun _ => Inv svc (d - 1)) E.
Proof. apply recordFailure_from, getCircuit_keeps. Qed.

Lemma getCircuit_opens svc E :
  triple Inv0 (getCircuit clock svc) (fun _ => Inv svc 0) E.
Proof.
  eapply triple_weaken; [apply (getCircuit_Inv0 svc E) | auto | intros ? ? [? _]; auto | auto].
Qed.

Lemma rejectRequest_Inv req svc d E :
  triple (Inv svc d) (rejectRequest clock req svc) (fun _ => Inv svc d) E.
Proof.
  unfold rejectRequest.
  step getCircuit_keeps. step Date_now_Inv. stop.
Qed.

Lemma middleware_Inv0 req E :
  triple Inv0 (middleware clock req) (fun _ => Inv0) E.
Proof.
  unfold middleware.
  eapply (triple_bind _ _ _ (fun _ => Inv0)); [intros b H; exact H | intros on].
  destruct (negb on); [stop|].
  destruct (getServiceName req) as [svc|]; [|stop].
  eapply triple_bind; [apply (getCircuit_Inv0 svc) | intros circuit].
  eapply triple_weaken with (P' := Inv svc 0) (Q' := fun _ => Inv svc 0) (E' := E);
    [ | intros b [H _]; exact H | intros ? b; apply Inv_Inv0 | auto].
  eapply (triple_bind _ _ _ (fun _ => Inv svc 0)).
  - unfold middleware_open_check. destruct (state circuit); try stop.
    step Date_now_Inv. destruct (_ >=? _)%Z.
    + step transitionToHalfOpen_Inv. stop.
    + step rejectRequest_Inv. stop.
  - intros [r|]; [stop|]. step Date_now_Inv. stop.
Qed.

Lemma or_fallback_Inv {V} svc (fallback : option V) e :
  e <> TypeError ->
  triple (Inv svc 0) (or_fallback fallback e) (fun _ => Inv0) thrown.
Proof.
  intros He b H. apply Inv_Inv0 in H. destruct fallback; cbn; [exact H | split; assumption].
Qed.

Lemma execute_Inv0 {V} svc (fn : FnOutcome V) fallback :
  triple Inv0 (execute clock svc fn fallback) (fun _ => Inv0) thrown.
Proof.
  unfold execute.
  eapply triple_bind; [apply (getCircuit_Inv0 svc) | intros circuit].
  eapply triple_weaken with (P' := Inv svc 0) (Q' := fun _ => Inv0) (E' := thrown);
    [ | intros b [H _]; exact H | auto | auto].
  eapply (triple_bind _ _ _
            (fun early b => match early with Some _ => Inv0 b | None => Inv svc 0 b end)).
  { unfold execute_open_check. destruct (state circuit); try stop.
    step Date_now_Inv. destruct (_ >=? _)%Z.
    - step transitionToHalfOpen_Inv. stop.
    - eapply triple_bind; [apply or_fallback_Inv; discriminate | intros v]. stop. }
  intros [v|]; [stop|].
  eapply triple_bind; [apply getCircuit_keeps | intros circuit'].
  eapply (triple_bind _ _ _
            (fun early b => match early with Some _ => Inv0 b | None => Inv svc 0 b end)).
  { destruct (state circuit'); try stop.
    destruct (_ >=? _)%Z.
    - eapply triple_bind; [apply or_fallback_Inv; discriminate | intros v]. stop.
    - step update_circuit_Inv. stop. }
  intros [v|]; [stop|].
  eapply triple_try_catch with (E' := fun e b => e <> TypeError /\ Inv svc 1 b).
  - eapply triple_bind;
      [apply (update_stats_Inv svc 0 1); intros s; apply (J_request 0) | intros ?].
    eapply (triple_bind _ _ _ (fun _ => Inv svc 1)).
    { destruct fn; cbn; intros b H; cbn; try exact H; split; try exact H; discriminate. }
    intros result. step recordSuccess_Inv. 
    intros b H. apply (Inv_Inv0 svc). replace 0 with (1 - 1) by reflexivity. exact H.
  - intros e. intros b [He H]. revert b H.
    change (triple (Inv svc 1) (recordFailure clock svc (error_message e) ;; or_fallback fallback e)%cb (fun _ => Inv0) thrown).
    eapply (triple_bind _ _ _ (fun _ => Inv svc 0));
      [apply (recordFailure_Inv svc 1) | intros ?]. apply or_fallback_Inv. exact He.
Qed.

Lemma reset_Inv0 svc E :
  triple Inv0 (reset svc) (fun _ => Inv0) E.
Proof.
  intros b (Hp & HJ). unfold reset, bind, gets, modify, ret. cbn.
  destruct (circuits b !! svc); cbn; [|split; assumption].
  split.
  - unfold paired in *. cbn. rewrite !dom_delete_L, Hp. reflexivity.
  - cbn. intros svc' s Hs. apply lookup_delete_Some in Hs. apply (HJ svc' s), Hs.
Qed.

Lemma cleanup_Inv0 E :
  triple Inv0 cleanup (fun _ => Inv0) E.
Proof.
  intros b _. cbn. split.
  - unfold paired. cbn. rewrite !dom_empty_L. reflexivity.
  - cbn. intros svc s Hs. rewrite lookup_empty in Hs. discriminate.
Qed.

Lemma perform_Inv0 c :
  (through_the_gate c = false -> forall s, J (0 - 1) s -> J 0 s) ->
  triple Inv0 (perform clock c) (fun _ => Inv0) thrown.
Proof.
  intros Hfree.
  assert (Hback : through_the_gate c = false ->
                  forall svc b, Inv svc (0 - 1) b -> Inv0 b).
  { intros Hc svc b (Hp & _ & HJ). split; [exact Hp|]. intros svc' s Hs.
    specialize (HJ svc' s Hs). destruct (decide (svc' = svc)); auto. }
  destruct c as [req|svc fn fallback|svc|svc msg|svc|svc|]; cbn [perform].
  - step middleware_Inv0. stop.
  - apply execute_Inv0.
  - eapply triple_weaken;
      [apply (recordSuccess_from Inv0 svc 0 thrown), getCircuit_opens
      | auto | intros ? b; apply Hback; reflexivity | auto].
  - eapply triple_weaken;
      [apply (recordFailure_from Inv0 svc 0 msg thrown), getCircuit_opens
      | auto | intros ? b; apply Hback; reflexivity | auto].
  - eapply triple_bind; [apply getCircuit_opens | intros ?].
    apply triple_ret_of. intros b. apply Inv_Inv0.
  - apply reset_Inv0.
  - apply cleanup_Inv0.
Qed.

Lemma perform_all_Inv0 cs :
  Forall (fun c => through_the_gate c = false -> forall s, J (0 - 1) s -> J 0 s) cs ->
  forall b, Inv0 b ->
    Forall sound_outcome (perform_all clock cs b).1 /\ Inv0 (perform_all clock cs b).2.
Proof.
  induction 1 as [|c cs Hc _ IH]; intros b Hb; cbn [perform_all].
  - split; [constructor | exact Hb].
  - pose proof (perform_Inv0 c Hc b Hb) as Hstep.
    destruct (perform clock c b) as [o b1].
    assert (Hb1 : Inv0 b1) by (destruct o; [exact Hstep | apply Hstep]).
    specialize (IH b1 Hb1). destruct (perform_all clock cs b1) as [os b2]. cbn in *.
    split; [|apply IH]. constructor; [|apply IH].
    destruct o; [discriminate|]. destruct Hstep as [He _]. unfold sound_outcome. congruence.
Qed.

End Invariant.

Variable clock : nat -> Z.

(** X1. The tables of circuits and of statistics have the same services after
    every call, whatever calls are made and in whatever order, resets
    included; so no call ends in the TypeError that using the missing
    statistics of a circuit would be. *)
Theorem breaker_tables_stay_paired cs b :
  paired b ->
  Forall sound_outcome (perform_all clock cs b).1
  /\ paired (perform_all clock cs b).2.
Proof.
  intros Hp.
  destruct (perform_all_Inv0 clock (fun _ _ => True)) with (cs := cs) (b := b)
    as [Hos Hb]; auto.
  - apply Forall_forall. auto.
  - split; auto.
  - split; [exact Hos | apply Hb].
Qed.



End BreakerLogic.

(** ** The circuit breaker: runs *)

Section BreakerRuns.

Import CircuitBreaker BreakerOps Scenarios.

Variable clock : nat -> Z.

Ltac unfold_cb :=
  unfold transitionToOpen, transitionToHalfOpen, transitionToClosed,
    update_circuit, update_stats, getCircuit, getStats, Date_now,
    bind, ret, throw, gets, modify, set_circuits, set_stats.

Ltac run_cb Hc Hs :=
  unfold_cb; cbn;
  repeat (rewrite ?lookup_alter_eq, ?lookup_insert_eq, ?Hc, ?Hs; cbn).

Ltac unfold_gate :=
  unfold middleware, middleware_open_check, execute, execute_open_check,
    rejectRequest, or_fallback.

Lemma middleware_all_closed req b :
  all_closed b ->
  passed_on (middleware clock req b).1 /\ all_closed (middleware clock req b).2.
Proof.
  intros Hall. unfold middleware, bind, gets, ret.
  destruct (enabled (cfg b)); cbn [negb]; [|split; [eexists; reflexivity | exact Hall]].
  destruct (getServiceName req) as [svc|]; [|split; [eexists; reflexivity | exact Hall]].
  destruct (circuits b !! svc) as [c|] eqn:Hc.
  - rewrite (getCircuit_known clock svc b c Hc). unfold middleware_open_check.
    rewrite (Hall svc c Hc). cbn. split; [eexists; reflexivity | exact Hall].
  - rewrite (getCircuit_fresh clock svc b Hc). unfold middleware_open_check. cbn.
    split; [eexists; reflexivity|]. intros svc' c'. cbn.
    destruct (decide (svc' = svc)) as [->|Hne].
    + rewrite lookup_insert_eq. intros [= <-]. reflexivity.
    + rewrite lookup_insert_ne by congruence. apply Hall.
Qed.

(** X3. The middleware does not record how requests end, so it never opens a
    circuit: on a breaker whose circuits are all CLOSED, as on a new one,
    and used through [middleware] only, every request is passed on and the
    circuits stay CLOSED. *)
Theorem middleware_alone_never_rejects reqs b :
  all_closed b ->
  Forall passed_on (serve_all clock reqs b).1
  /\ all_closed (serve_all clock reqs b).2.
Proof.
  revert b. induction reqs as [|req reqs IH]; intros b Hall; cbn [serve_all].
  - split; [constructor | exact Hall].
  - destruct (middleware_all_closed req b Hall) as [Hpass Hall1].
    destruct (middleware clock req b) as [o b1]. cbn in Hpass, Hall1.
    specialize (IH b1 Hall1). destruct (serve_all clock reqs b1) as [os b2].
    cbn in *. split; [constructor; [exact Hpass | apply IH] | apply IH].
Qed.

(** A successful call through [execute] on a HALF_OPEN circuit that has
    room for a probe. *)
Lemma execute_probe_succeeds {V} svc b c s (v : V) fallback :
  circuits b !! svc = Some c ->
  stats b !! svc = Some s ->
  state c = HALF_OPEN ->
  Z.of_N (probes c) < c_halfOpenRequests (config c) ->
  exists b' c' s',
    execute clock svc (Resolves v) fallback b = (Ok v, b')
    /\ circuits b' !! svc = Some c'
    /\ stats b' !! svc = Some s'
    /\ config c' = config c
    /\ if Z.of_N (successes c) + 1 >=? c_halfOpenRequests (config c)
       then state c' = CLOSED /\ failures c' = 0%N /\ successes c' = 0%N
            /\ probes c' = 0%N
       else state c' = HALF_OPEN /\ successes c' = (successes c + 1)%N
            /\ probes c' = (probes c + 1)%N.
Proof.
  intros Hc Hs Hst Hroom.
  assert (Hb : (Z.of_N (probes c) >=? c_halfOpenRequests (config c)) = false)
    by (rewrite Z.geb_leb; apply Z.leb_gt; lia).
  unfold_gate. unfold executeWithTimeout, try_catch, recordSuccess. run_cb Hc Hs.
  rewrite Hst. cbn. rewrite Hc. cbn. rewrite Hst, Hb. cbn.
  repeat (rewrite ?lookup_alter_eq, ?Hc, ?Hs; cbn). rewrite Hst. cbn.
  replace (Z.of_N (successes c + 1)) with (Z.of_N (successes c) + 1) by lia.
  destruct (Z.of_N (successes c) + 1 >=? c_halfOpenRequests (config c)); cbn;
    repeat (rewrite ?lookup_alter_eq, ?Hc, ?Hs; cbn); rewrite ?Hst; cbn;
    eexists _, _, _; (split; [reflexivity|]); cbn;
    repeat (rewrite ?lookup_alter_eq, ?Hc, ?Hs; cbn);
    (split; [reflexivity|]); (split; [reflexivity|]); cbn; rewrite ?Hst; auto.
Qed.

Lemma successes_in_half_open svc (n : nat) :
  forall (j k : nat) b c s,
    circuits b !! svc = Some c ->
    stats b !! svc = Some s ->
    state c = HALF_OPEN ->
    successes c = N.of_nat k -> probes c = N.of_nat k ->
    c_halfOpenRequests (config c) = Z.of_nat n ->
    (k < n)%nat -> (k + j <= n)%nat ->
    state_of svc (Some (after_calls clock svc (replicate j (Resolves tt)) b))
    = Some (if (k + j <? n)%nat then HALF_OPEN else CLOSED).
Proof.
  induction j as [|j IH]; intros k b c s Hc Hs Hst Hsucc Hpr Hn Hk Hj.
  - destruct (Nat.ltb_spec (k + 0) n); [|lia].
    cbn. rewrite Hc. cbn. rewrite Hst. reflexivity.
  - cbn [replicate after_calls].
    destruct (execute_probe_succeeds svc b c s tt None Hc Hs Hst)
      as (b' & c' & s' & Hex & Hc' & Hs' & Hcfg & Hcase); [lia|].
    rewrite Hex. cbn [snd].
    destruct (Z.of_N (successes c) + 1 >=? c_halfOpenRequests (config c)) eqn:Hge.
    + rewrite Z.geb_leb in Hge. apply Z.leb_le in Hge.
      assert (j = 0%nat) by lia. subst j.
      destruct (Nat.ltb_spec (k + 1) n); [lia|].
      cbn. rewrite Hc'. cbn. destruct Hcase as (-> & _). reflexivity.
    + rewrite Z.geb_leb in Hge. apply Z.leb_gt in Hge.
      destruct Hcase as (Hst' & Hsucc' & Hpr').
      rewrite (IH (S k) b' c' s' Hc' Hs' Hst'); try lia.
      * replace (S k + j)%nat with (k + S j)%nat by lia. reflexivity.
      * congruence.
Qed.

(** X4. A circuit that has just become HALF_OPEN is closed by its
    [halfOpenRequests]-th successful call through [execute] in a row, and
    not by fewer. *)
Theorem half_open_closes_after_limit_successes svc b c s (n j : nat) :
  circuits b !! svc = Some c ->
  stats b !! svc = Some s ->
  state c = HALF_OPEN ->
  successes c = 0%N -> probes c = 0%N ->
  c_halfOpenRequests (config c) = Z.of_nat n ->
  (0 < n)%nat -> (j <= n)%nat ->
  state_of svc (Some (after_calls clock svc (replicate j (Resolves tt)) b))
  = Some (if (j <? n)%nat then HALF_OPEN else CLOSED).
Proof.
  intros Hc Hs Hst Hsucc Hpr Hn Hpos Hj.
  apply (successes_in_half_open svc n j 0 b c s); auto.
Qed.

(** X5. One failed call through [execute] on a HALF_OPEN circuit that has
    room for a probe opens the circuit again, however many probes have
    succeeded before; the caller gets the fallback's value or the error
    of the call. *)
Theorem half_open_failure_reopens {V} svc b c s (fn : FnOutcome V) fallback msg :
  circuits b !! svc = Some c ->
  stats b !! svc = Some s ->
  state c = HALF_OPEN ->
  Z.of_N (probes c) < c_halfOpenRequests (config c) ->
  failure_of fn = Some msg ->
  exists b' c',
    execute clock svc fn fallback b
    = (match fallback with Some v => Ok v | None => Throw (UpstreamError msg) end, b')
    /\ circuits b' !! svc = Some c'
    /\ state c' = OPEN
    /\ probes c' = 0%N
    /\ lastStateChange c' = clock (S (S (reads b))).
Proof.
  intros Hc Hs Hst Hroom Hfn.
  assert (Hb : (Z.of_N (probes c) >=? c_halfOpenRequests (config c)) = false)
    by (rewrite Z.geb_leb; apply Z.leb_gt; lia).
  assert (Hrun : executeWithTimeout fn = throw (UpstreamError msg)).
  { destruct fn; cbn in Hfn; try discriminate; injection Hfn as <-; reflexivity. }
  unfold_gate. unfold try_catch, recordFailure. rewrite Hrun. run_cb Hc Hs.
  rewrite Hst. cbn. rewrite Hc. cbn. rewrite Hst, Hb. cbn.
  repeat (rewrite ?lookup_alter_eq, ?Hc, ?Hs; cbn).
  destruct (Js.includes "timeout" msg); cbn;
    repeat (rewrite ?lookup_alter_eq, ?Hc, ?Hs; cbn); rewrite ?Hst; cbn;
    repeat (rewrite ?lookup_alter_eq, ?Hc, ?Hs; cbn);
    destruct fallback; cbn;
    eexists _, _; (split; [reflexivity|]); cbn;
    repeat (rewrite ?lookup_alter_eq, ?Hc, ?Hs; cbn); auto.
Qed.

(** X6. A call through [execute] on a CLOSED circuit is counted once as a
    request and once as a success or as a failure; a failure is also
    counted as a timeout exactly when its message contains "timeout", as
    the breaker's own timeout does, and leaves its message in
    [lastError]. *)
Theorem execute_counts_the_call {V} svc b c s (fn : FnOutcome V) fallback :
  circuits b !! svc = Some c ->
  stats b !! svc = Some s ->
  state c = CLOSED ->
  exists s',
    stats (execute clock svc fn fallback b).2 !! svc = Some s'
    /\ totalRequests s' = (totalRequests s + 1)%N
    /\ match failure_of fn with
       | None =>
           totalSuccesses s' = (totalSuccesses s + 1)%N
           /\ totalFailures s' = totalFailures s
           /\ totalTimeouts s' = totalTimeouts s
           /\ lastError s' = lastError s
       | Some msg =>
           totalSuccesses s' = totalSuccesses s
           /\ totalFailures s' = (totalFailures s + 1)%N
           /\ totalTimeouts s'
              = (totalTimeouts s + N_of_bool (Js.includes "timeout" msg))%N
           /\ lastError s' = Some (msg, clock (reads b))
       end
    /\ (fn = StillPending -> totalTimeouts s' = (totalTimeouts s + 1)%N).
Proof.
  intros Hc Hs Hst.
  unfold_gate. unfold try_catch, recordSuccess, recordFailure, executeWithTimeout.
  run_cb Hc Hs. rewrite Hst. cbn. rewrite Hc. cbn. rewrite Hst. cbn.
  repeat (rewrite ?lookup_alter_eq, ?Hc, ?Hs, ?Hst; cbn).
  destruct fn as [v|msg|]; cbn;
    repeat (rewrite ?lookup_alter_eq, ?Hc, ?Hs, ?Hst; cbn).
  - eexists. split; [reflexivity|]. cbn. repeat split; try reflexivity. discriminate.
  - destruct (Js.includes "timeout" msg); cbn;
      repeat (rewrite ?lookup_alter_eq, ?Hc, ?Hs, ?Hst; cbn);
      match goal with
      | |- context [should_open ?x] => destruct (should_open x)
      end; cbn;
      repeat (rewrite ?lookup_alter_eq, ?Hc, ?Hs, ?Hst; cbn);
      destruct fallback; cbn;
      repeat (rewrite ?lookup_alter_eq, ?Hc, ?Hs, ?Hst; cbn);
      (eexists; split; [reflexivity|]); cbn; repeat split; try reflexivity;
      try discriminate; lia.
  - match goal with
    | |- context [should_open ?x] => destruct (should_open x)
    end; cbn;
      repeat (rewrite ?lookup_alter_eq, ?Hc, ?Hs, ?Hst; cbn);
      destruct fallback; cbn;
      repeat (rewrite ?lookup_alter_eq, ?Hc, ?Hs, ?Hst; cbn);
      (eexists; split; [reflexivity|]); cbn; repeat split; reflexivity.
Qed.


(** X8. The [retryAfter] of a rejection is at most the reset timeout in
    seconds, rounded up, when the clock does not run backwards; and it is
    at least 1 when the window is still open at the clock reading the
    answer takes. *)
Theorem retryAfter_is_within_the_reset_timeout req svc b c s :
  enabled (cfg b) = true ->
  getServiceName req = Some svc ->
  circuits b !! svc = Some c ->
  stats b !! svc = Some s ->
  state c = OPEN ->
  lastStateChange c <= clock (reads b) <= clock (S (reads b)) ->
  clock (reads b) < lastStateChange c + c_resetTimeout (config c) ->
  exists r b',
    middleware clock req b = (Ok (Sent r), b')
    /\ retryAfter r <= Js.ceil_div (c_resetTimeout (config c)) 1000
    /\ (clock (S (reads b)) < lastStateChange c + c_resetTimeout (config c) ->
        1 <= retryAfter r).
Proof.
  intros Hen Hsvc Hc Hs Hst Hclock Hopen.
  assert (Hb : (clock (reads b) - lastStateChange c >=? c_resetTimeout (config c)) = false)
    by (rewrite Z.geb_leb; apply Z.leb_gt; lia).
  unfold_gate. run_cb Hc Hs. rewrite Hen, Hsvc. cbn.
  rewrite Hc. cbn. rewrite Hst. cbn. rewrite Hb. cbn. rewrite Hc. cbn.
  eexists _, _. split; [reflexivity|]. cbn. unfold Js.ceil_div. split.
  - apply Z.opp_le_mono. rewrite !Z.opp_involutive.
    apply Z.div_le_mono; lia.
  - intros Hstill.
    assert (- (c_resetTimeout (config c) - (clock (S (reads b)) - lastStateChange c)) / 1000 < 0);
      [|lia].
    apply Z.div_lt_upper_bound; lia.
Qed.

End BreakerRuns.

Section BreakerRunWitnesses.

Import CircuitBreaker BreakerOps Samples Scenarios BreakerSamples.

(** X1, on sample inputs.
    Calls of every kind on a new breaker. *)
Lemma breaker_tables_stay_paired_witness :
  Forall sound_outcome (perform_all sample_clock mixed_calls untouched).1
  /\ paired (perform_all sample_clock mixed_calls untouched).2.
Proof.
  apply (breaker_tables_stay_paired sample_clock mixed_calls untouched).
  reflexivity.
Defined.


(** X3, on sample inputs.
    Five requests through the middleware of a new breaker. *)
Lemma middleware_alone_never_rejects_witness :
  Forall passed_on (serve_all sample_clock (replicate 5 users_request) untouched).1
  /\ all_closed (serve_all sample_clock (replicate 5 users_request) untouched).2.
Proof.
  apply (middleware_alone_never_rejects sample_clock (replicate 5 users_request) untouched).
  intros svc c H. discriminate H.
Defined.

(** X4, on sample inputs.
    With [halfOpenRequests = 3] the circuit is still HALF_OPEN after two
    successes and CLOSED after the third. *)
Lemma half_open_closes_after_limit_successes_witness :
  state_of "users"
    (Some (after_calls sample_clock "users" [Resolves tt; Resolves tt]
             (breaker_with (circuit_in HALF_OPEN 0 0 999500))))
  = Some HALF_OPEN
  /\ state_of "users"
       (Some (after_calls sample_clock "users" [Resolves tt; Resolves tt; Resolves tt]
                (breaker_with (circuit_in HALF_OPEN 0 0 999500))))
     = Some CLOSED.
Proof.
  split.
  - apply (half_open_closes_after_limit_successes sample_clock "users"
             (breaker_with (circuit_in HALF_OPEN 0 0 999500))
             (circuit_in HALF_OPEN 0 0 999500) new_stats 3 2);
      first [reflexivity | lia].
  - apply (half_open_closes_after_limit_successes sample_clock "users"
             (breaker_with (circuit_in HALF_OPEN 0 0 999500))
             (circuit_in HALF_OPEN 0 0 999500) new_stats 3 3);
      first [reflexivity | lia].
Defined.

(** X5, on sample inputs.
    A failure after one successful probe opens the circuit at the third
    clock reading. *)
Lemma half_open_failure_reopens_witness :
  exists b' c',
    execute sample_clock "users" (Rejects "500") (@None unit)
      (breaker_with (circuit_in HALF_OPEN 0 1 999500))
    = (Throw (UpstreamError "500"), b')
    /\ circuits b' !! "users"%string = Some c'
    /\ state c' = OPEN
    /\ probes c' = 0%N
    /\ lastStateChange c' = 1000020.
Proof.
  apply (half_open_failure_reopens (V := unit) sample_clock "users"
           (breaker_with (circuit_in HALF_OPEN 0 1 999500))
           (circuit_in HALF_OPEN 0 1 999500) new_stats (Rejects "500") None "500");
    first [reflexivity | vm_compute; reflexivity].
Defined.

(** X6, on sample inputs.
    A call that times out, with a fallback. *)
Lemma execute_counts_the_call_witness :
  exists s',
    stats (execute sample_clock "users" StillPending (Some tt)
             (breaker_with (circuit_in CLOSED 0 0 999500))).2 !! "users"%string = Some s'
    /\ totalRequests s' = 1%N
    /\ totalSuccesses s' = 0%N
    /\ totalFailures s' = 1%N
    /\ totalTimeouts s' = 1%N.
Proof.
  destruct (execute_counts_the_call (V := unit) sample_clock "users"
              (breaker_with (circuit_in CLOSED 0 0 999500))
              (circuit_in CLOSED 0 0 999500) new_stats StillPending (Some tt)
              eq_refl eq_refl eq_refl) as (s' & Hs & Hreq & Hrest & Htimeout).
  exists s'. cbn in Hrest.
  split; [exact Hs|]. split; [exact Hreq|]. split; [apply Hrest|].
  split; [apply Hrest|]. exact (Htimeout eq_refl).
Defined.


(** X8, on sample inputs.
    The circuit opened 500 ms ago with a reset timeout of 1 s: the
    rejection says to retry after 1 s. *)
Lemma retryAfter_is_within_the_reset_timeout_witness :
  exists r b',
    middleware sample_clock users_request (breaker_with (circuit_in OPEN 3 0 999500))
    = (Ok (Sent r), b')
    /\ retryAfter r <= 1
    /\ 1 <= retryAfter r.
Proof.
  destruct (retryAfter_is_within_the_reset_timeout sample_clock users_request "users"
              (breaker_with (circuit_in OPEN 3 0 999500))
              (circuit_in OPEN 3 0 999500) new_stats
              eq_refl ltac:(vm_compute; reflexivity) eq_refl eq_refl eq_refl
              ltac:(vm_compute; split; discriminate)
              ltac:(vm_compute; reflexivity))
    as (r & b' & Hrun & Hmax & Hmin).
  exists r, b'. split; [exact Hrun|]. split; [exact Hmax|].
  apply Hmin. vm_compute. reflexivity.
Defined.

End BreakerRunWitnesses.

(** ** The rate limiter: windows and keys *)

Section LimiterFacts.

Import RateLimiter QuotaRuns LimiterOps.

Lemma span_d_cons a s :
  span_d (String a s)
  = if Ascii.eqb a "d" then (String "d" (span_d s).1, (span_d s).2)
    else (EmptyString, String a s).
Proof.
  destruct a as [[] [] [] [] [] [] [] []]; cbn; try reflexivity.
  destruct (span_d s); reflexivity.
Qed.

Lemma match_here_cons a s :
  match_here (String a s)
  = if Ascii.eqb a "\" then
      match span_d s with
      | (EmptyString, _) => None
      | (ds, rest) =>
          Some (String "\" ds,
                match rest with
                | String a _ => if is_unit a then String a EmptyString else EmptyString
                | EmptyString => EmptyString
                end)
      end
    else None.
Proof. destruct a as [[] [] [] [] [] [] [] []]; reflexivity. Qed.

Lemma match_here_prefix s :
  match match_here s with Some _ => true | None => false end = String.prefix "\d" s.
Proof.
  destruct s as [|a s]; [reflexivity|].
  rewrite match_here_cons, string_prefix_cons, (Ascii.eqb_sym "\"%char a).
  destruct (Ascii.eqb a "\"); [|reflexivity]. cbn [andb].
  destruct s as [|b s]; [reflexivity|].
  rewrite span_d_cons, string_prefix_cons, string_prefix_nil, (Ascii.eqb_sym "d"%char b).
  destruct (Ascii.eqb b "d"); reflexivity.
Qed.

Lemma regex_match_includes s :
  match regex_match s with Some _ => true | None => false end = Js.includes "\d" s.
Proof.
  induction s as [|a s IH].
  - reflexivity.
  - cbn [regex_match Js.includes]. rewrite <- match_here_prefix, <- IH.
    destruct (match_here (String a s)); reflexivity.
Qed.

Lemma match_here_backslash s g1 g2 :
  match_here s = Some (g1, g2) -> exists ds, g1 = String "\" ds.
Proof.
  destruct s as [|a s]; [discriminate|]. rewrite match_here_cons.
  destruct (Ascii.eqb a "\"); [|discriminate].
  destruct (span_d s) as [[|d ds] rest]; [discriminate|].
  intros [= <- _]. eauto.
Qed.

Lemma regex_match_backslash s g1 g2 :
  regex_match s = Some (g1, g2) -> exists ds, g1 = String "\" ds.
Proof.
  induction s as [|a s IH]; cbn [regex_match].
  - cbn. discriminate.
  - destruct (match_here (String a s)) as [[h1 h2]|] eqn:Hm.
    + intros [= <- <-]. apply (match_here_backslash _ _ _ Hm).
    + exact IH.
Qed.

(** Read statement by statement, [parseTimeWindow] is the function the
    quota accountant is modelled with: on a string it returns NaN when
    the pattern matches and null when it does not. *)
Lemma parseTimeWindow_steps_eq window :
  parseTimeWindow_steps window = parseTimeWindow window.
Proof.
  destruct window as [n|s|]; try reflexivity. cbn.
  rewrite <- regex_match_includes.
  destruct (regex_match s) as [[g1 g2]|] eqn:Hm; [|reflexivity].
  destruct (regex_match_backslash _ _ _ Hm) as [ds ->]. reflexivity.
Qed.

(** X9. No window written as a string is ever used: whatever the text, "1h"
    and "30s" included, [parseTimeWindow] gives no number (its pattern
    asks for a backslash before the digits' letter d), and the quota of an
    API key that carries such a window runs on the window of the
    [perApiKey] configuration. *)
Theorem string_window_falls_back_to_default cfg name k s requests :
  (forall n, parseTimeWindow_steps (WString s) <> PNumber n)
  /\ windowMs (quotaConfig cfg
                 (api_user name k {| rl_window := WString s; rl_requests := requests |}))
     = windowMs (perApiKey cfg).
Proof.
  split.
  - intros n. rewrite parseTimeWindow_steps_eq. cbn.
    destruct (Js.includes "\d" s); discriminate.
  - cbn. destruct (Js.includes "\d" s); reflexivity.
Qed.

Lemma checkQuota_counts cfg req u now quotas k ws :
  user req = Some u ->
  quotaKey u = Some k ->
  windowStartOf (windowMs (quotaConfig cfg u)) now = Finite ws ->
  limit_of k ws (quotaConfig cfg u) quotas ->
  exists result q quotas',
    checkQuota cfg req now quotas = (Some result, quotas')
    /\ allowed result = (used k ws quotas <? maxRequests (quotaConfig cfg u))
    /\ quota result = Some q
    /\ q_limit q = maxRequests (quotaConfig cfg u)
    /\ q_remaining q = Z.max 0 (maxRequests (quotaConfig cfg u) - used k ws quotas - 1)
    /\ used k ws quotas' = used k ws quotas + 1
    /\ limit_of k ws (quotaConfig cfg u) quotas'.
Proof.
  intros Hu Hk Hws Hlim. unfold checkQuota, used, limit_of in *. rewrite Hu, Hk, Hws.
  destruct (quotas !! k) as [q|] eqn:Hq;
    [destruct (num_differs (windowStart q) (Finite ws)) eqn:Hd|];
    try specialize (Hlim q eq_refl Hd);
    (eexists _, _, _; split; [reflexivity|]);
    cbn; rewrite !lookup_insert_eq; cbn; rewrite ?Hd, ?Z.eqb_refl, ?Hlim; cbn;
    (split; [apply eq_true_iff_eq; rewrite Z.leb_le, Z.ltb_lt; lia|]);
    (split; [reflexivity|]); cbn; (split; [reflexivity|]); (split; [lia|]);
    (split; [reflexivity|]); intros q' [= <-] _; cbn; auto.
Qed.

Lemma run_counts cfg k qc ws rs : forall quotas i e,
  (forall req now, (req, now) ∈ rs ->
     exists u, user req = Some u /\ quotaKey u = Some k
               /\ quotaConfig cfg u = qc
               /\ windowStartOf (windowMs qc) now = Finite ws) ->
  limit_of k ws qc quotas ->
  run cfg rs quotas !! i = Some e ->
  exists result q,
    e.2 = Some result
    /\ allowed result = (used k ws quotas + Z.of_nat i <? maxRequests qc)
    /\ quota result = Some q
    /\ q_limit q = maxRequests qc
    /\ q_remaining q = Z.max 0 (maxRequests qc - (used k ws quotas + Z.of_nat i) - 1).
Proof.
  induction rs as [|[req now] rs IH]; intros quotas i e Hrs Hlim Hi; [discriminate|].
  destruct (Hrs req now) as (u & Hu & Hk & Hqc & Hws); [left|]. subst qc.
  destruct (checkQuota_counts cfg req u now quotas k ws Hu Hk Hws Hlim)
    as (result & q & quotas' & Hcq & Hal & Hq & Hl & Hrem & Hused & Hlim').
  cbn [run] in Hi. rewrite Hcq in Hi. destruct i as [|i]; cbn in Hi.
  - injection Hi as <-. exists result, q. cbn [snd].
    rewrite Z.add_0_r. auto.
  - destruct (IH quotas' i e) as (result' & q' & He & Hal' & Hq' & Hl' & Hrem');
      [intros r n Hin; apply Hrs; right; exact Hin | exact Hlim' | exact Hi |].
    exists result', q'. rewrite Hused in Hal', Hrem'.
    replace (used k ws quotas + Z.of_nat (S i)) with (used k ws quotas + 1 + Z.of_nat i) by lia.
    auto.
Qed.

(** X10. In a window that the first request opens, the requests of a key are
    allowed up to the limit and refused from then on, none earlier: the
    request number [i] (from 0) is allowed exactly when [i < maxRequests],
    and is told the limit and what is left of it after itself. *)
Theorem quota_allows_exactly_the_limit cfg k qc ws rs quotas i e :
  (forall req now, (req, now) ∈ rs ->
     exists u, user req = Some u /\ quotaKey u = Some k
               /\ quotaConfig cfg u = qc
               /\ windowStartOf (windowMs qc) now = Finite ws) ->
  window_open k ws quotas = false ->
  run cfg rs quotas !! i = Some e ->
  exists result q,
    e.2 = Some result
    /\ allowed result = (Z.of_nat i <? maxRequests qc)
    /\ quota result = Some q
    /\ q_limit q = maxRequests qc
    /\ q_remaining q = Z.max 0 (maxRequests qc - Z.of_nat i - 1).
Proof.
  intros Hrs Hfresh Hi.
  assert (Hused : used k ws quotas = 0).
  { unfold used, window_open in *. destruct (quotas !! k) as [q|]; [|reflexivity].
    apply negb_false_iff in Hfresh. rewrite Hfresh. reflexivity. }
  assert (Hlim : limit_of k ws qc quotas).
  { unfold limit_of, window_open in *. intros q Hq Hd. rewrite Hq, Hd in Hfresh.
    discriminate. }
  destruct (run_counts cfg k qc ws rs quotas i e Hrs Hlim Hi)
    as (result & q & He & Hal & Hq & Hl & Hrem).
  rewrite Hused in Hal, Hrem. cbn in Hal, Hrem. eauto 10.
Qed.

(** X11. The first request of a key after its window has ended finds the
    whole limit again, whatever the old bucket had counted, and is told a
    reset time that lies ahead, at most one window away. *)
Theorem quota_starts_over_in_the_next_window cfg req u k now quotas old ws0 :
  user req = Some u ->
  quotaKey u = Some k ->
  0 < windowMs (quotaConfig cfg u) ->
  quotas !! k = Some old ->
  windowStart old = Finite ws0 ->
  ws0 + windowMs (quotaConfig cfg u) <= now ->
  exists result q reset quotas',
    checkQuota cfg req now quotas = (Some result, quotas')
    /\ allowed result = (1 <=? maxRequests (quotaConfig cfg u))
    /\ quota result = Some q
    /\ q_remaining q = Z.max 0 (maxRequests (quotaConfig cfg u) - 1)
    /\ q_reset q = Finite reset
    /\ now < reset <= now + windowMs (quotaConfig cfg u).
Proof.
  intros Hu Hk Hw Hold Hws0 Hpast.
  set (w := windowMs (quotaConfig cfg u)) in *.
  assert (Hws : windowStartOf w now = Finite (now / w * w)).
  { unfold windowStartOf. destruct (w =? 0) eqn:H0; [apply Z.eqb_eq in H0; lia|].
    reflexivity. }
  pose proof (Z.mul_div_le now w Hw). pose proof (Z.mod_pos_bound now w Hw).
  pose proof (Z.div_mod now w ltac:(lia)).
  assert (Hd : num_differs (windowStart old) (Finite (now / w * w)) = true).
  { rewrite Hws0. cbn. apply negb_true_iff, Z.eqb_neq. lia. }
  unfold checkQuota. rewrite Hu, Hk. fold w. rewrite Hws, Hold, Hd.
  eexists _, _, _, _. split; [reflexivity|]. cbn. fold w.
  repeat split; try reflexivity; lia.
Qed.

Lemma checkQuota_local cfg req now quotas1 quotas2 k :
  key_of req = Some k ->
  quotas1 !! k = quotas2 !! k ->
  (checkQuota cfg req now quotas1).1 = (checkQuota cfg req now quotas2).1
  /\ (checkQuota cfg req now quotas1).2 !! k = (checkQuota cfg req now quotas2).2 !! k.
Proof.
  intros Hk Hsame. apply key_of_Some in Hk as (u & Hu & Hk).
  unfold checkQuota. rewrite Hu, Hk, Hsame. cbn.
  rewrite !lookup_insert_eq. split; reflexivity.
Qed.

Lemma run_of_a_key cfg k rs : forall quotas1 quotas2,
  quotas1 !! k = quotas2 !! k ->
  List.filter (fun e => counted_under k e.1) (run cfg rs quotas1)
  = run cfg (List.filter (fun r => counted_under k r.1) rs) quotas2.
Proof.
  induction rs as [|[req now] rs IH]; intros quotas1 quotas2 Hsame; [reflexivity|].
  cbn [run List.filter fst].
  destruct (checkQuota cfg req now quotas1) as [result quotas1'] eqn:Hcq.
  cbn [List.filter fst]. destruct (counted_under k req) eqn:Hk.
  - apply bool_decide_eq_true in Hk. cbn [run].
    destruct (checkQuota_local cfg req now quotas1 quotas2 k Hk Hsame) as [Hres Htab].
    rewrite Hcq in Hres, Htab. cbn in Hres, Htab.
    destruct (checkQuota cfg req now quotas2) as [result2 quotas2']. cbn in Hres, Htab.
    subst result2. f_equal. apply IH. exact Htab.
  - apply bool_decide_eq_false in Hk. apply IH.
    pose proof (checkQuota_other_key cfg req now quotas1 k Hk) as H.
    rewrite Hcq in H. cbn in H. congruence.
Qed.

(** X12. The answers a key gets do not depend on the traffic of the other
    keys: leaving the requests of all other keys (and the anonymous ones)
    out of a run changes none of them. *)
Theorem quota_of_a_key_ignores_other_keys cfg k rs quotas :
  List.filter (fun e => counted_under k e.1) (run cfg rs quotas)
  = run cfg (List.filter (fun r => counted_under k r.1) rs) quotas.
Proof. apply run_of_a_key. reflexivity. Qed.

End LimiterFacts.

Section LimiterRunWitnesses.

Import RateLimiter QuotaRuns QuotaDenial QuotaSamples LimiterOps.

(** X10, on sample inputs.
    Of three requests in a minute with a limit of two, the third is the
    one turned away. *)
Lemma quota_allows_exactly_the_limit_witness :
  exists e result q,
    run two_per_minute three_in_a_minute ∅ !! 2%nat = Some e
    /\ e.2 = Some result
    /\ allowed result = false
    /\ quota result = Some q
    /\ q_limit q = 2
    /\ q_remaining q = 0.
Proof.
  destruct (run two_per_minute three_in_a_minute ∅ !! 2%nat) as [e|] eqn:He;
    [|vm_compute in He; discriminate He].
  destruct (quota_allows_exactly_the_limit two_per_minute "user:42"
              {| windowMs := 60000; maxRequests := 2 |} 1699999980000
              three_in_a_minute ∅ 2 e) as (result & q & H1 & H2 & H3 & H4 & H5).
  - intros req now Hin. exists alice.
    apply list_elem_of_In in Hin. cbn in Hin.
    destruct Hin as [[= <- <-]|[[= <- <-]|[[= <- <-]|[]]]];
      repeat split; vm_compute; reflexivity.
  - reflexivity.
  - exact He.
  - exists e, result, q. repeat split; assumption.
Defined.

(** X11, on sample inputs.
    The bucket of alice is used up; her first request of the next window
    is allowed again. *)
Lemma quota_starts_over_in_the_next_window_witness :
  exists result q reset quotas',
    checkQuota default_config alice_request 1700000100000 exhausted
    = (Some result, quotas')
    /\ allowed result = true
    /\ quota result = Some q
    /\ q_remaining q = 499
    /\ q_reset q = Finite reset
    /\ 1700000100000 < reset <= 1700000100000 + 900000.
Proof.
  apply (quota_starts_over_in_the_next_window default_config alice_request alice
           "user:42" 1700000100000 exhausted
           {| requests := 500; windowStart := Finite 1699999200000;
              resetTime := Finite 1700000100000; limit := 500 |} 1699999200000);
    first [reflexivity | vm_compute; reflexivity | vm_compute; discriminate].
Defined.

End LimiterRunWitnesses.

(** ** The response cache: expiry, invalidation *)

Section CacheRuns.

Import Cache CacheOps.

Lemma existsb_header_truthy hs h :
  h ∈ sensitiveHeaders -> Js.header_truthy hs h = true ->
  existsb (Js.header_truthy hs) sensitiveHeaders = true.
Proof.
  intros Hin Ht. apply existsb_exists. exists h. split; [|exact Ht].
  apply list_elem_of_In, Hin.
Qed.

(** X13. A request that carries an Authorization, Cookie or x-api-key header
    of any non-empty value, or whose method is not among the cacheable
    ones, goes past the cache: nothing is looked up, nothing is counted,
    and its response is not stored. *)
Theorem credentialed_requests_bypass_the_cache req res body t0 t1 m :
  (exists h, h ∈ sensitiveHeaders /\ Js.header_truthy (headers req) h = true)
  \/ includes_str (method req) (cacheableMethods (config m)) = false ->
  middleware req t0 m = (Bypass, m)
  /\ serve req res body t0 t1 m = m.
Proof.
  intros H.
  assert (Hc : isCacheable (config m) req = false).
  { unfold isCacheable. destruct H as [(h & Hin & Ht)|Hm].
    - rewrite (existsb_header_truthy _ h Hin Ht).
      destruct (negb _); reflexivity.
    - rewrite Hm. reflexivity. }
  assert (Hmw : middleware req t0 m = (Bypass, m)).
  { unfold middleware. rewrite Hc. cbn. rewrite orb_true_r. reflexivity. }
  split; [exact Hmw|]. unfold serve. rewrite Hmw. reflexivity.
Qed.

Lemma or_default_idem x d : Js.or_default (Some (Js.or_default x d)) d = Js.or_default x d.
Proof.
  unfold Js.or_default. destruct x as [v|].
  - destruct (v =? 0) eqn:E.
    + destruct (d =? 0); reflexivity.
    + rewrite E. reflexivity.
  - destruct (d =? 0); reflexivity.
Qed.

(** What a miss followed by a cacheable response leaves in the manager. *)
Lemma serve_on_miss req res body t0 t1 m :
  enabled (config m) = true ->
  isCacheable (config m) req = true ->
  includes_Z (statusCode res) (cacheableStatusCodes (config m)) = true ->
  fst (get (generateCacheKey (config m) req) t0 m) = None ->
  (isConnected m = true -> redis_ok m = true) ->
  let key := generateCacheKey (config m) req in
  let expiry := t1 + ttl_for (config m) (path req) * 1000 in
  let after := serve req res body t0 t1 m in
  config after = config m
  /\ isConnected after = isConnected m
  /\ redis_ok after = redis_ok m
  /\ (isConnected m = true ->
      redis after !! key = Some (entry_of req res body t1, expiry))
  /\ (isConnected m = false ->
      memoryCache after !! key = Some (entry_of req res body t1)
      /\ memoryTTL after !! key = Some expiry).
Proof.
  intros Hen Hc Hst Hmiss Hok key expiry after. subst after expiry.
  unfold serve, middleware. rewrite Hen, Hc. cbn [negb orb]. fold key. fold key in Hmiss.
  destruct (get key t0 m) as [[v|] m'] eqn:Hget; cbn in Hmiss; [discriminate|].
  clear Hmiss.
  pose proof (get_keeps_settings key t0 m) as Hm'.
  rewrite Hget in Hm'. cbn in Hm'. destruct Hm' as (Hcfg & Hconn & Hrok).
  unfold send, cacheResponse. cbn [config with_stats]. rewrite Hcfg, Hst. cbn [negb].
  unfold set, setInMemory, ttl_for. cbn [config isConnected redis_ok with_stats].
  rewrite Hcfg, Hconn, Hrok, or_default_idem.
  destruct (isConnected m) eqn:Hcon.
  - pose proof (Hok eq_refl) as Hok'. rewrite Hok'. cbn. rewrite lookup_insert_eq.
    split; [exact Hcfg|]. split; [exact Hconn|]. split; [congruence|].
    split; [reflexivity | discriminate].
  - cbn. rewrite !lookup_insert_eq.
    split; [exact Hcfg|]. split; [exact Hconn|]. split; [exact Hrok|].
    split; [discriminate | split; reflexivity].
Qed.

(** X14. A response stored on a miss is served to the same request until its
    time to live is over, and not after: the next lookup before
    [t1 + ttl * 1000] is a hit that carries the status, the body and the
    kept headers of the response, a lookup after it is a miss. *)
Theorem cached_response_is_served_until_it_expires req res body t0 t1 t2 m :
  enabled (config m) = true ->
  isCacheable (config m) req = true ->
  includes_Z (statusCode res) (cacheableStatusCodes (config m)) = true ->
  fst (get (generateCacheKey (config m) req) t0 m) = None ->
  (isConnected m = true -> redis_ok m = true) ->
  let expiry := t1 + ttl_for (config m) (path req) * 1000 in
  let after := serve req res body t0 t1 m in
  (t2 < expiry ->
     fst (middleware req t2 after)
     = Hit (generateCacheKey (config m) req) (entry_of req res body t1))
  /\ (expiry < t2 -> expiry <> 0 ->
      fst (middleware req t2 after) = Miss (generateCacheKey (config m) req)).
Proof.
  intros Hen Hc Hst Hmiss Hok expiry after.
  destruct (serve_on_miss req res body t0 t1 m Hen Hc Hst Hmiss Hok)
    as (Hcfg & Hconn & Hrok & Hredis & Hmem).
  fold after in Hcfg, Hconn, Hrok, Hredis, Hmem. fold expiry in Hredis, Hmem.
  unfold middleware, get, getFromMemory. rewrite Hcfg, Hen, Hc, Hconn, Hrok. cbn [negb orb].
  destruct (isConnected m) eqn:Hcon.
  - rewrite (Hok eq_refl), (Hredis eq_refl). split.
    + intros Hlt. apply Z.ltb_lt in Hlt. rewrite Hlt. reflexivity.
    + intros Hgt _. assert (Hn : (t2 <? expiry) = false) by (apply Z.ltb_ge; lia).
      rewrite Hn. reflexivity.
  - destruct (Hmem eq_refl) as [Hval Hexp]. rewrite Hexp. split.
    + intros Hlt. assert (Hn : (expiry <? t2) = false) by (apply Z.ltb_ge; lia).
      rewrite Hn, andb_false_r, Hval. reflexivity.
    + intros Hgt Hnz. apply Z.ltb_lt in Hgt. rewrite Hgt.
      apply Z.eqb_neq in Hnz. rewrite Hnz. reflexivity.
Qed.

Lemma lookup_filter_case {A} (P : string * A -> Prop) `{!forall x, Decision (P x)}
    (m : gmap string A) k :
  filter P m !! k
  = match m !! k with
    | Some x => if decide (P (k, x)) then Some x else None
    | None => None
    end.
Proof.
  destruct (m !! k) as [x|] eqn:Hk.
  - destruct (decide (P (k, x))) as [HP|HP].
    + apply map_lookup_filter_Some. auto.
    + apply map_lookup_filter_None. right. intros y Hy. congruence.
  - apply map_lookup_filter_None. left. exact Hk.
Qed.

(** X15. The periodic sweep of the fallback removes the overdue entries and
    only them, and no later read can tell that it ran: a read at or after
    the time of the sweep finds what it would have found without it. *)
Theorem sweep_is_invisible_to_later_reads key now later m :
  now <= later ->
  memoryTTL m !! key <> Some 0 ->
  fst (getFromMemory key later (sweep now m)) = fst (getFromMemory key later m)
  /\ (forall k expiry, memoryTTL (sweep now m) !! k = Some expiry -> now <= expiry)
  /\ (forall k, overdue now m k = false ->
        memoryCache (sweep now m) !! k = memoryCache m !! k
        /\ memoryTTL (sweep now m) !! k = memoryTTL m !! k).
Proof.
  intros Hle Hnz. unfold sweep, getFromMemory, overdue. cbn. split; [|split].
  - rewrite !lookup_filter_case. cbn.
    destruct (memoryTTL m !! key) as [e|] eqn:He.
    + destruct (e <? now) eqn:Hov.
      * rewrite decide_False by discriminate.
        destruct (memoryCache m !! key); [rewrite decide_False by discriminate|]; cbn.
        all: apply Z.ltb_lt in Hov.
        all: assert (Hex : (e <? later) = true) by (apply Z.ltb_lt; lia).
        all: assert (Hz : (e =? 0) = false) by (apply Z.eqb_neq; congruence).
        all: rewrite Hex, Hz; reflexivity.
      * rewrite decide_True by reflexivity.
        destruct (negb (e =? 0) && (e <? later)); [reflexivity|]. cbn.
        destruct (memoryCache m !! key); [rewrite decide_True by reflexivity|]; reflexivity.
    + destruct (memoryCache m !! key); [rewrite decide_True by reflexivity|]; reflexivity.
  - intros k e Hk. apply map_lookup_filter_Some in Hk as [_ Hk]. cbn in Hk.
    apply Z.ltb_ge in Hk. exact Hk.
  - intros k Hk. rewrite !lookup_filter_case. cbn. rewrite Hk.
    destruct (memoryCache m !! k); [rewrite decide_True by reflexivity|].
    all: destruct (memoryTTL m !! k) as [e|]; [rewrite decide_True by exact Hk|]; auto.
Qed.

Lemma stored_after_invalidate pattern key m :
  stored key (invalidate pattern m)
  = (if Js.includes pattern key
        && (negb (isConnected m)
            || redis_ok m && String.prefix (keyPrefix (config m)) key)
     then None else stored key m)
  /\ cacheStats (invalidate pattern m) = cacheStats m.
Proof.
  unfold invalidate, stored, spared.
  destruct (isConnected m) eqn:Hcon; cbn.
  - destruct (redis_ok m); cbn; rewrite ?Hcon, ?andb_false_r; [|split; reflexivity].
    split; [|reflexivity]. rewrite lookup_filter_case. cbn. rewrite negb_involutive.
    destruct (redis m !! key) as [[v e]|]; cbn.
    + rewrite (andb_comm (Js.includes pattern key)).
      destruct (String.prefix (keyPrefix (config m)) key && Js.includes pattern key);
        [rewrite decide_False by discriminate | rewrite decide_True by reflexivity];
        reflexivity.
    + destruct (_ && _); reflexivity.
  - rewrite Hcon, andb_true_r. split; [|reflexivity]. rewrite lookup_filter_case. cbn.
    destruct (memoryCache m !! key); cbn.
    + destruct (Js.includes pattern key); cbn;
        [rewrite decide_False by discriminate | rewrite decide_True by reflexivity];
        reflexivity.
    + destruct (Js.includes pattern key); reflexivity.
Qed.

End CacheRuns.

(** ** The keys of the cache and the paths of the requests *)

Section EncodedKeys.

Import Cache CacheOps Encoding.

Lemma includes_cons pat a s :
  Js.includes pat (String a s) = String.prefix pat (String a s) || Js.includes pat s.
Proof. reflexivity. Qed.

Lemma string_prefix_app_l p q s : String.prefix (p ++ q) s = true -> String.prefix p s = true.
Proof.
  revert s. induction p as [|a p IH]; intros s; [intros _; apply string_prefix_nil|].
  destruct s as [|b s]; [discriminate|].
  change (String a p ++ q)%string with (String a (p ++ q)).
  rewrite !string_prefix_cons. intros H. apply andb_true_iff in H as [H1 H2].
  rewrite H1. cbn. apply IH, H2.
Qed.

Lemma includes_app_l p q s : Js.includes (p ++ q) s = true -> Js.includes p s = true.
Proof.
  induction s as [|a s IH].
  - cbn [Js.includes]. rewrite !orb_false_r. apply string_prefix_app_l.
  - rewrite !includes_cons. intros H. apply orb_true_iff in H as [H|H].
    + rewrite (string_prefix_app_l _ _ _ H). reflexivity.
    + rewrite (IH H). apply orb_true_r.
Qed.

Lemma includes_past_prefix a p pre s :
  lacks a pre = true ->
  Js.includes (String a p) (pre ++ s) = Js.includes (String a p) s.
Proof.
  induction pre as [|b pre IH]; [reflexivity|].
  cbn [lacks]. intros H. apply andb_true_iff in H as [Hab Hpre].
  change (String b pre ++ s)%string with (String b (pre ++ s)).
  rewrite includes_cons, string_prefix_cons.
  apply negb_true_iff in Hab. rewrite Hab. cbn. apply IH, Hpre.
Qed.

Lemma digit_among_here indices i :
  i ∈ indices -> digit_among indices (base64_digit i) = true.
Proof.
  intros Hin. apply existsb_exists. exists i. split; [apply list_elem_of_In, Hin|].
  apply Ascii.eqb_refl.
Qed.

Lemma first_digit_ok i : (i < 32)%nat -> first_digit (base64_digit i) = true.
Proof. intros Hi. apply digit_among_here, list_elem_of_In, in_seq. lia. Qed.

Lemma second_digit_ok i :
  (i < 64)%nat -> (i mod 16 < 8)%nat -> second_digit (base64_digit i) = true.
Proof.
  intros Hi Hm. apply digit_among_here, list_elem_of_In, filter_In. split.
  - apply in_seq. lia.
  - apply Nat.ltb_lt, Hm.
Qed.

Lemma third_digit_ok i :
  (i < 64)%nat -> (i mod 4 < 2)%nat -> third_digit (base64_digit i) = true.
Proof.
  intros Hi Hm. unfold third_digit. apply orb_true_iff. left.
  apply digit_among_here, list_elem_of_In, filter_In. split.
  - apply in_seq. lia.
  - apply Nat.ltb_lt, Hm.
Qed.

Lemma base64_bytes_grouped n : forall bs,
  (List.length bs <= n)%nat ->
  Forall (fun b => (b < 128)%nat) bs ->
  grouped (base64_bytes bs).
Proof.
  induction n as [|n IH]; intros bs Hn Hbs.
  - destruct bs; [constructor | cbn in Hn; lia].
  - destruct bs as [|a [|b [|c rest]]]; [constructor| | |].
    + apply Forall_cons in Hbs as [Ha _].
      cbn [base64_bytes]. apply grouped_cons; [| | reflexivity | constructor].
      * apply first_digit_ok. apply Nat.Div0.div_lt_upper_bound. lia.
      * apply second_digit_ok.
        -- pose proof (Nat.mod_upper_bound a 4). lia.
        -- rewrite Nat.Div0.mod_mul. lia.
    + apply Forall_cons in Hbs as [Ha Hbs]. apply Forall_cons in Hbs as [Hb _].
      assert (b / 16 < 8)%nat by (apply Nat.Div0.div_lt_upper_bound; lia).
      cbn [base64_bytes]. apply grouped_cons; [| | | constructor].
      * apply first_digit_ok. apply Nat.Div0.div_lt_upper_bound. lia.
      * apply second_digit_ok.
        -- pose proof (Nat.mod_upper_bound a 4). lia.
        -- rewrite Nat.add_comm, Nat.Div0.mod_add. rewrite Nat.mod_small; lia.
      * apply third_digit_ok.
        -- pose proof (Nat.mod_upper_bound b 16). lia.
        -- rewrite Nat.Div0.mod_mul. lia.
    + apply Forall_cons in Hbs as [Ha Hbs]. apply Forall_cons in Hbs as [Hb Hbs].
      apply Forall_cons in Hbs as [Hc Hbs].
      assert (b / 16 < 8)%nat by (apply Nat.Div0.div_lt_upper_bound; lia).
      assert (c / 64 < 2)%nat by (apply Nat.Div0.div_lt_upper_bound; lia).
      cbn [base64_bytes]. apply grouped_cons.
      * apply first_digit_ok. apply Nat.Div0.div_lt_upper_bound. lia.
      * apply second_digit_ok.
        -- pose proof (Nat.mod_upper_bound a 4). lia.
        -- rewrite Nat.add_comm, Nat.Div0.mod_add. rewrite Nat.mod_small; lia.
      * apply third_digit_ok.
        -- pose proof (Nat.mod_upper_bound b 16). lia.
        -- rewrite Nat.add_comm, Nat.Div0.mod_add. rewrite Nat.mod_small; lia.
      * apply IH; [cbn in Hn; lia | exact Hbs].
Qed.

Lemma ascii_eqb_true a b : Ascii.eqb a b = true -> a = b.
Proof. apply Ascii.eqb_eq. Qed.

(** No text made of groups for bytes below 128 contains "/api/": the
    slash can only be the last digit of a group, and then "api/" would be
    a whole group, whose second digit cannot be p. *)
Lemma grouped_lacks_api s : grouped s -> Js.includes "/api/" s = false.
Proof.
  induction 1 as [|a b c d s Ha Hb Hc Hs IH]; [reflexivity|].
  rewrite !includes_cons, IH, orb_false_r.
  rewrite !string_prefix_cons.
  destruct (Ascii.eqb "/" a) eqn:Ea.
  { apply ascii_eqb_true in Ea. subst a. discriminate Ha. }
  destruct (Ascii.eqb "/" b) eqn:Eb.
  { apply ascii_eqb_true in Eb. subst b. discriminate Hb. }
  destruct (Ascii.eqb "/" c) eqn:Ec.
  { apply ascii_eqb_true in Ec. subst c. discriminate Hc. }
  cbn [andb orb].
  destruct (Ascii.eqb "/" d); [|reflexivity]. cbn [andb].
  destruct Hs as [|a' b' c' d' s' Ha' Hb' Hc' Hs']; [reflexivity|].
  rewrite !string_prefix_cons.
  destruct (Ascii.eqb "p" b') eqn:Eb'.
  { apply ascii_eqb_true in Eb'. subst b'. discriminate Hb'. }
  rewrite andb_false_r. reflexivity.
Qed.

Lemma list_ascii_app s1 s2 :
  list_ascii_of_string (s1 ++ s2) = list_ascii_of_string s1 ++ list_ascii_of_string s2.
Proof.
  induction s1 as [|a s1 IH]; [reflexivity|].
  change (String a s1 ++ s2)%string with (String a (s1 ++ s2)).
  cbn [list_ascii_of_string]. rewrite IH. reflexivity.
Qed.

Lemma ascii_text_app s1 s2 : ascii_text s1 -> ascii_text s2 -> ascii_text (s1 ++ s2).
Proof. unfold ascii_text. rewrite list_ascii_app. apply Forall_app_2. Qed.

Lemma hex_digit_ascii n : (nat_of_ascii (hex_digit n) < 128)%nat.
Proof.
  unfold hex_digit. do 16 (destruct n as [|n]; [vm_compute; lia|]).
  rewrite nth_overflow by (vm_compute; lia). vm_compute. lia.
Qed.

Lemma form_byte_ascii a : ascii_text (form_byte a).
Proof.
  unfold form_byte, ascii_text.
  destruct (_ || _)%bool eqn:Hclass.
  - constructor; [|constructor].
    repeat (apply orb_true_iff in Hclass as [Hclass|Hclass]);
      try (apply andb_true_iff in Hclass as [_ H]; apply Nat.leb_le in H; lia);
      apply Nat.eqb_eq in Hclass; lia.
  - destruct (_ =? 32)%nat.
    + constructor; [vm_compute; lia | constructor].
    + constructor; [vm_compute; lia|]. constructor; [apply hex_digit_ascii|].
      constructor; [apply hex_digit_ascii | constructor].
Qed.

Lemma form_encode_ascii s : ascii_text (form_encode s).
Proof.
  induction s as [|a s IH]; [constructor|].
  cbn [form_encode]. apply ascii_text_app; [apply form_byte_ascii | exact IH].
Qed.

Lemma ascii_text_literal_eq : ascii_text "=".
Proof. constructor; [vm_compute; lia | constructor]. Qed.

Lemma URLSearchParams_toString_ascii q : ascii_text (URLSearchParams_toString q).
Proof.
  induction q as [|[k v] q IH]; [constructor|].
  cbn [URLSearchParams_toString]. destruct q as [|e q].
  - repeat apply ascii_text_app; auto using form_encode_ascii, ascii_text_literal_eq.
  - repeat apply ascii_text_app; auto using form_encode_ascii, ascii_text_literal_eq.
    constructor; [vm_compute; lia | constructor].
Qed.

Lemma prefix_split p s : String.prefix p s = true -> exists q, s = (p ++ q)%string.
Proof.
  revert s. induction p as [|a p IH]; intros s; [exists s; reflexivity|].
  destruct s as [|b s]; [discriminate|]. rewrite string_prefix_cons.
  intros H. apply andb_true_iff in H as [Hab Hp]. apply Ascii.eqb_eq in Hab. subst b.
  destruct (IH s Hp) as [q ->]. exists q. reflexivity.
Qed.

(** No key the middleware generates for a request in ASCII contains a
    path that starts with "/api/". *)
Lemma generated_key_lacks_api_paths cfg req p :
  lacks "/" (keyPrefix cfg) = true ->
  ascii_text (method req) -> ascii_text (path req) ->
  String.prefix "/api/" p = true ->
  Js.includes p (generateCacheKey cfg req) = false.
Proof.
  intros Hpre Hm Hp Hapi. destruct (prefix_split _ _ Hapi) as [q ->].
  destruct (Js.includes ("/api/" ++ q) (generateCacheKey cfg req)) eqn:Hinc; [|reflexivity].
  apply includes_app_l in Hinc. unfold generateCacheKey in Hinc.
  rewrite (includes_past_prefix "/" "api/" _ _ Hpre) in Hinc.
  rewrite grouped_lacks_api in Hinc; [discriminate|].
  unfold base64. eapply base64_bytes_grouped; [reflexivity|].
  apply Forall_map.
  assert (Htext : ascii_text
                    ((method req ++ ":" ++ path req)
                     ++ match query req with
                        | [] => ""
                        | _ :: _ => "?" ++ URLSearchParams_toString (query req)
                        end)).
  { apply ascii_text_app.
    - repeat apply ascii_text_app; auto. constructor; [vm_compute; lia | constructor].
    - destruct (query req); [constructor|].
      apply ascii_text_app; [constructor; [vm_compute; lia | constructor]|].
      apply URLSearchParams_toString_ascii. }
  exact Htext.
Qed.

(** X16. With strategies for paths under "/api/", as the default ones are,
    the invalidation that follows a write never removes a response the
    middleware has cached: it looks for the path of the request in keys
    that hold the path in base64, where "/api/" cannot occur. *)
Theorem write_invalidation_never_reaches_a_cached_response wreq req m :
  Forall (fun e => String.prefix "/api/" e.1 = true) (strategies (config m)) ->
  lacks "/" (keyPrefix (config m)) = true ->
  ascii_text (method req) -> ascii_text (path req) ->
  stored (generateCacheKey (config m) req) (handleInvalidation wreq m)
  = stored (generateCacheKey (config m) req) m.
Proof.
  intros Hstr Hpre Hm Hp. unfold handleInvalidation, getCacheStrategy.
  destruct (List.find _ (strategies (config m))) as [[pattern strategy]|] eqn:Hfind;
    [|reflexivity].
  cbn. destruct (includes_str (method wreq) (invalidateOn strategy)); [|reflexivity].
  apply find_some in Hfind as [Hin Hmatch]. cbn in Hmatch.
  rewrite Forall_forall in Hstr. apply list_elem_of_In in Hin.
  specialize (Hstr _ Hin). cbn in Hstr.
  destruct (prefix_split _ _ Hstr) as [q ->].
  apply string_prefix_app_l in Hmatch.
  rewrite (proj1 (stored_after_invalidate _ _ _)).
  rewrite (generated_key_lacks_api_paths _ _ _ Hpre Hm Hp Hmatch). reflexivity.
Qed.

End EncodedKeys.

Section CacheRunWitnesses.

Import Cache CacheOps CacheSamples CacheRunSamples.

(** X13, on sample inputs.
    A request with a bearer token is passed on and its answer is not
    kept. *)
Lemma credentialed_requests_bypass_the_cache_witness :
  middleware get_products_as_bob 1000 empty_manager = (Bypass, empty_manager)
  /\ serve get_products_as_bob products_response "[]" 1000 1040 empty_manager
     = empty_manager.
Proof.
  apply (credentialed_requests_bypass_the_cache get_products_as_bob products_response
           "[]" 1000 1040 empty_manager).
  left. exists "authorization"%string. split; [|vm_compute; reflexivity].
  apply list_elem_of_In. cbn. auto.
Defined.

(** X14, on sample inputs.
    The products, answered at 1040 ms with a time to live of 1800 s, are
    served from the cache at 5000 ms and asked for again after
    1 801 040 ms. *)
Lemma cached_response_is_served_until_it_expires_witness :
  fst (middleware get_products 5000 products_cached)
  = Hit (generateCacheKey default_config get_products)
        (entry_of get_products products_response "[]" 1040)
  /\ fst (middleware get_products 1801041 products_cached)
     = Miss (generateCacheKey default_config get_products).
Proof.
  split.
  - apply (proj1 (cached_response_is_served_until_it_expires get_products
                    products_response "[]" 1000 1040 5000 empty_manager
                    eq_refl eq_refl eq_refl eq_refl
                    ltac:(intros H; discriminate H))).
    reflexivity.
  - apply (proj2 (cached_response_is_served_until_it_expires get_products
                    products_response "[]" 1000 1040 1801041 empty_manager
                    eq_refl eq_refl eq_refl eq_refl
                    ltac:(intros H; discriminate H)));
      [reflexivity | discriminate].
Defined.

(** X15, on sample inputs.
    A sweep at 6000 ms removes the entry that expired at 5000 ms, which
    a read at 7000 ms would not have returned either. *)
Lemma sweep_is_invisible_to_later_reads_witness :
  fst (getFromMemory "gateway:a" 7000 (sweep 6000 two_entries))
  = fst (getFromMemory "gateway:a" 7000 two_entries)
  /\ (forall k expiry,
        memoryTTL (sweep 6000 two_entries) !! k = Some expiry -> 6000 <= expiry)
  /\ (forall k, overdue 6000 two_entries k = false ->
        memoryCache (sweep 6000 two_entries) !! k = memoryCache two_entries !! k
        /\ memoryTTL (sweep 6000 two_entries) !! k = memoryTTL two_entries !! k).
Proof.
  apply (sweep_is_invisible_to_later_reads "gateway:a" 6000 7000 two_entries).
  - discriminate.
  - vm_compute. discriminate.
Defined.

(** X16, on sample inputs.
    A POST to [/api/products] leaves the cached answer to
    [GET /api/products] where it is. *)
Lemma write_invalidation_never_reaches_a_cached_response_witness :
  is_Some (stored (generateCacheKey default_config get_products) products_cached)
  /\ stored (generateCacheKey default_config get_products)
       (handleInvalidation post_product products_cached)
     = stored (generateCacheKey default_config get_products) products_cached.
Proof.
  split; [vm_compute; eexists; reflexivity|].
  apply (write_invalidation_never_reaches_a_cached_response post_product get_products
           products_cached).
  - repeat constructor.
  - reflexivity.
  - repeat (constructor; [vm_compute; lia|]). constructor.
  - repeat (constructor; [vm_compute; lia|]). constructor.
Defined.

(** X17, on sample inputs.
    The queries [a=1&b=2] and [b=2&a=1] get one key. *)
Lemma generateKey_forgets_query_order_witness :
  generateKey (fun s => s) "gateway:" "GET" "/api/users" (query get_ab) (headers get_ab)
  = generateKey (fun s => s) "gateway:" "GET" "/api/users" (query get_ba) (headers get_ab).
Proof.
  apply (generateKey_forgets_query_order (fun s => s) "gateway:" "GET" "/api/users"
           (query get_ab) (query get_ba) (headers get_ab)).
  - cbn. repeat constructor; cbn; intros H; inversion H; subst;
      match goal with
      | H' : _ ∈ [] |- _ => inversion H'
      | _ => idtac
      end.
  - apply perm_swap.
Defined.

End CacheRunWitnesses.

(** ** Who is let in *)

Section AuthFacts.

Import Auth.

Variable jwt_verify : string -> string + string.
Variable base64_decode : string -> string.
Variable bcrypt_compare : string -> string -> bool.

Lemma header_truthy_of hs name v :
  header hs name = Some v -> Js.header_truthy hs name = true.
Proof.
  unfold header, Js.header_truthy. destruct (hs !! name) as [w|]; [|discriminate].
  destruct (Js.truthy w); [reflexivity | discriminate].
Qed.

Lemma authenticateApiKey_found cfg hs now st p st' :
  authenticateApiKey cfg hs now st = (Found p, st') ->
  Js.header_truthy hs (apiKeyHeader cfg) = true.
Proof.
  unfold authenticateApiKey.
  destruct (header hs (apiKeyHeader cfg)) as [k|] eqn:Hk; [|discriminate].
  intros _. eapply header_truthy_of, Hk.
Qed.

Lemma authenticateJWT_found hs now st p st' :
  authenticateJWT jwt_verify hs now st = (Found p, st') ->
  Js.header_truthy hs "authorization" = true.
Proof.
  unfold authenticateJWT.
  destruct (header hs "authorization") as [k|] eqn:Hk; [|discriminate].
  intros _. eapply header_truthy_of, Hk.
Qed.

Lemma authenticateBasic_found hs now st p st' :
  authenticateBasic base64_decode bcrypt_compare hs now st = (Found p, st') ->
  Js.header_truthy hs "authorization" = true.
Proof.
  unfold authenticateBasic.
  destruct (header hs "authorization") as [k|] eqn:Hk; [|discriminate].
  intros _. eapply header_truthy_of, Hk.
Qed.

(** X18. A request that [authenticate()] lets pass carries a non-empty API
    key header or a non-empty Authorization header; with the API key in
    x-api-key, as by default, the cache therefore lets it pass untouched:
    behind [authenticate()] the cache middleware neither serves nor
    stores anything. *)
Theorem authenticated_requests_are_never_cached cfg hs now st p st' :
  authenticate jwt_verify base64_decode bcrypt_compare cfg hs now st = (Accepted p, st') ->
  (Js.header_truthy hs (apiKeyHeader cfg) = true
   \/ Js.header_truthy hs "authorization" = true)
  /\ (apiKeyHeader cfg ∈ Cache.sensitiveHeaders ->
      forall req t m,
        Cache.headers req = hs ->
        Cache.middleware req t m = (Cache.Bypass, m)).
Proof.
  intros Hacc.
  assert (Hcred : Js.header_truthy hs (apiKeyHeader cfg) = true
                  \/ Js.header_truthy hs "authorization" = true).
  { unfold authenticate in Hacc.
    destruct (enableApiKeys cfg).
    - destruct (authenticateApiKey cfg hs now st) as [[|q|msg] st1] eqn:Hkey;
        [|left; eapply authenticateApiKey_found; eauto | discriminate].
      destruct (enableJWT cfg).
      + destruct (authenticateJWT jwt_verify hs now st1) as [[|q|msg] st2] eqn:Hjwt;
          [|right; eapply authenticateJWT_found; eauto | discriminate].
        destruct (enableBasicAuth cfg); [|discriminate].
        destruct (authenticateBasic base64_decode bcrypt_compare hs now st2)
          as [[|q|msg] st3] eqn:Hbasic;
          [discriminate | right; eapply authenticateBasic_found; eauto | discriminate].
      + destruct (enableBasicAuth cfg); [|discriminate].
        destruct (authenticateBasic base64_decode bcrypt_compare hs now st1)
          as [[|q|msg] st3] eqn:Hbasic;
          [discriminate | right; eapply authenticateBasic_found; eauto | discriminate].
    - destruct (enableJWT cfg).
      + destruct (authenticateJWT jwt_verify hs now st) as [[|q|msg] st2] eqn:Hjwt;
          [|right; eapply authenticateJWT_found; eauto | discriminate].
        destruct (enableBasicAuth cfg); [|discriminate].
        destruct (authenticateBasic base64_decode bcrypt_compare hs now st2)
          as [[|q|msg] st3] eqn:Hbasic;
          [discriminate | right; eapply authenticateBasic_found; eauto | discriminate].
      + destruct (enableBasicAuth cfg); [|discriminate].
        destruct (authenticateBasic base64_decode bcrypt_compare hs now st)
          as [[|q|msg] st3] eqn:Hbasic;
          [discriminate | right; eapply authenticateBasic_found; eauto | discriminate]. }
  split; [exact Hcred|].
  intros Hsens req t m Hhs. subst hs.
  assert (Hex : existsb (Js.header_truthy (Cache.headers req)) Cache.sensitiveHeaders = true).
  { apply existsb_exists. destruct Hcred as [H|H].
    - exists (apiKeyHeader cfg). split; [apply list_elem_of_In, Hsens | exact H].
    - exists "authorization"%string. split; [left; reflexivity | exact H]. }
  unfold Cache.middleware, Cache.isCacheable. rewrite Hex.
  destruct (negb (Cache.includes_str _ _)); cbn; rewrite orb_true_r; reflexivity.
Qed.

(** X19. Once [revokeApiKey] has run for a key, every request that presents
    the key is refused with 401 and changes nothing, whether the key
    existed or not and whatever else the request carries: a bad API key
    is an error, not a reason to try the bearer token. *)
Theorem revoked_key_is_refused cfg hs now st k :
  enableApiKeys cfg = true ->
  header hs (apiKeyHeader cfg) = Some k ->
  let revoked := snd (revokeApiKey k st) in
  authenticate jwt_verify base64_decode bcrypt_compare cfg hs now revoked
  = (Rejected 401 "Authentication Error", revoked).
Proof.
  intros Hen Hk revoked. subst revoked.
  unfold authenticate, authenticateApiKey, revokeApiKey. rewrite Hen, Hk.
  destruct (apiKeys st !! k) as [keyData|] eqn:Hkey; cbn.
  - rewrite lookup_insert_eq. reflexivity.
  - rewrite Hkey. reflexivity.
Qed.

(** X20. A token that [blacklistToken] has taken, as logging out does, no
    longer lets a request in: a request whose only credential is that
    bearer token is refused with 401. *)
Theorem blacklisted_token_is_refused cfg hs now st tok :
  enableJWT cfg = true ->
  header hs "authorization" = Some ("Bearer " ++ tok)%string ->
  (enableApiKeys cfg = true -> header hs (apiKeyHeader cfg) = None) ->
  let logged_out := blacklistToken tok st in
  authenticate jwt_verify base64_decode bcrypt_compare cfg hs now logged_out
  = (Rejected 401 "Authentication Error", logged_out).
Proof.
  intros Hjwt Hauth Hkey logged_out.
  assert (Htok : authenticateJWT jwt_verify hs now logged_out
                 = (Failed "Token has been blacklisted", logged_out)).
  { unfold authenticateJWT. rewrite Hauth.
    change (String.prefix "Bearer " ("Bearer " ++ tok)) with (String.prefix "" tok).
    rewrite string_prefix_nil. cbn [negb].
    change (substring_from 7 ("Bearer " ++ tok)) with tok.
    rewrite bool_decide_eq_true_2; [reflexivity|].
    subst logged_out. unfold blacklistToken. cbn. set_solver. }
  unfold authenticate. rewrite Hjwt.
  destruct (enableApiKeys cfg).
  - unfold authenticateApiKey. rewrite (Hkey eq_refl), Htok. reflexivity.
  - rewrite Htok. reflexivity.
Qed.

End AuthFacts.

Section AuthWitnesses.

Import Auth AuthSamples.

(** X18, on sample inputs.
    Carol's key is accepted, and the header that carries it keeps the
    request out of the cache. *)
Lemma authenticated_requests_are_never_cached_witness :
  (exists p, authenticate no_token plain_decode no_password default_config with_key
               1000 one_user = (Accepted p, after_key))
  /\ (Js.header_truthy with_key "x-api-key" = true
      \/ Js.header_truthy with_key "authorization" = true)
  /\ (forall req t m,
        Cache.headers req = with_key ->
        Cache.middleware req t m = (Cache.Bypass, m)).
Proof.
  destruct (authenticate no_token plain_decode no_password default_config with_key
              1000 one_user) as [[p | status message] st'] eqn:Hrun;
    [|vm_compute in Hrun; discriminate Hrun].
  assert (Hst : st' = after_key).
  { unfold after_key. rewrite Hrun. reflexivity. }
  destruct (authenticated_requests_are_never_cached no_token plain_decode no_password
              default_config with_key 1000 one_user p st' Hrun) as [Hheader Hbypass].
  split; [exists p; rewrite Hst; reflexivity|].
  split; [exact Hheader|].
  apply Hbypass. apply list_elem_of_In. cbn. auto.
Defined.

(** X19, on sample inputs.
    Once revoked, carol's key is answered 401. *)
Lemma revoked_key_is_refused_witness :
  authenticate no_token plain_decode no_password default_config with_key 2000
    (snd (revokeApiKey "k-123" one_user))
  = (Rejected 401 "Authentication Error", snd (revokeApiKey "k-123" one_user)).
Proof.
  apply (revoked_key_is_refused no_token plain_decode no_password default_config
           with_key 2000 one_user "k-123").
  - reflexivity.
  - vm_compute. reflexivity.
Defined.

(** X20, on sample inputs.
    A token that was logged out is answered 401. *)
Lemma blacklisted_token_is_refused_witness :
  authenticate no_token plain_decode no_password default_config with_token 2000
    (blacklistToken "t-1" one_user)
  = (Rejected 401 "Authentication Error", blacklistToken "t-1" one_user).
Proof.
  apply (blacklisted_token_is_refused no_token plain_decode no_password default_config
           with_token 2000 one_user "t-1").
  - reflexivity.
  - vm_compute. reflexivity.
  - intros _. vm_compute. reflexivity.
Defined.

End AuthWitnesses.

(** ** The assembled stack: who reaches what *)

Section GatewayRuns.

Import ApiGateway GatewayOps.

Context {Props : Type}.

Variable perms : RateLimiter.User -> list string.

Implicit Types (h : Stage -> Ctx Props -> Outcome Props) (r : RequestLine)
  (ls : list Layer) (ctx : Ctx Props).

Lemma Stage_eqb_neq a b : Stage_eqb a b = false <-> a <> b.
Proof. unfold Stage_eqb. destruct (Stage_eq_dec a b); split; congruence. Qed.

Lemma Mount_eqb_eq a b : Mount_eqb a b = true <-> a = b.
Proof. unfold Mount_eqb. destruct (Mount_eq_dec a b); split; congruence. Qed.

Lemma has_stage_false s ls : has_stage s ls = false -> s ∉ map stage ls.
Proof.
  unfold has_stage. intros H Hin.
  apply list_elem_of_In, in_map_iff in Hin as (l & Hl & Hin).
  assert (existsb (fun l => Stage_eqb (stage l) s) ls = true); [|congruence].
  apply existsb_exists. exists l. split; [exact Hin|]. apply Stage_eqb_eq. exact Hl.
Qed.

Lemma not_run_if_not_registered h r ls ctx s :
  s ∉ map stage ls -> s ∉ map fst (dispatch h r ls ctx).
Proof.
  intros Hs Hin. apply Hs.
  apply list_elem_of_In, in_map_iff in Hin as ([s' c] & Heq & Hin). cbn in Heq. subst s'.
  apply list_elem_of_In in Hin. eapply dispatch_stage_registered. exact Hin.
Qed.

Lemma wired_keeps_user h :
  (forall s c c', s <> Authenticate -> h s c = Continue c' -> user c' = user c) ->
  forall s c c', s <> Authenticate -> wired perms h s c = Continue c' -> user c' = user c.
Proof.
  intros Hh s c c' Hs. destruct s; cbn; try (apply Hh; exact Hs).
  - destruct (Auth.requireAdmin _); [intros [= <-]; reflexivity | discriminate].
  - discriminate.
Qed.

Lemma wired_requireAdmin_stops h c :
  user c = None -> wired perms h RequireAdmin c = Stop.
Proof. intros Hc. cbn. rewrite Hc. reflexivity. Qed.

Lemma guardedb_sound h r x n : forall ls ctx,
  (List.length ls <= n)%nat ->
  (forall s c c', s <> Authenticate -> h s c = Continue c' -> user c' = user c) ->
  user ctx = None ->
  guardedb x ls = true ->
  x ∉ map fst (dispatch (wired perms h) r ls ctx).
Proof.
  induction n as [|n IH]; intros ls ctx Hn Hh Hctx Hg.
  - destruct ls; [intros H; inversion H | cbn in Hn; lia].
  - destruct ls as [|l ls]; [intros H; inversion H|].
    cbn [guardedb] in Hg. cbn in Hn.
    destruct (Stage_eqb (stage l) x) eqn:Hlx; [discriminate|].
    apply Stage_eqb_neq in Hlx.
    destruct (Stage_eqb (stage l) Authenticate) eqn:Hla.
    { apply negb_true_iff, has_stage_false in Hg.
      cbn [dispatch]. destruct (matches (mount l) r).
      - cbn. intros Hin. apply elem_of_cons in Hin as [Hin|Hin]; [congruence|].
        destruct (wired perms h (stage l) ctx); [|inversion Hin].
        eapply not_run_if_not_registered; eauto.
      - apply not_run_if_not_registered. exact Hg. }
    apply Stage_eqb_neq in Hla.
    destruct (Stage_eqb (stage l) RequireAdmin) eqn:Hlr.
    { apply Stage_eqb_eq in Hlr. cbn [dispatch].
      destruct (matches (mount l) r) eqn:Hm.
      - rewrite Hlr, (wired_requireAdmin_stops h ctx Hctx). cbn.
        intros Hin. apply elem_of_cons in Hin as [Hin|Hin]; [congruence | inversion Hin].
      - destruct ls as [|l2 ls]; [intros H; inversion H|].
        destruct (Stage_eqb (stage l2) x) eqn:Hl2.
        + apply andb_true_iff in Hg as [Hmount Hg]. apply Mount_eqb_eq in Hmount.
          cbn [dispatch]. rewrite <- Hmount, Hm. apply IH; auto. cbn in Hn. lia.
        + apply IH; auto. lia. }
    cbn [dispatch]. destruct (matches (mount l) r).
    + cbn. intros Hin. apply elem_of_cons in Hin as [Hin|Hin]; [congruence|].
      destruct (wired perms h (stage l) ctx) as [ctx'|] eqn:Hw; [|inversion Hin].
      revert Hin. apply IH; auto; [lia|].
      rewrite (wired_keeps_user h Hh _ _ _ Hla Hw). exact Hctx.
    + apply IH; auto. lia.
Qed.

Lemma never_after_sound h r s ls : forall ctx,
  (forall s c c', s <> Authenticate -> h s c = Continue c' -> user c' = user c) ->
  user ctx = None ->
  never_after Authenticate s ls = true ->
  forall c, (s, c) ∈ dispatch (wired perms h) r ls ctx -> user c = None.
Proof.
  induction ls as [|l ls IH]; intros ctx Hh Hctx Hna c Hin; [inversion Hin|].
  cbn [never_after] in Hna.
  destruct (Stage_eqb (stage l) Authenticate) eqn:Hla.
  - apply negb_true_iff, has_stage_false in Hna.
    apply dispatch_stage_registered in Hin. contradiction.
  - apply Stage_eqb_neq in Hla. cbn [dispatch] in Hin.
    destruct (matches (mount l) r); [|eapply IH; eauto].
    apply elem_of_cons in Hin as [[= _ ->]|Hin]; [exact Hctx|].
    destruct (wired perms h (stage l) ctx) as [ctx'|] eqn:Hw; [|inversion Hin].
    eapply (IH ctx'); eauto.
    rewrite (wired_keeps_user h Hh _ _ _ Hla Hw). exact Hctx.
Qed.

(** X21. The metrics and administration endpoints cannot be used: their
    routes put [requireAdmin()] in front of the handler and nothing that
    authenticates, so [requireAdmin()] finds no [req.user] and answers
    401, and the handler behind it never runs, whatever credentials the
    request carries (no stage but [authenticate()] sets [req.user]). *)
Theorem admin_endpoints_answer_401 config h r ctx :
  user ctx = None ->
  (forall s c c', s <> Authenticate -> h s c = Continue c' -> user c' = user c) ->
  (forall c, (RequireAdmin, c) ∈ handle config (wired perms h) r ctx ->
     Auth.requireAdmin (perms <$> user c) = Auth.Denied 401)
  /\ (forall x, x ∈ admin_handlers ->
        x ∉ stages_run config (wired perms h) r ctx).
Proof.
  intros Hctx Hh. split.
  - intros c Hin.
    assert (Hc : user c = None).
    { revert c Hin. apply never_after_sound; auto.
      destruct config as [[] []]; reflexivity. }
    rewrite Hc. reflexivity.
  - intros x Hx. unfold stages_run, handle.
    apply (guardedb_sound h r x (List.length (app config))); auto.
    apply list_elem_of_In in Hx. cbn in Hx.
    destruct Hx as [<-|[<-|[<-|[<-|[]]]]]; destruct config as [[] []]; reflexivity.
Qed.

Lemma cut_off_sound h r x ls : forall ctx,
  cut_off x ls = true ->
  x ∉ map fst (dispatch (wired perms h) r ls ctx).
Proof.
  induction ls as [|l ls IH]; intros ctx Hcut; [intros H; inversion H|].
  cbn [cut_off] in Hcut.
  destruct (Stage_eqb (stage l) x) eqn:Hlx; [discriminate|].
  apply Stage_eqb_neq in Hlx. cbn [dispatch].
  destruct (Stage_eqb (stage l) NotFound && Mount_eqb (mount l) Everywhere) eqn:Hnf.
  - apply andb_true_iff in Hnf as [Hs Hm].
    apply Stage_eqb_eq in Hs. apply Mount_eqb_eq in Hm. rewrite Hm, Hs. cbn.
    intros Hin. apply elem_of_cons in Hin as [Hin|Hin]; [congruence | inversion Hin].
  - destruct (matches (mount l) r); [|apply IH; exact Hcut].
    cbn. intros Hin. apply elem_of_cons in Hin as [Hin|Hin]; [congruence|].
    destruct (wired perms h (stage l) ctx) as [ctx'|]; [|inversion Hin].
    revert Hin. apply IH. exact Hcut.
Qed.

Lemma catch_all_sound h r ls : forall ctx,
  catch_all ls = true -> through (wired perms h) r ls ctx = None.
Proof.
  induction ls as [|l ls IH]; intros ctx Hc; [discriminate|].
  cbn [catch_all existsb] in Hc. cbn [through].
  destruct (Stage_eqb (stage l) NotFound && Mount_eqb (mount l) Everywhere) eqn:Hnf.
  - apply andb_true_iff in Hnf as [Hs Hm].
    apply Stage_eqb_eq in Hs. apply Mount_eqb_eq in Hm. rewrite Hm, Hs. reflexivity.
  - cbn in Hc. destruct (matches (mount l) r); [|apply IH; exact Hc].
    destruct (wired perms h (stage l) ctx); [apply IH; exact Hc | reflexivity].
Qed.

(** X22. The catch-all answers every request that comes to it, so no request
    gets past it: whatever the other stages do, some stage ends the
    request, and the response logging that [setupErrorHandling] registers
    after the catch-all never runs. *)
Theorem response_logging_never_runs config h r ctx :
  through (wired perms h) r (app config) ctx = None
  /\ ResponseLogging ∉ stages_run config (wired perms h) r ctx.
Proof.
  split.
  - apply catch_all_sound. destruct config as [[] []]; reflexivity.
  - apply cut_off_sound. destruct config as [[] []]; reflexivity.
Qed.

Lemma router_behind_sound h r m ls : forall ctx,
  (forall s c c', s ∈ behind_authenticate -> h s c = Continue c' ->
     is_Some (user c) -> is_Some (user c')) ->
  router_behind m ls = true ->
  (matches m r = false -> RouterMw ∉ map fst (dispatch (wired perms h) r ls ctx))
  /\ (is_Some (user ctx) ->
      forall c, (RouterMw, c) ∈ dispatch (wired perms h) r ls ctx -> is_Some (user c)).
Proof.
  induction ls as [|l ls IH]; intros ctx Hh Hrb.
  - split; [intros _ H; inversion H | intros _ c H; inversion H].
  - cbn [router_behind] in Hrb. cbn [dispatch].
    destruct (Stage_eqb (stage l) RouterMw) eqn:Hlr.
    + apply Stage_eqb_eq in Hlr. apply andb_true_iff in Hrb as [Hm Hno].
      apply Mount_eqb_eq in Hm. apply negb_true_iff, has_stage_false in Hno.
      rewrite Hm. split.
      * intros Hmr. rewrite Hmr. apply not_run_if_not_registered. exact Hno.
      * intros Hu c. destruct (matches m r).
        -- intros Hin. apply elem_of_cons in Hin as [[= _ ->]|Hin]; [exact Hu|].
           destruct (wired perms h (stage l) ctx); [|inversion Hin].
           apply dispatch_stage_registered in Hin. contradiction.
        -- intros Hin. apply dispatch_stage_registered in Hin. contradiction.
    + apply Stage_eqb_neq in Hlr. apply andb_true_iff in Hrb as [Hset Hrb].
      assert (Hmem : stage l ∈ behind_authenticate).
      { apply existsb_exists in Hset as (s & Hs & Heq).
        apply Stage_eqb_eq in Heq. subst s. apply list_elem_of_In. exact Hs. }
      assert (Hw : wired perms h (stage l) ctx = h (stage l) ctx).
      { apply list_elem_of_In in Hmem. cbn in Hmem.
        destruct Hmem as [<-|[<-|[<-|[]]]]; reflexivity. }
      split.
      * intros Hmr. destruct (matches (mount l) r); [|apply IH; auto].
        cbn. intros Hin. apply elem_of_cons in Hin as [Hin|Hin]; [congruence|].
        destruct (wired perms h (stage l) ctx) as [ctx'|]; [|inversion Hin].
        revert Hin. apply IH; auto.
      * intros Hu c. destruct (matches (mount l) r); [|apply IH; auto].
        intros Hin. apply elem_of_cons in Hin as [[= Heq _]|Hin]; [congruence|].
        rewrite Hw in Hin. destruct (h (stage l) ctx) as [ctx'|] eqn:Hrun; [|inversion Hin].
        revert c Hin. apply IH; auto. eapply Hh; eauto.
Qed.

Lemma router_guarded_sound h r ls : forall ctx,
  (forall c c', h Authenticate c = Continue c' -> is_Some (user c')) ->
  (forall s c c', s ∈ behind_authenticate -> h s c = Continue c' ->
     is_Some (user c) -> is_Some (user c')) ->
  router_guarded ls = true ->
  forall c, (RouterMw, c) ∈ dispatch (wired perms h) r ls ctx -> is_Some (user c).
Proof.
  induction ls as [|l ls IH]; intros ctx Hauth Hh Hrg c Hin; [inversion Hin|].
  cbn [router_guarded] in Hrg. cbn [dispatch] in Hin.
  destruct (Stage_eqb (stage l) RouterMw) eqn:Hlr; [discriminate|].
  apply Stage_eqb_neq in Hlr.
  destruct (Stage_eqb (stage l) Authenticate) eqn:Hla.
  - apply Stage_eqb_eq in Hla.
    destruct (router_behind_sound h r (mount l) ls ctx Hh Hrg) as [Hskip _].
    destruct (matches (mount l) r) eqn:Hm.
    + apply elem_of_cons in Hin as [[= Heq _]|Hin]; [congruence|].
      rewrite Hla in Hin. cbn [wired] in Hin.
      destruct (h Authenticate ctx) as [ctx'|] eqn:Hrun; [|inversion Hin].
      destruct (router_behind_sound h r (mount l) ls ctx' Hh Hrg) as [_ Hkeep].
      apply (Hkeep (Hauth _ _ Hrun) c Hin).
    + exfalso. apply (Hskip eq_refl).
      apply list_elem_of_In, in_map_iff. exists (RouterMw, c). split; [reflexivity|].
      apply list_elem_of_In. exact Hin.
  - destruct (matches (mount l) r); [|eapply IH; eauto].
    apply elem_of_cons in Hin as [[= Heq _]|Hin]; [congruence|].
    destruct (wired perms h (stage l) ctx) as [ctx'|]; [|inversion Hin].
    eapply IH; eauto.
Qed.

(** X23. The router only gets requests that [authenticate()] has let pass:
    when the router runs, the request carries the principal that
    [authenticate()] has set (the stages between the two keep it),
    whatever the path and whatever the stages before [authenticate()]
    did. *)
Theorem router_sees_only_authenticated_requests config h r ctx :
  (forall c c', h Authenticate c = Continue c' -> is_Some (user c')) ->
  (forall s c c', s ∈ behind_authenticate -> h s c = Continue c' ->
     is_Some (user c) -> is_Some (user c')) ->
  forall c, (RouterMw, c) ∈ handle config (wired perms h) r ctx -> is_Some (user c).
Proof.
  intros Hauth Hh. unfold handle. apply router_guarded_sound; auto.
  destruct config as [[] []]; reflexivity.
Qed.

End GatewayRuns.

Section GatewayRunWitnesses.

Import ApiGateway GatewayOps GatewaySamples GatewayRunSamples.

(** X21, on sample inputs.
    [GET /metrics] reaches [requireAdmin] with no principal and is
    answered 401; the handler behind it does not run. *)
Lemma admin_endpoints_answer_401_witness :
  (RequireAdmin, anonymous)
    ∈ handle both_enabled (wired read_only proxying) get_metrics anonymous
  /\ (forall c, (RequireAdmin, c)
                  ∈ handle both_enabled (wired read_only proxying) get_metrics anonymous ->
        Auth.requireAdmin (read_only <$> user c) = Auth.Denied 401)
  /\ (forall x, x ∈ admin_handlers ->
        x ∉ stages_run both_enabled (wired read_only proxying) get_metrics anonymous).
Proof.
  split.
  - apply list_elem_of_In. vm_compute. repeat first [left; reflexivity | right].
  - apply (admin_endpoints_answer_401 read_only both_enabled proxying get_metrics
             anonymous); [reflexivity|].
    intros s c c' Hs. destruct s; cbn; congruence.
Defined.

(** X23, on sample inputs.
    The router is reached by [GET /api/users/42], with the principal
    that [authenticate] has set. *)
Lemma router_sees_only_authenticated_requests_witness :
  RouterMw ∈ stages_run both_enabled (wired read_only proxying) get_user_42 anonymous
  /\ (forall c, (RouterMw, c)
                  ∈ handle both_enabled (wired read_only proxying) get_user_42 anonymous ->
        is_Some (user c)).
Proof.
  split.
  - apply list_elem_of_In. vm_compute. repeat first [left; reflexivity | right].
  - apply (router_sees_only_authenticated_requests read_only both_enabled proxying
             get_user_42 anonymous).
    + intros c c' H. cbn in H. injection H as <-. cbn. eexists. reflexivity.
    + intros s c c' Hs. apply list_elem_of_In in Hs. cbn in Hs.
      repeat (destruct Hs as [<-|Hs]; [cbn; congruence|]). destruct Hs.
Defined.

End GatewayRunWitnesses.

(** ** The router: selection and health *)

Section RouterFacts.

Import Router.

Lemma lookup_filter_healthy st (l : list Instance) k i :
  List.filter (healthy st) l !! k = Some i -> i ∈ l /\ healthy st i = true.
Proof.
  intros Hk. apply list_elem_of_lookup_2, list_elem_of_In, filter_In in Hk as [Hin Hh].
  split; [apply list_elem_of_In, Hin | exact Hh].
Qed.

Lemma least_go_from st l : forall best i,
  least_go st l best = Some i ->
  i ∈ l \/ (exists n, best = Some (i, n)).
Proof.
  induction l as [|x l IH]; intros best i; cbn.
  - destruct best as [[b n]|]; cbn; [intros [= ->]; right; eauto | discriminate].
  - destruct best as [[b n]|].
    + destruct (_ <? _)%N; intros H; apply IH in H as [H|[m H]].
      * left. right. exact H.
      * injection H as -> _. left. left.
      * left. right. exact H.
      * right. eauto.
    + intros H. apply IH in H as [H|[m H]].
      * left. right. exact H.
      * injection H as -> _. left. left.
Qed.

Lemma least_go_some st l : forall best,
  (l <> [] \/ is_Some best) -> is_Some (least_go st l best).
Proof.
  induction l as [|x l IH]; intros best H; cbn.
  - destruct H as [H|[b ->]]; [congruence | eauto].
  - destruct best as [[b n]|]; [destruct (_ <? _)%N|]; apply IH; right; eauto.
Qed.

(** The count of the choice is a lower bound of the counts seen. *)
Lemma least_go_min st l : forall best i,
  (forall b n, best = Some (b, n) ->
     n = default 0%N (connectionCounts st !! instanceKey b)) ->
  least_go st l best = Some i ->
  (forall x, x ∈ l ->
     (default 0 (connectionCounts st !! instanceKey i)
      <= default 0 (connectionCounts st !! instanceKey x))%N)
  /\ (forall b n, best = Some (b, n) ->
        (default 0 (connectionCounts st !! instanceKey i) <= n)%N).
Proof.
  induction l as [|x l IH]; intros best i Hok; cbn.
  - destruct best as [[b n]|]; cbn; [|discriminate].
    intros [= ->]. split; [intros y Hy; inversion Hy|].
    intros b' n' [= -> ->]. rewrite <- (Hok _ _ eq_refl). lia.
  - destruct best as [[b n]|].
    + destruct (N.ltb_spec (default 0%N (connectionCounts st !! instanceKey x)) n) as [Hlt|Hge];
        intros H; apply IH in H as [Hall Hbest].
      * specialize (Hbest _ _ eq_refl). split.
        -- intros y Hy. apply elem_of_cons in Hy as [->|Hy]; [exact Hbest | apply Hall, Hy].
        -- intros b' n' [= -> ->]. lia.
      * intros b' n' [= -> ->]. reflexivity.
      * specialize (Hbest _ _ eq_refl). split.
        -- intros y Hy. apply elem_of_cons in Hy as [->|Hy]; [lia | apply Hall, Hy].
        -- intros b' n' [= -> ->]. exact Hbest.
      * exact Hok.
    + intros H. apply IH in H as [Hall Hbest].
      * specialize (Hbest _ _ eq_refl). split.
        -- intros y Hy. apply elem_of_cons in Hy as [->|Hy]; [exact Hbest | apply Hall, Hy].
        -- discriminate.
      * intros b' n' [= -> ->]. reflexivity.
Qed.

Lemma selection_of_Selected o i : selection_of o = Selected i -> o = Some i.
Proof. destruct o; cbn; congruence. Qed.

Lemma copies_elem i x : x ∈ copies i -> x = i.
Proof. unfold copies. intros H. apply elem_of_replicate in H as [-> _]. reflexivity. Qed.

Lemma concat_copies_elem l x : x ∈ List.concat (map copies l) -> x ∈ l.
Proof.
  induction l as [|i l IH]; cbn; [intros H; inversion H|].
  intros H. apply elem_of_app in H as [H|H].
  - apply copies_elem in H. subst. left.
  - right. apply IH, H.
Qed.

Lemma healthy_after_index st f i : healthy (with_index f st) i = healthy st i.
Proof. reflexivity. Qed.

Lemma selectInstance_picks_healthy service draw st i st' :
  selectInstance service draw st = (Selected i, st') ->
  i ∈ instances service /\ healthy st i = true.
Proof.
  assert (Hsub : forall x, x ∈ List.filter (healthy st) (instances service) ->
                   x ∈ instances service /\ healthy st x = true).
  { intros x Hx. apply list_elem_of_In, filter_In in Hx as [H1 H2].
    split; [apply list_elem_of_In, H1 | exact H2]. }
  unfold selectInstance.
  destruct (List.filter (healthy st) (instances service)) as [|c cs] eqn:Hf; [discriminate|].
  rewrite <- Hf in *.
  destruct (String.eqb (loadBalancing service) "leastConnections").
  { intros [= H _]. apply selection_of_Selected in H.
    apply least_go_from in H as [H|[n H]]; [apply Hsub, H | discriminate]. }
  destruct (String.eqb (loadBalancing service) "random").
  { intros [= H _]. apply selection_of_Selected, list_elem_of_lookup_2 in H.
    apply Hsub, H. }
  destruct (String.eqb (loadBalancing service) "ipHash").
  { destruct (ip_hash draw); [|discriminate].
    intros [= H _]. apply selection_of_Selected, list_elem_of_lookup_2 in H.
    apply Hsub, H. }
  destruct (String.eqb (loadBalancing service) "weightedRoundRobin").
  { unfold weightedRoundRobinSelection.
    destruct (List.concat (map copies (List.filter (healthy st) (instances service))))
      as [|w ws] eqn:Hw.
    - intros [= H _]. apply selection_of_Selected in H.
      apply Hsub. rewrite Hf in *. cbn in H. injection H as <-. left.
    - rewrite <- Hw. intros [= H _].
      apply selection_of_Selected, list_elem_of_lookup_2, concat_copies_elem in H.
      apply Hsub, H. }
  unfold roundRobinSelection.
  intros [= H _]. apply selection_of_Selected, list_elem_of_lookup_2 in H.
  apply Hsub, H.
Qed.

(** X24. Whatever the policy, the instance a request is sent to is an
    instance of the service that is marked healthy, and the service is
    reported unavailable when it has none; round robin, least connections
    and weighted round robin find an instance whenever there is a healthy
    one, and least connections finds one with the fewest connections. *)
Theorem selected_instance_is_healthy service draw st :
  (forall i st', selectInstance service draw st = (Selected i, st') ->
     i ∈ instances service /\ healthy st i = true)
  /\ ((forall i, i ∈ instances service -> healthy st i = false) ->
      selectInstance service draw st = (NoInstance, st))
  /\ (forall i, i ∈ instances service -> healthy st i = true ->
        String.eqb (loadBalancing service) "random" = false ->
        String.eqb (loadBalancing service) "ipHash" = false ->
        exists j, fst (selectInstance service draw st) = Selected j)
  /\ (String.eqb (loadBalancing service) "leastConnections" = true ->
      forall i st', selectInstance service draw st = (Selected i, st') ->
        forall x, x ∈ instances service -> healthy st x = true ->
          (default 0 (connectionCounts st !! instanceKey i)
           <= default 0 (connectionCounts st !! instanceKey x))%N).
Proof.
  assert (Hsub : forall x, x ∈ List.filter (healthy st) (instances service) ->
                   x ∈ instances service /\ healthy st x = true).
  { intros x Hx. apply list_elem_of_In, filter_In in Hx as [H1 H2].
    split; [apply list_elem_of_In, H1 | exact H2]. }
  split; [|unfold selectInstance; split; [|split]].
  - intros i st'. apply selectInstance_picks_healthy.
  - intros Hnone.
    destruct (List.filter (healthy st) (instances service)) as [|c cs] eqn:Hf; [reflexivity|].
    assert (Hc : c ∈ c :: cs) by left.
    apply Hsub in Hc as [Hin Hh]. rewrite (Hnone c Hin) in Hh. discriminate.
  - intros i Hin Hh Hrandom Hip. rewrite Hrandom, Hip.
    assert (Hi : i ∈ List.filter (healthy st) (instances service)).
    { apply list_elem_of_In, filter_In. split; [apply list_elem_of_In, Hin | exact Hh]. }
    destruct (List.filter (healthy st) (instances service)) as [|c cs] eqn:Hf;
      [inversion Hi|].
    destruct (String.eqb (loadBalancing service) "leastConnections").
    { cbn [fst]. unfold leastConnectionsSelection.
      destruct (least_go_some st (c :: cs) None) as [j Hj]; [left; discriminate|].
      rewrite Hj. eauto. }
    destruct (String.eqb (loadBalancing service) "weightedRoundRobin").
    { unfold weightedRoundRobinSelection.
      destruct (List.concat (map copies (c :: cs))) as [|w ws] eqn:Hw; [cbn; eauto|].
      cbn [fst].
      destruct (lookup_lt_is_Some_2 (w :: ws)
                  (N.to_nat (default 0%N (roundRobinIndex st !! name service))
                   mod List.length (w :: ws))) as [j Hj].
      { apply Nat.mod_upper_bound. cbn. lia. }
      rewrite Hj. cbn. eauto. }
    unfold roundRobinSelection. cbn [fst].
    destruct (lookup_lt_is_Some_2 (c :: cs)
                (N.to_nat (default 0%N (roundRobinIndex st !! name service))
                 mod List.length (c :: cs))) as [j Hj].
    { apply Nat.mod_upper_bound. cbn. lia. }
    rewrite Hj. cbn. eauto.
  - intros Hlc i st'. rewrite Hlc.
    destruct (List.filter (healthy st) (instances service)) as [|c cs] eqn:Hf; [discriminate|].
    rewrite <- Hf. intros [= H _] x Hx Hhx. apply selection_of_Selected in H.
    apply least_go_min in H as [Hall _]; [|discriminate].
    apply Hall. apply list_elem_of_In, filter_In. split; [apply list_elem_of_In, Hx | exact Hhx].
Qed.

Lemma round_robin_step service draw st :
  round_robin service = true ->
  List.filter (healthy st) (instances service) <> [] ->
  selectInstance service draw st
  = (selection_of
       (List.filter (healthy st) (instances service)
        !! (N.to_nat (default 0%N (roundRobinIndex st !! name service))
            mod List.length (List.filter (healthy st) (instances service)))%nat),
     with_index (<[name service := (default 0 (roundRobinIndex st !! name service) + 1)%N]>)
       st).
Proof.
  unfold round_robin, selectInstance. intros Hrr Hne.
  repeat (apply andb_true_iff in Hrr as [Hrr ?]).
  repeat match goal with H : negb _ = true |- _ => apply negb_true_iff in H; rewrite H end.
  destruct (List.filter (healthy st) (instances service)); [congruence | reflexivity].
Qed.

(** X25. Under round robin the healthy instances of a service take turns:
    as long as their health does not change, request number [j] (from 0)
    goes to the healthy instance at place [(index + j) mod k], where
    [index] is the counter of the service and [k] the number of healthy
    instances. *)
Theorem round_robin_takes_turns service draw n : forall st j,
  round_robin service = true ->
  List.filter (healthy st) (instances service) <> [] ->
  (j < n)%nat ->
  select_n service draw n st !! j
  = Some (selection_of
            (List.filter (healthy st) (instances service)
             !! ((N.to_nat (default 0%N (roundRobinIndex st !! name service)) + j)
                 mod List.length (List.filter (healthy st) (instances service)))%nat)).
Proof.
  induction n as [|n IH]; intros st j Hrr Hne Hj; [lia|].
  cbn [select_n]. rewrite (round_robin_step service draw st Hrr Hne).
  destruct j as [|j]; cbn [lookup list_lookup].
  - rewrite Nat.add_0_r. reflexivity.
  - rewrite IH; [|exact Hrr | exact Hne | lia]. cbn.
    rewrite lookup_insert_eq. cbn.
    do 3 f_equal. f_equal. lia.
Qed.

Lemma note_failure_consistent h :
  (isHealthy h = true -> (consecutiveFailures h < 3)%N) ->
  isHealthy (note_failure h) = true -> (consecutiveFailures (note_failure h) < 3)%N.
Proof.
  unfold note_failure. cbn. destruct (N.leb_spec 3 (consecutiveFailures h + 1)); [discriminate|].
  intros _ _. lia.
Qed.

Lemma check_failed_consistent now h :
  (isHealthy h = true -> (consecutiveFailures h < 3)%N) ->
  isHealthy (check_failed now h) = true -> (consecutiveFailures (check_failed now h) < 3)%N.
Proof.
  unfold check_failed. cbn. destruct (N.leb_spec 3 (consecutiveFailures h + 1)); [discriminate|].
  intros _ _. lia.
Qed.

Lemma alter_consistent (f : Health -> Health) key st :
  (forall h, (isHealthy h = true -> (consecutiveFailures h < 3)%N) ->
             isHealthy (f h) = true -> (consecutiveFailures (f h) < 3)%N) ->
  health_consistent st -> health_consistent (with_health (alter f key) st).
Proof.
  intros Hf Hst k h. cbn. destruct (decide (k = key)) as [->|Hne].
  - rewrite lookup_alter_eq. destruct (serviceHealth st !! key) as [h0|] eqn:Hk; [|discriminate].
    cbn. intros [= <-]. apply Hf. apply (Hst key h0 Hk).
  - rewrite lookup_alter_ne by congruence. apply Hst.
Qed.

Lemma register_consistent service st :
  health_consistent st -> health_consistent (registerService service st).
Proof.
  unfold registerService, health_consistent. cbn.
  generalize (serviceHealth st). induction (instances service) as [|i l IH]; intros hm Hhm.
  - exact Hhm.
  - cbn. apply IH. intros k h. destruct (decide (k = instanceKey i)) as [->|Hne].
    + rewrite lookup_insert_eq. intros [= <-] _. cbn. lia.
    + rewrite lookup_insert_ne by congruence. apply Hhm.
Qed.

Lemma selectInstance_health service draw st :
  serviceHealth (snd (selectInstance service draw st)) = serviceHealth st.
Proof.
  unfold selectInstance.
  destruct (List.filter (healthy st) (instances service)); [reflexivity|].
  repeat match goal with |- context [if ?b then _ else _] => destruct b end;
    try reflexivity.
  - destruct (ip_hash draw); reflexivity.
  - unfold weightedRoundRobinSelection. destruct (List.concat _); reflexivity.
Qed.

Lemma after_consistent ops : health_consistent (after ops).
Proof.
  unfold after. induction ops as [|op ops IH] using rev_ind.
  - intros k h. cbn. rewrite lookup_empty. discriminate.
  - rewrite foldl_app. cbn. destruct op as [service|[key|i ok now]|service draw|key|key]; cbn.
    + apply register_consistent, IH.
    + apply alter_consistent; [apply note_failure_consistent | exact IH].
    + apply alter_consistent; [|exact IH]. destruct ok.
      * intros h _ _. cbn. lia.
      * apply check_failed_consistent.
    + intros k h. rewrite selectInstance_health. apply IH.
    + exact IH.
    + exact IH.
Qed.

(** X26. An instance takes no request once three failures in a row have been
    recorded for it, be it by failed probes or by proxy errors: whatever
    services were registered, whatever proxy errors and probes happened
    and whatever was selected before, an instance that is selected has
    fewer than three; a proxy error on it adds one to the count, and a
    probe that passes sets the count back to 0. *)
Theorem failing_instance_is_not_selected ops service draw i st' :
  selectInstance service draw (after ops) = (Selected i, st') ->
  exists h,
    serviceHealth (after ops) !! instanceKey i = Some h
    /\ (consecutiveFailures h < 3)%N
    /\ (forall key, consecutiveFailures <$> serviceHealth
                       (apply_op (after ops) (Happens (ProxyError key))) !! instanceKey i
                    = Some (if decide (instanceKey i = key)
                            then consecutiveFailures h + 1 else consecutiveFailures h)%N)
    /\ (forall now, consecutiveFailures <$> serviceHealth
                       (apply_op (after ops) (Happens (Probe i true now))) !! instanceKey i
                    = Some 0%N).
Proof.
  intros Hsel.
  destruct (selectInstance_picks_healthy _ _ _ _ _ Hsel) as [_ Hh]. unfold healthy in Hh.
  destruct (serviceHealth (after ops) !! instanceKey i) as [h|] eqn:Hk; [|discriminate].
  exists h. split; [reflexivity|]. split; [apply (after_consistent ops _ _ Hk Hh)|].
  split.
  - intros key. cbn. destruct (decide (instanceKey i = key)) as [<-|Hne].
    + rewrite lookup_alter_eq, Hk. reflexivity.
    + rewrite lookup_alter_ne by congruence. rewrite Hk. reflexivity.
  - intros now. cbn. rewrite lookup_alter_eq, Hk. reflexivity.
Qed.

Lemma find_at_or_before {A} (P : A -> bool) (pre : list A) e post :
  P e = true ->
  exists x, List.find P (pre ++ e :: post) = Some x /\ x ∈ pre ++ [e].
Proof.
  intros He. induction pre as [|y pre IH]; cbn.
  - rewrite He. exists e. split; [reflexivity | left].
  - destruct (P y); [exists y; split; [reflexivity | left]|].
    destruct IH as (x & Hx & Hin). exists x. split; [exact Hx | right; exact Hin].
Qed.

(** X27. The first route registered whose pattern starts the path gets the
    request, not the longest: when the path prefix of a service extends
    the prefix of a route registered before it, every request for the
    service goes to that route or to one registered still earlier. *)
Theorem earlier_prefix_shadows_later_service pre rpA sA mid rpB sB post st path :
  routes st = pre ++ (rpA, sA) :: mid ++ (rpB, sB) :: post ->
  String.prefix (remove_slash_star rpA) (remove_slash_star rpB) = true ->
  String.prefix (remove_slash_star rpB) path = true ->
  exists rp s,
    findMatchingService path st = Some s
    /\ (rp, s) ∈ pre ++ [(rpA, sA)].
Proof.
  intros Hroutes Hext HB. unfold findMatchingService. rewrite Hroutes.
  destruct (find_at_or_before
              (fun e : string * Service => String.prefix (remove_slash_star e.1) path)
              pre (rpA, sA) (mid ++ (rpB, sB) :: post))
    as ([rp s] & Hfind & Hin).
  { cbn. apply (string_prefix_trans _ _ _ Hext HB). }
  exists rp, s. rewrite Hfind. split; [reflexivity | exact Hin].
Qed.

End RouterFacts.

Section RouterWitnesses.

Import Router RouterSamples.

(** X25, on sample inputs.
    Two healthy instances are selected in turn. *)
Lemma round_robin_takes_turns_witness :
  select_n users_service first_draw 3 (after [Register users_service])
  = [Selected users_a; Selected users_b; Selected users_a]
  /\ select_n users_service first_draw 3 (after [Register users_service]) !! 2%nat
     = Some (Selected users_a).
Proof.
  split; [vm_compute; reflexivity|].
  refine (eq_trans (round_robin_takes_turns users_service first_draw 3
                      (after [Register users_service]) 2 eq_refl _ _) _).
  - vm_compute. discriminate.
  - lia.
  - vm_compute. reflexivity.
Defined.

(** X26, on sample inputs.
    After three proxy errors on the first instance the second one is
    selected. *)
Lemma failing_instance_is_not_selected_witness :
  fst (selectInstance users_service first_draw (after a_fails_thrice)) = Selected users_b
  /\ exists h,
       serviceHealth (after a_fails_thrice) !! instanceKey users_b = Some h
       /\ (consecutiveFailures h < 3)%N.
Proof.
  split; [vm_compute; reflexivity|].
  destruct (failing_instance_is_not_selected a_fails_thrice users_service first_draw
              users_b
              (snd (selectInstance users_service first_draw (after a_fails_thrice))))
    as (h & Hh & Hlt & _).
  - vm_compute. reflexivity.
  - exists h. split; [exact Hh | exact Hlt].
Defined.

(** X27, on sample inputs.
    With a service registered for [/api] before the users, a request for
    [/api/users/42] goes to the former. *)
Lemma earlier_prefix_shadows_later_service_witness :
  exists rp s,
    findMatchingService "/api/users/42"
      (after [Register api_service; Register users_service]) = Some s
    /\ (rp, s) ∈ [("/api/*"%string, api_service)].
Proof.
  apply (earlier_prefix_shadows_later_service [] "/api/*" api_service []
           "/api/users/*" users_service []
           (after [Register api_service; Register users_service]) "/api/users/42");
    vm_compute; reflexivity.
Defined.

End RouterWitnesses.

(** ** Addresses that are turned away *)

Section SecurityFacts.

Import Security.

Variable clock : nat -> Z.

Lemma recordViolation_blacklist a kind st x :
  x ∈ blacklistedIPs st -> x ∈ blacklistedIPs (recordViolation clock a kind st).
Proof.
  intros Hx. unfold recordViolation. cbn [blacklistedIPs securityViolations whitelistedIPs reads].
  destruct (_ && _); [apply elem_of_app; left|]; exact Hx.
Qed.

Lemma recordViolation_NoDup a kind st :
  NoDup (blacklistedIPs st) -> NoDup (blacklistedIPs (recordViolation clock a kind st)).
Proof.
  intros Hnd. unfold recordViolation. cbn [blacklistedIPs securityViolations whitelistedIPs reads].
  match goal with |- context [(10 <? ?n)%nat] => destruct (10 <? n)%nat end;
    cbn; [|exact Hnd].
  destruct (Cache.includes_str a (blacklistedIPs st)) eqn:Hin; cbn; [exact Hnd|].
  apply NoDup_app. split; [exact Hnd|]. split; [|apply NoDup_singleton].
  intros x Hx Hx'. apply list_elem_of_singleton in Hx'. subst x.
  apply includes_str_elem in Hx. congruence.
Qed.

Lemma recordViolation_capped a kind st :
  capped st -> capped (recordViolation clock a kind st).
Proof.
  intros Hc b vs. unfold recordViolation. cbn [blacklistedIPs securityViolations whitelistedIPs reads].
  destruct (decide (b = a)) as [->|Hne].
  - rewrite lookup_insert_eq. intros [= <-].
    assert (Hold : (List.length (default [] (securityViolations st !! a)) <= 100)%nat).
    { destruct (securityViolations st !! a) as [vs0|] eqn:Ha; cbn; [apply (Hc a vs0 Ha) | lia]. }
    destruct (Nat.ltb_spec 100
                (List.length (default [] (securityViolations st !! a)
                              ++ [{| type := kind; timestamp := clock (reads st) |}]))) as [H|H].
    + rewrite length_tl, length_app in *. cbn in *. lia.
    + exact H.
  - rewrite lookup_insert_ne by congruence. apply Hc.
Qed.

Lemma recordViolation_whitelist a kind st :
  whitelistedIPs (recordViolation clock a kind st) = whitelistedIPs st.
Proof. reflexivity. Qed.

Lemma apply_op_keeps ops : forall st a,
  a ∈ blacklistedIPs st ->
  a ∈ blacklistedIPs (foldl (apply_op clock) st ops)
  /\ whitelistedIPs (foldl (apply_op clock) st ops) = whitelistedIPs st
  /\ (capped st -> capped (foldl (apply_op clock) st ops))
  /\ (NoDup (blacklistedIPs st) -> NoDup (blacklistedIPs (foldl (apply_op clock) st ops))).
Proof.
  induction ops as [|op ops IH]; intros st a Ha; [cbn; auto|].
  cbn [foldl].
  assert (Hstep : a ∈ blacklistedIPs (apply_op clock st op)
                  /\ whitelistedIPs (apply_op clock st op) = whitelistedIPs st
                  /\ (capped st -> capped (apply_op clock st op))
                  /\ (NoDup (blacklistedIPs st) -> NoDup (blacklistedIPs (apply_op clock st op)))).
  { destruct op as [req|b kind]; cbn.
    - unfold checkIPAccess. destruct (whitelistedIPs st) eqn:Hw; cbn; [|auto].
      destruct (getClientIP req) as [c|]; cbn; [|auto].
      destruct (Cache.includes_str c (blacklistedIPs st)); cbn; [|auto].
      split; [apply recordViolation_blacklist, Ha|]. split; [exact Hw|].
      split; [apply recordViolation_capped | apply recordViolation_NoDup].
    - split; [apply recordViolation_blacklist, Ha|]. split; [reflexivity|].
      split; [apply recordViolation_capped | apply recordViolation_NoDup]. }
  destruct Hstep as (H1 & H2 & H3 & H4).
  destruct (IH (apply_op clock st op) a H1) as (I1 & I2 & I3 & I4).
  split; [exact I1|]. split; [congruence|]. split; auto.
Qed.

(** X28. Without a whitelist, an address that is on the blacklist stays on
    it and is turned away whatever happens afterwards; the blacklist
    gets no address twice, and no address has more than 100 violations on
    record, the refusals of a blacklisted address included. *)
Theorem blacklisted_address_stays_blocked ops st a req :
  whitelistedIPs st = [] ->
  a ∈ blacklistedIPs st ->
  getClientIP req = Some a ->
  let later := foldl (apply_op clock) st ops in
  fst (checkIPAccess clock req later) = false
  /\ a ∈ blacklistedIPs later
  /\ (capped st -> capped later)
  /\ (NoDup (blacklistedIPs st) -> NoDup (blacklistedIPs later)).
Proof.
  intros Hw Ha Hreq later.
  destruct (apply_op_keeps ops st a Ha) as (H1 & H2 & H3 & H4).
  fold later in H1, H2, H3, H4.
  split; [|auto].
  unfold checkIPAccess. rewrite H2, Hw, Hreq.
  apply includes_str_elem in H1. rewrite H1. reflexivity.
Qed.

Lemma clock_mono :
  (forall k, clock k <= clock (S k)) -> forall k j, (k <= j)%nat -> clock k <= clock j.
Proof.
  intros Hm k j Hkj. induction Hkj as [|j Hkj IH]; [lia|].
  specialize (Hm j). lia.
Qed.

Lemma recent_app k l1 l2 :
  recent clock k (l1 ++ l2)
  = recent clock k l1 ++ recent clock (k + List.length l1) l2.
Proof.
  revert k. induction l1 as [|v l1 IH]; intros k; cbn.
  - rewrite Nat.add_0_r. reflexivity.
  - rewrite IH. replace (S k + List.length l1)%nat with (k + S (List.length l1))%nat by lia.
    destruct (_ <? _); reflexivity.
Qed.

Lemma recent_all k l :
  (forall v j, v ∈ l -> (k <= j < k + List.length l)%nat ->
     clock j - timestamp v < 3600000) ->
  recent clock k l = l.
Proof.
  revert k. induction l as [|v l IH]; intros k Hall; cbn; [reflexivity|].
  assert (Hv : (clock k - timestamp v <? 3600000) = true).
  { apply Z.ltb_lt. apply Hall; [left | cbn; lia]. }
  rewrite Hv. f_equal. apply IH. intros w j Hw Hj. apply Hall; [right; exact Hw | cbn; lia].
Qed.

Lemma reads_grow a kind st : (reads st < reads (recordViolation clock a kind st))%nat.
Proof. unfold recordViolation. cbn [blacklistedIPs securityViolations whitelistedIPs reads]. lia. Qed.

Lemma record_all_reads a kinds : forall st,
  (reads st <= reads (record_all clock a kinds st))%nat.
Proof.
  unfold record_all. induction kinds as [|kind kinds IH]; intros st; cbn; [lia|].
  etrans; [|apply IH]. pose proof (reads_grow a kind st). lia.
Qed.

Lemma record_all_blacklist a kinds : forall st x,
  x ∈ blacklistedIPs st -> x ∈ blacklistedIPs (record_all clock a kinds st).
Proof.
  unfold record_all. induction kinds as [|kind kinds IH]; intros st x Hx; cbn; [exact Hx|].
  apply IH, recordViolation_blacklist, Hx.
Qed.

(** The violations the calls so far have put on the list of [a] are at
    its end. *)
Lemma record_all_tail a (r0 : nat) kinds : forall st news,
  (forall k, clock k <= clock (S k)) ->
  (List.length kinds + List.length news <= 11)%nat ->
  (r0 <= reads st)%nat ->
  (exists olds, default [] (securityViolations st !! a) = olds ++ news) ->
  (forall v, v ∈ news -> clock r0 <= timestamp v) ->
  clock (reads (record_all clock a kinds st)) - clock r0 < 3600000 ->
  (List.length kinds + List.length news = 11)%nat ->
  kinds <> [] ->
  a ∈ blacklistedIPs (record_all clock a kinds st).
Proof.
  unfold record_all.
  induction kinds as [|kind kinds IH]; intros st news Hmono Hlen Hr0 [olds Hold] Hnews Hspan Hfull Hne;
    [congruence|].
  cbn [foldl]. cbn in Hlen, Hfull.
  set (v := {| type := kind; timestamp := clock (reads st) |}).
  assert (Hlist : exists olds',
            securityViolations (recordViolation clock a kind st) !! a
            = Some (olds' ++ news ++ [v])).
  { unfold recordViolation. cbn [blacklistedIPs securityViolations whitelistedIPs reads]. rewrite lookup_insert_eq, Hold. fold v.
    destruct (Nat.ltb_spec 100 (List.length ((olds ++ news) ++ [v]))) as [Hbig|Hsmall].
    - destruct olds as [|o olds].
      + cbn in Hbig. rewrite length_app in Hbig. cbn in Hbig. lia.
      + exists olds. cbn. rewrite <- app_assoc. reflexivity.
    - exists olds. rewrite <- app_assoc. reflexivity. }
  destruct Hlist as [olds' Hlist].
  assert (Hv : forall w, w ∈ news ++ [v] -> clock r0 <= timestamp w).
  { intros w Hw. apply elem_of_app in Hw as [Hw|Hw]; [apply Hnews, Hw|].
    apply list_elem_of_singleton in Hw. subst w. cbn. apply clock_mono; auto. }
  destruct kinds as [|kind2 kinds].
  - (* the eleventh violation *)
    cbn [foldl] in *. unfold recordViolation in *.
    cbn [blacklistedIPs securityViolations whitelistedIPs reads] in *.
    rewrite lookup_insert_eq in Hlist. injection Hlist as Hlist.
    fold v in Hlist, Hspan |- *. rewrite Hlist in *.
    destruct (Cache.includes_str a (blacklistedIPs st)) eqn:Hin.
    { rewrite andb_false_r. apply includes_str_elem, Hin. }
    rewrite andb_true_r.
    assert (Hrecent : (10 < List.length (recent clock (S (reads st)) (olds' ++ news ++ [v])))%nat).
    { rewrite recent_app, length_app.
      rewrite (recent_all _ (news ++ [v])).
      - rewrite length_app. cbn [List.length] in *. lia.
      - intros w j Hw Hj. specialize (Hv w Hw).
        assert (clock j <= clock (S (reads st) + List.length (olds' ++ news ++ [v]))%nat);
          [|lia].
        apply clock_mono; [exact Hmono|]. rewrite !length_app in *. cbn in *. lia. }
    apply Nat.ltb_lt in Hrecent. rewrite Hrecent.
    apply elem_of_app. right. left.
  - apply (IH (recordViolation clock a kind st) (news ++ [v])); auto.
    all: try (rewrite length_app; cbn [List.length] in *; lia).
    all: try discriminate.
    all: try (pose proof (reads_grow a kind st); lia).
    all: try (exists olds'; rewrite Hlist; reflexivity).
Qed.

(** X29. An address with eleven violations within an hour is on the
    blacklist: after eleven or more violations of an address are
    recorded, with less than an hour between the first and the last
    clock reading and a clock that does not run backwards, the address
    is blacklisted. *)
Theorem eleven_violations_blacklist_the_address a kinds st :
  (forall k, clock k <= clock (S k)) ->
  (11 <= List.length kinds)%nat ->
  clock (reads (record_all clock a kinds st)) - clock (reads st) < 3600000 ->
  a ∈ blacklistedIPs (record_all clock a kinds st).
Proof.
  intros Hmono Hlen Hspan.
  rewrite <- (take_drop 11 kinds) in Hspan |- *.
  unfold record_all in *. rewrite foldl_app in *.
  apply (record_all_blacklist a (drop 11 kinds)).
  apply (record_all_tail a (reads st) (take 11 kinds) st []); auto.
  - rewrite length_take. cbn [List.length]. lia.
  - exists (default [] (securityViolations st !! a)). rewrite app_nil_r. reflexivity.
  - intros v Hv. inversion Hv.
  - pose proof (record_all_reads a (drop 11 kinds)
                  (foldl (fun st kind => recordViolation clock a kind st) st (take 11 kinds))) as Hr.
    unfold record_all in Hr.
    pose proof (clock_mono Hmono _ _ Hr). unfold record_all. lia.
  - rewrite length_take. cbn [List.length]. lia.
  - destruct kinds; [cbn in Hlen; lia | discriminate].
Qed.

End SecurityFacts.

Section SecurityWitnesses.

Import Security SecuritySamples Samples.

(** X28, on sample inputs.
    A blacklisted address is turned away after any history. *)
Lemma blacklisted_address_stays_blocked_witness :
  fst (checkIPAccess sample_clock from_blocked
         (foldl (apply_op sample_clock) one_blocked
            [Violates "10.0.0.9" "RATE_LIMIT"; Check from_blocked;
             Violates "10.0.0.7" "SUSPICIOUS_PATTERN"])) = false.
Proof.
  apply (blacklisted_address_stays_blocked sample_clock
           [Violates "10.0.0.9" "RATE_LIMIT"; Check from_blocked;
            Violates "10.0.0.7" "SUSPICIOUS_PATTERN"]
           one_blocked "10.0.0.9" from_blocked).
  - reflexivity.
  - apply list_elem_of_In. cbn. auto.
  - vm_compute. reflexivity.
Defined.

(** X29, on sample inputs.
    Eleven violations within a second put the address on the blacklist. *)
Lemma eleven_violations_blacklist_the_address_witness :
  "10.0.0.7"%string
    ∈ blacklistedIPs (record_all sample_clock "10.0.0.7"
                        (replicate 11 "SUSPICIOUS_PATTERN"%string) nothing_recorded).
Proof.
  apply (eleven_violations_blacklist_the_address sample_clock "10.0.0.7"
           (replicate 11 "SUSPICIOUS_PATTERN"%string) nothing_recorded).
  - intros k. unfold sample_clock. lia.
  - cbn. lia.
  - vm_compute. reflexivity.
Defined.

End SecurityWitnesses.
